(** * NoteKeeper: the synchronisation policy and the asset cache

    A shallow embedding of [assets/js/app.js] (the [app] object), of the
    Remote Client ([class NoteKeeper]) and of the service worker (the
    [install] and [activate] listeners), with the statements of the
    specification proved or refuted on it.

    Modelling conventions.
    - A JavaScript string is the list of its UTF-16 code units
      ([jsstring]).  Names that the program only uses as identifiers
      (storage keys, cache names, URLs, log messages) are Rocq strings.
    - A JavaScript value that can come out of [JSON.parse] is a [value];
      [undefined] is added because [data.notes] and [data.note] may be
      missing.  Numbers are exact decimals [m / 10^k]: binary64 rounding,
      overflow and the exponent form of [Number::toString] are not
      modelled.  An object is the list of its own properties in creation
      order (the reordering of integer-like keys is not modelled).
    - Code that reads and writes the browser state is a function
      [World -> outcome A * World]: [Returns] a value or [Throws] an
      exception.  An [await] is a plain sequencing point: one operation
      runs at a time. *)

From Stdlib Require Import ZArith NArith List Lia String Ascii Bool.
From stdpp Require Import gmap strings list.
Import ListNotations.

Set Warnings "-register-all".

(* ===================================================================== *)
(** ** JavaScript strings and values *)
(* ===================================================================== *)

Definition jsstring := list N.

(** The code units of an ASCII literal. *)
Definition str (s : string) : jsstring :=
  List.map N_of_ascii (list_ascii_of_string s).

Fixpoint jsstring_eqb (a b : jsstring) : bool :=
  match a, b with
  | [], [] => true
  | x :: a', y :: b' => (x =? y)%N && jsstring_eqb a' b'
  | _, _ => false
  end.

Inductive value :=
| VUndefined
| VNull
| VBool (b : bool)
| VNumber (m : Z) (k : nat)            (* the number m / 10^k *)
| VString (s : jsstring)
| VArray (elements : list value)
| VObject (props : list (jsstring * value)).

(** An exception value.  [Error] is what the application throws itself
    ([new Error(message)]); the others are raised by the platform. *)
Inductive exn :=
| Error (message : string)
| SyntaxError          (* JSON.parse, response.json() *)
| TypeError            (* property of null or undefined, call of a non-function, failed fetch *)
| NotFoundError.       (* removeChild of a node that is not a child *)

(** [ToBoolean]. *)
Definition truthy (v : value) : bool :=
  match v with
  | VUndefined | VNull => false
  | VBool b => b
  | VNumber m _ => negb (m =? 0)%Z
  | VString s => match s with [] => false | _ => true end
  | VArray _ | VObject _ => true
  end.

(** [a === b].  Two numbers are compared by value; objects and arrays are
    compared by identity, and the two sides of every comparison of the
    program come from different allocations (a fresh [JSON.parse] result
    against a handler argument), so they are never the same object. *)
Definition strict_equal (a b : value) : bool :=
  match a, b with
  | VUndefined, VUndefined => true
  | VNull, VNull => true
  | VBool x, VBool y => Bool.eqb x y
  | VNumber m1 k1, VNumber m2 k2 =>
      (m1 * 10 ^ Z.of_nat k2 =? m2 * 10 ^ Z.of_nat k1)%Z
  | VString s, VString t => jsstring_eqb s t
  | _, _ => false
  end.

Fixpoint lookup_prop (p : jsstring) (props : list (jsstring * value)) : option value :=
  match props with
  | [] => None
  | (k, v) :: rest => if jsstring_eqb k p then Some v else lookup_prop p rest
  end.

(** [CreateDataProperty]: an existing key keeps its place and takes the
    new value, a new key goes last. *)
Fixpoint define_prop (p : jsstring) (v : value) (props : list (jsstring * value))
  : list (jsstring * value) :=
  match props with
  | [] => [(p, v)]
  | (k, w) :: rest =>
      if jsstring_eqb k p then (k, v) :: rest else (k, w) :: define_prop p v rest
  end.

(** [o.p] for the property names the program reads ([id], [note],
    [notes], [length]): own properties, and the [length] of arrays and
    strings.  [None] is the TypeError of reading a property of [null] or
    [undefined]. *)
Definition get_prop (o : value) (p : jsstring) : option value :=
  match o with
  | VUndefined | VNull => None
  | VObject props =>
      Some (match lookup_prop p props with Some v => v | None => VUndefined end)
  | VArray l =>
      Some (if jsstring_eqb p (str "length")
            then VNumber (Z.of_nat (length l)) 0 else VUndefined)
  | VString s =>
      Some (if jsstring_eqb p (str "length")
            then VNumber (Z.of_nat (length s)) 0 else VUndefined)
  | VBool _ | VNumber _ _ => Some VUndefined
  end.

(* ===================================================================== *)
(** ** JSON.parse *)
(* ===================================================================== *)

Module JSON.

Open Scope N_scope.

Definition is_ws (c : N) : bool :=
  (c =? 32) || (c =? 9) || (c =? 10) || (c =? 13).

Fixpoint skip_ws (s : jsstring) : jsstring :=
  match s with
  | c :: r => if is_ws c then skip_ws r else s
  | [] => []
  end.

Definition is_digit (c : N) : bool := (48 <=? c) && (c <=? 57).

(** The rest of [s] after the character [c], when [s] starts with it. *)
Definition next_is (c : N) (s : jsstring) : option jsstring :=
  match s with
  | d :: r => if d =? c then Some r else None
  | [] => None
  end.

Fixpoint strip_prefix (lit s : jsstring) : option jsstring :=
  match lit with
  | [] => Some s
  | c :: lit' =>
      match s with
      | d :: r => if d =? c then strip_prefix lit' r else None
      | [] => None
      end
  end.

(** *** Numbers *)

Fixpoint take_digits (s : jsstring) : jsstring * jsstring :=
  match s with
  | c :: r =>
      if is_digit c
      then let (ds, r') := take_digits r in (c :: ds, r')
      else ([], s)
  | [] => ([], [])
  end.

Definition digits_value (ds : jsstring) : N :=
  fold_left (fun acc d => 10 * acc + (d - 48)) ds 0.

(** int = "0" | [1-9][0-9]*: after a leading zero the integer part ends. *)
Definition parse_int (s : jsstring) : option (N * jsstring) :=
  match s with
  | c :: r =>
      if c =? 48 then Some (0, r)
      else if is_digit c
           then let (ds, r') := take_digits s in Some (digits_value ds, r')
           else None
  | [] => None
  end.

Definition parse_frac (s : jsstring) : option (jsstring * jsstring) :=
  match next_is 46 s with
  | Some r =>
      let (ds, r') := take_digits r in
      match ds with [] => None | _ => Some (ds, r') end
  | None => Some ([], s)
  end.

Definition parse_exp (s : jsstring) : option (Z * jsstring) :=
  match s with
  | c :: r =>
      if (c =? 101) || (c =? 69) then
        let (neg, r1) :=
          match r with
          | d :: r' =>
              if d =? 45 then (true, r')
              else if d =? 43 then (false, r') else (false, r)
          | [] => (false, r)
          end in
        let (ds, r2) := take_digits r1 in
        match ds with
        | [] => None
        | _ => let e := Z.of_N (digits_value ds) in
               Some (if neg then (- e)%Z else e, r2)
        end
      else Some (0%Z, s)
  | [] => Some (0%Z, s)
  end.

(** The normal form of [m / 10^k]: no trailing zero in the fraction. *)
Fixpoint normalise (m : Z) (k : nat) : Z * nat :=
  match k with
  | O => (m, O)
  | S k' => if (m mod 10 =? 0)%Z then normalise (m / 10)%Z k' else (m, k)
  end.

(** The number [m / 10^k] for any integer [k]. *)
Definition make_number (m k : Z) : value :=
  if (k <=? 0)%Z then VNumber (m * 10 ^ (- k))%Z 0
  else let (m', k') := normalise m (Z.to_nat k) in VNumber m' k'.

Definition parse_number (s : jsstring) : option (value * jsstring) :=
  let (neg, s1) :=
    match next_is 45 s with Some r => (true, r) | None => (false, s) end in
  match parse_int s1 with
  | None => None
  | Some (i, s2) =>
      match parse_frac s2 with
      | None => None
      | Some (fs, s3) =>
          match parse_exp s3 with
          | None => None
          | Some (e, s4) =>
              let m := Z.of_N (i * 10 ^ N.of_nat (length fs) + digits_value fs) in
              Some (make_number (if neg then - m else m)%Z
                                (Z.of_nat (length fs) - e)%Z, s4)
          end
      end
  end.

(** *** Strings *)

Definition hex_value (c : N) : option N :=
  if is_digit c then Some (c - 48)
  else if (97 <=? c) && (c <=? 102) then Some (c - 87)
  else if (65 <=? c) && (c <=? 70) then Some (c - 55)
  else None.

Definition hex4 (a b c d : N) : option N :=
  match hex_value a, hex_value b, hex_value c, hex_value d with
  | Some x, Some y, Some z, Some w => Some (((x * 16 + y) * 16 + z) * 16 + w)
  | _, _, _, _ => None
  end.

(** The character an escape letter stands for. *)
Definition simple_escape (e : N) : option N :=
  if (e =? 34) || (e =? 92) || (e =? 47) then Some e
  else if e =? 98 then Some 8
  else if e =? 102 then Some 12
  else if e =? 110 then Some 10
  else if e =? 114 then Some 13
  else if e =? 116 then Some 9
  else None.

(** The characters of a string literal, read after its opening quote, up
    to and including the closing quote. *)
Fixpoint parse_chars (s : jsstring) : option (jsstring * jsstring) :=
  match s with
  | [] => None
  | c :: r =>
      if c =? 34 then Some ([], r)
      else if c =? 92 then
        match r with
        | [] => None
        | e :: r1 =>
            if e =? 117 then
              match r1 with
              | h1 :: h2 :: h3 :: h4 :: r2 =>
                  match hex4 h1 h2 h3 h4 with
                  | Some u =>
                      match parse_chars r2 with
                      | Some (t, rest) => Some (u :: t, rest)
                      | None => None
                      end
                  | None => None
                  end
              | _ => None
              end
            else
              match simple_escape e with
              | Some u =>
                  match parse_chars r1 with
                  | Some (t, rest) => Some (u :: t, rest)
                  | None => None
                  end
              | None => None
              end
        end
      else if c <? 32 then None
      else
        match parse_chars r with
        | Some (t, rest) => Some (c :: t, rest)
        | None => None
        end
  end.

(** *** Values *)

(** [fuel] bounds the depth of the calls; every second call on a path
    consumes a character, so the [2 * length text + 2] of [parse] is never
    exhausted ([parse_fuel_enough] below). *)
Fixpoint parse_value (fuel : nat) (s : jsstring) : option (value * jsstring) :=
  match fuel with
  | O => None
  | S fuel =>
      match skip_ws s with
      | [] => None
      | c :: r =>
          if c =? 110 then
            match strip_prefix (str "ull") r with
            | Some r' => Some (VNull, r') | None => None end
          else if c =? 116 then
            match strip_prefix (str "rue") r with
            | Some r' => Some (VBool true, r') | None => None end
          else if c =? 102 then
            match strip_prefix (str "alse") r with
            | Some r' => Some (VBool false, r') | None => None end
          else if c =? 34 then
            match parse_chars r with
            | Some (t, r') => Some (VString t, r') | None => None end
          else if c =? 91 then
            match next_is 93 (skip_ws r) with
            | Some r' => Some (VArray [], r')
            | None =>
                match parse_elements fuel r with
                | Some (vs, r') => Some (VArray vs, r') | None => None end
            end
          else if c =? 123 then
            match next_is 125 (skip_ws r) with
            | Some r' => Some (VObject [], r')
            | None =>
                match parse_members fuel r [] with
                | Some (ps, r') => Some (VObject ps, r') | None => None end
            end
          else parse_number (c :: r)
      end
  end

with parse_elements (fuel : nat) (s : jsstring) : option (list value * jsstring) :=
  match fuel with
  | O => None
  | S fuel =>
      match parse_value fuel s with
      | None => None
      | Some (v, r) =>
          match skip_ws r with
          | [] => None
          | c :: r' =>
              if c =? 93 then Some ([v], r')
              else if c =? 44 then
                match parse_elements fuel r' with
                | Some (vs, r'') => Some (v :: vs, r'') | None => None end
              else None
          end
      end
  end

with parse_members (fuel : nat) (s : jsstring) (acc : list (jsstring * value))
  : option (list (jsstring * value) * jsstring) :=
  match fuel with
  | O => None
  | S fuel =>
      match next_is 34 (skip_ws s) with
      | None => None
      | Some r =>
          match parse_chars r with
          | None => None
          | Some (k, r1) =>
              match next_is 58 (skip_ws r1) with
              | None => None
              | Some r2 =>
                  match parse_value fuel r2 with
                  | None => None
                  | Some (v, r3) =>
                      let acc' := define_prop k v acc in
                      match skip_ws r3 with
                      | [] => None
                      | c :: r4 =>
                          if c =? 125 then Some (acc', r4)
                          else if c =? 44 then parse_members fuel r4 acc'
                          else None
                      end
                  end
              end
          end
      end
  end.

(** [JSON.parse(text)]; [None] is the SyntaxError. *)
Definition parse (text : jsstring) : option value :=
  match parse_value (2 * length text + 2) text with
  | Some (v, r) => match skip_ws r with [] => Some v | _ => None end
  | None => None
  end.

(* ===================================================================== *)
(** ** JSON.stringify *)
(* ===================================================================== *)

(** The decimal digits of [n], most significant first. *)
Fixpoint digits_of (fuel : nat) (n : N) : jsstring :=
  match fuel with
  | O => []
  | S f => if n <? 10 then [48 + n] else digits_of f (n / 10) ++ [48 + n mod 10]
  end.

Definition N_to_string (n : N) : jsstring :=
  digits_of (S (N.to_nat (N.size n))) n.

(** The last [k] decimal digits of [n], with leading zeros. *)
Fixpoint frac_digits (k : nat) (n : N) : jsstring :=
  match k with
  | O => []
  | S k' => frac_digits k' (n / 10) ++ [48 + n mod 10]
  end.

Definition number_to_string (m : Z) (k : nat) : jsstring :=
  let (m', k') := normalise m k in
  let a := Z.abs_N m' in
  (if (m' <? 0)%Z then [45] else []) ++
  match k' with
  | O => N_to_string a
  | S _ =>
      let p := 10 ^ N.of_nat k' in
      N_to_string (a / p) ++ [46] ++ frac_digits k' (a mod p)
  end.

Definition hex_digit (n : N) : N := if n <? 10 then 48 + n else 87 + n.

Definition unicode_escape (c : N) : jsstring :=
  [92; 117; hex_digit (c / 4096 mod 16); hex_digit (c / 256 mod 16);
   hex_digit (c / 16 mod 16); hex_digit (c mod 16)].

Definition escape_char (c : N) : jsstring :=
  if c =? 34 then [92; 34]
  else if c =? 92 then [92; 92]
  else if c =? 8 then [92; 98]
  else if c =? 12 then [92; 102]
  else if c =? 10 then [92; 110]
  else if c =? 13 then [92; 114]
  else if c =? 9 then [92; 116]
  else if c <? 32 then unicode_escape c
  else [c].

Definition is_lead (c : N) : bool := (55296 <=? c) && (c <=? 56319).
Definition is_trail (c : N) : bool := (56320 <=? c) && (c <=? 57343).

(** [QuoteJSONString] without its quotes: a surrogate pair is kept, a lone
    surrogate is written as an escape. *)
Fixpoint quote_chars (s : jsstring) : jsstring :=
  match s with
  | [] => []
  | c :: r =>
      if is_lead c then
        match r with
        | d :: r' =>
            if is_trail d then c :: d :: quote_chars r'
            else unicode_escape c ++ quote_chars r
        | [] => unicode_escape c
        end
      else if is_trail c then unicode_escape c ++ quote_chars r
      else escape_char c ++ quote_chars r
  end.

Definition quote (s : jsstring) : jsstring := 34 :: quote_chars s ++ [34].

Fixpoint join (l : list jsstring) : jsstring :=
  match l with
  | [] => []
  | [x] => x
  | x :: r => x ++ 44 :: join r
  end.

(** [SerializeJSONProperty]; [None] is [undefined].  An [undefined]
    element of an array is written [null], an [undefined] property of an
    object is left out. *)
Fixpoint serialize (v : value) : option jsstring :=
  match v with
  | VUndefined => None
  | VNull => Some (str "null")
  | VBool b => Some (if b then str "true" else str "false")
  | VNumber m k => Some (number_to_string m k)
  | VString s => Some (quote s)
  | VArray l =>
      Some (91 :: join (List.map (fun x =>
              match serialize x with Some t => t | None => str "null" end) l)
            ++ [93])
  | VObject ps =>
      Some (123 :: join (List.flat_map (fun kv =>
              match serialize (snd kv) with
              | Some t => [quote (fst kv) ++ 58 :: t]
              | None => []
              end) ps)
            ++ [125])
  end.

(** [JSON.stringify(value)]. *)
Definition stringify (v : value) : option jsstring := serialize v.

End JSON.

(* ===================================================================== *)
(** ** The browser state and the effects of the program *)
(* ===================================================================== *)

Inductive Method := GET | POST | PUT | DELETE.

Record Request := {
  url : string;
  method : Method;
  json_content_type : bool;     (* headers: { "Content-Type": "application/json" } *)
  body : option jsstring;
}.

Record Response := {
  ok : bool;                    (* response.ok *)
  text : jsstring;              (* the body that response.json() parses *)
}.

(** A line of the operation log: the text, or the [message] of a caught
    platform exception (its wording is the engine's), and the styling. *)
Inductive message :=
| Text (s : string)
| EngineMessage (e : exn).

Definition message_of (error : exn) : message :=
  match error with
  | Error m => Text m
  | e => EngineMessage e
  end.

Record LogEntry := {
  operation : message;
  isSuccess : bool;
}.

(** A note element of the page: the form [addNoteToUI] builds.  [handle]
    is its identity, [bound_id] the [note.id] bound into its listeners and
    [content] the [note.note] assigned to its textarea. *)
Record Element := {
  handle : nat;
  bound_id : value;
  content : value;
}.

(** The state the program runs in.  The page is taken to contain the
    elements [notes-container] and [logs-container].  [network] is the
    remote service with the network in front of it: the answer to a
    request in a state of the service ([None]: the fetch is rejected), and
    the next state of the service. *)
Record World {Server : Type} := {
  localStorage : gmap string jsstring;
  onLine : bool;                         (* navigator.onLine *)
  notes_container : list Element;        (* children of #notes-container *)
  elements_created : nat;
  logs_container : list LogEntry;        (* children of #logs-container *)
  server : Server;
  network : Request -> Server -> option Response * Server;
  requests : list Request;               (* the requests issued so far *)
}.
Arguments World : clear implicits.

Inductive outcome (A : Type) :=
| Returns (a : A)
| Throws (e : exn).
Arguments Returns {A} a.
Arguments Throws {A} e.

Section Effects.
Context {Server : Type}.

Definition M (A : Type) : Type := World Server -> outcome A * World Server.

Definition ret {A} (a : A) : M A := fun w => (Returns a, w).

Definition throw {A} (e : exn) : M A := fun w => (Throws e, w).

Definition bind {A B} (m : M A) (f : A -> M B) : M B :=
  fun w =>
    match m w with
    | (Returns a, w') => f a w'
    | (Throws e, w') => (Throws e, w')
    end.

(** [try { m } catch (error) { h error }]. *)
Definition try_catch {A} (m : M A) (h : exn -> M A) : M A :=
  fun w =>
    match m w with
    | (Returns a, w') => (Returns a, w')
    | (Throws e, w') => h e w'
    end.

(** A partial platform operation: [None] is a TypeError. *)
Definition or_TypeError {A} (o : option A) : M A :=
  match o with
  | Some a => ret a
  | None => throw TypeError
  end.

Definition set_localStorage (ls : gmap string jsstring) (w : World Server) : World Server :=
  {| localStorage := ls; onLine := onLine w;
     notes_container := notes_container w;
     elements_created := elements_created w;
     logs_container := logs_container w;
     server := server w; network := network w; requests := requests w |}.

Definition set_notes_container (c : list Element) (w : World Server) : World Server :=
  {| localStorage := localStorage w; onLine := onLine w;
     notes_container := c;
     elements_created := elements_created w;
     logs_container := logs_container w;
     server := server w; network := network w; requests := requests w |}.

Definition set_elements_created (n : nat) (w : World Server) : World Server :=
  {| localStorage := localStorage w; onLine := onLine w;
     notes_container := notes_container w;
     elements_created := n;
     logs_container := logs_container w;
     server := server w; network := network w; requests := requests w |}.

Definition set_logs_container (l : list LogEntry) (w : World Server) : World Server :=
  {| localStorage := localStorage w; onLine := onLine w;
     notes_container := notes_container w;
     elements_created := elements_created w;
     logs_container := l;
     server := server w; network := network w; requests := requests w |}.

Definition set_remote (s : Server) (rs : list Request) (w : World Server) : World Server :=
  {| localStorage := localStorage w; onLine := onLine w;
     notes_container := notes_container w;
     elements_created := elements_created w;
     logs_container := logs_container w;
     server := s; network := network w; requests := rs |}.

(** [localStorage.getItem(key)]: [None] is [null]. *)
Definition getItem (key : string) : M (option jsstring) :=
  fun w => (Returns (localStorage w !! key), w).

(** [localStorage.setItem(key, text)] (the quota is not modelled). *)
Definition setItem (key : string) (t : jsstring) : M unit :=
  fun w => (Returns tt, set_localStorage (<[key := t]> (localStorage w)) w).

(** [JSON.parse(text)]. *)
Definition JSON_parse (t : jsstring) : M value :=
  match JSON.parse t with
  | Some v => ret v
  | None => throw SyntaxError
  end.

(** [fetch(request)]: the request reaches the service, which answers or
    not; a rejected fetch throws a TypeError. *)
Definition fetch (req : Request) : M Response :=
  fun w =>
    let (answer, s') := network w req (server w) in
    let w' := set_remote s' (requests w ++ [req]) w in
    match answer with
    | Some response => (Returns response, w')
    | None => (Throws TypeError, w')
    end.

(** [response.json()]. *)
Definition json (response : Response) : M value := JSON_parse (text response).

(** [document.createElement]: a new node, not yet in the page. *)
Definition createElement : M nat :=
  fun w => (Returns (elements_created w),
            set_elements_created (S (elements_created w)) w).

(** [notesContainer.appendChild(element)]. *)
Definition appendChild (e : Element) : M unit :=
  fun w => (Returns tt, set_notes_container (notes_container w ++ [e]) w).

(** [notesContainer.removeChild(element)]: NotFoundError when the node
    is not a child of the container. *)
Definition removeChild (h : nat) : M unit :=
  fun w =>
    if existsb (fun e => Nat.eqb (handle e) h) (notes_container w)
    then (Returns tt,
          set_notes_container
            (List.filter (fun e => negb (Nat.eqb (handle e) h)) (notes_container w)) w)
    else (Throws NotFoundError, w).

(** *** Array methods.  Called on anything but an array they are
    [undefined], and calling [undefined] is a TypeError. *)

Fixpoint mapM {A B} (f : A -> M B) (l : list A) : M (list B) :=
  match l with
  | [] => ret []
  | x :: r => bind (f x) (fun y => bind (mapM f r) (fun ys => ret (y :: ys)))
  end.

Definition array_push (a x : value) : M value :=
  match a with
  | VArray l => ret (VArray (l ++ [x]))
  | _ => throw TypeError
  end.

Definition array_map (f : value -> M value) (a : value) : M value :=
  match a with
  | VArray l => bind (mapM f l) (fun l' => ret (VArray l'))
  | _ => throw TypeError
  end.

Definition array_filter (f : value -> M bool) (a : value) : M value :=
  match a with
  | VArray l =>
      bind (mapM (fun x => bind (f x) (fun keep => ret (x, keep))) l)
           (fun marked => ret (VArray (List.map fst (List.filter snd marked))))
  | _ => throw TypeError
  end.

Definition array_forEach (f : value -> M unit) (a : value) : M unit :=
  match a with
  | VArray l => bind (mapM f l) (fun _ => ret tt)
  | _ => throw TypeError
  end.

End Effects.

Declare Scope js_scope.
Delimit Scope js_scope with js.
Notation "'let*' x := m 'in' k" := (bind m (fun x => k))
  (at level 10, x name, m at level 200, k at level 200) : js_scope.
Notation "'do' m ; k" := (bind m (fun _ => k))
  (at level 10, m at level 99, k at level 200) : js_scope.
Open Scope js_scope.

(* ===================================================================== *)
(** ** The Remote Client: class NoteKeeper *)
(* ===================================================================== *)

Module NoteKeeper.
Section NoteKeeper.
Context {Server : Type}.
Local Abbreviation M := (@M Server).

Definition BASE_URL : string := "https://notekeeper.memento-dev.fr".

Definition request (m : Method) (payload : value) : Request :=
  {| url := BASE_URL; method := m; json_content_type := true;
     body := JSON.stringify payload |}.

Definition getAll : M value :=
  let* response := fetch {| url := BASE_URL; method := GET;
                            json_content_type := false; body := None |} in
  let* data := json response in
  or_TypeError (get_prop data (str "notes")).

Definition create (note : value) : M value :=
  let* response := fetch (request POST (VObject [(str "note", note)])) in
  let* data := json response in
  or_TypeError (get_prop data (str "note")).

Definition delete (ids : list value) : M bool :=
  let* response := fetch (request DELETE (VObject [(str "ids", VArray ids)])) in
  ret (ok response).

Definition update (notes : list value) : M bool :=
  let* response := fetch (request PUT (VObject [(str "notes", VArray notes)])) in
  ret (ok response).

End NoteKeeper.
End NoteKeeper.

(* ===================================================================== *)
(** ** The application: const app *)
(* ===================================================================== *)

Module app.
Section app.
Context {Server : Type}.
Local Abbreviation M := (@M Server).

Definition isOnline : M bool := fun w => (Returns (onLine w), w).

(** [JSON.parse(localStorage.getItem(key)) || []]; a missing item is
    [null], which [JSON.parse] reads as the text null. *)
Definition getFromLocalStorage (key : string) : M value :=
  let* item := getItem key in
  let* parsed := JSON_parse (match item with Some t => t | None => str "null" end) in
  ret (if truthy parsed then parsed else VArray []).

(** [localStorage.setItem(key, JSON.stringify(value))]; [setItem] turns
    an [undefined] text into the string undefined. *)
Definition setInLocalStorage (key : string) (v : value) : M unit :=
  setItem key (match JSON.stringify v with
               | Some t => t
               | None => str "undefined"
               end).

(** The date of the entry is left out. *)
Definition logOperation (op : message) (success : bool) : M unit :=
  fun w => (Returns tt,
            set_logs_container
              (logs_container w ++ [{| operation := op; isSuccess := success |}]) w).

(** Of the four elements it creates only the form is a node of the
    model; the textarea and the buttons are its parts. *)
Definition addNoteToUI (note : value) : M unit :=
  let* noteElement := createElement in
  let* noteContent := or_TypeError (get_prop note (str "note")) in
  let* id := or_TypeError (get_prop note (str "id")) in
  appendChild {| handle := noteElement; bound_id := id; content := noteContent |}.

Definition handleCreateNote (noteContent : jsstring) : M bool :=
  try_catch
    (let* savedNotes := getFromLocalStorage "savedNotes" in
     let* online := isOnline in
     let* newNote :=
       if negb online
       then throw (Error "Impossible de créer la note")
       else
         let* newNote := NoteKeeper.create (VString noteContent) in
         if negb (truthy newNote)
         then throw (Error "Erreur lors de la création de la note.")
         else ret newNote in
     let* savedNotes := array_push savedNotes newNote in
     do setInLocalStorage "savedNotes" savedNotes ;
     do addNoteToUI newNote ;
     do logOperation (Text "Création d'une note") true ;
     ret true)
    (fun error =>
       do logOperation (message_of error) false ;
       ret false).

Definition handleUpdateNote (note : value) : M unit :=
  try_catch
    (let* savedNotes := getFromLocalStorage "savedNotes" in
     let* online := isOnline in
     let* notes :=
       if negb online
       then throw (Error "Impossible de mettre à jour la note hors ligne.")
       else
         let* confirmed := NoteKeeper.update [note] in
         if negb confirmed
         then throw (Error "Erreur lors de la mise à jour de la note.")
         else
           array_map
             (fun savedNote =>
                let* saved_id := or_TypeError (get_prop savedNote (str "id")) in
                let* note_id := or_TypeError (get_prop note (str "id")) in
                ret (if strict_equal saved_id note_id then note else savedNote))
             savedNotes in
     do setInLocalStorage "savedNotes" notes ;
     logOperation (Text "Mise à jour d'une note") true)
    (fun error => logOperation (message_of error) false).

Definition handleDeleteNote (noteId : value) (noteElement : option nat) : M unit :=
  try_catch
    (let* savedNotes := getFromLocalStorage "savedNotes" in
     let* online := isOnline in
     do (if negb online
         then throw (Error "Impossible de supprimer la note hors ligne.")
         else ret tt) ;
     let* notes :=
       array_filter
         (fun n =>
            let* n_id := or_TypeError (get_prop n (str "id")) in
            ret (negb (strict_equal n_id noteId)))
         savedNotes in
     do setInLocalStorage "savedNotes" notes ;
     do (match noteElement with
         | Some element => removeChild element
         | None => ret tt
         end) ;
     logOperation (Text "Suppression d'une note") true)
    (fun error => logOperation (message_of error) false).

(** [None] stands for the [return] inside the [catch]. *)
Definition loadNotes : M unit :=
  let* savedNotes := getFromLocalStorage "savedNotes" in
  let* online := isOnline in
  let* fetched :=
    if online
    then
      try_catch
        (let* notes := NoteKeeper.getAll in
         do setInLocalStorage "savedNotes" notes ;
         ret (Some notes))
        (fun error =>
           do logOperation (Text "Erreur lors du chargement des notes") false ;
           ret None)
    else ret (Some (VArray [])) in
  match fetched with
  | None => ret tt
  | Some notes =>
      let* len := or_TypeError (get_prop notes (str "length")) in
      do array_forEach addNoteToUI (if truthy len then notes else savedNotes) ;
      logOperation (Text "Chargement des notes") true
  end.

End app.
End app.

(* ===================================================================== *)
(** ** Notes and the Local Store snapshot *)
(* ===================================================================== *)

(** [{ id: integer, note: string }]. *)
Record Note := {
  id : Z;
  note : jsstring;
}.

Definition note_value (n : Note) : value :=
  VObject [(str "id", VNumber (id n) 0); (str "note", VString (note n))].

Definition notes_value (l : list Note) : value :=
  VArray (List.map note_value l).

(** The Local Store snapshot of a world is the sequence [l]: reading the
    key savedNotes gives the array of these notes. *)
Definition snapshot_is {Server} (w : World Server) (l : list Note) : Prop :=
  app.getFromLocalStorage "savedNotes" w = (Returns (notes_value l), w).

(** The element [addNoteToUI] appends for the note [n]. *)
Definition note_element (h : nat) (n : Note) : Element :=
  {| handle := h; bound_id := VNumber (id n) 0; content := VString (note n) |}.

(** The notes shown in the page, in the order of the elements. *)
Definition rendered {Server} (w : World Server) : list (value * value) :=
  List.map (fun e => (bound_id e, content e)) (notes_container w).

Definition shown (n : Note) : value * value :=
  (VNumber (id n) 0, VString (note n)).

(** The text [JSON.stringify] writes for a note and for a sequence of
    notes. *)
Definition note_text (n : Note) : jsstring :=
  str "{" ++ JSON.quote (str "id") ++ str ":" ++ JSON.number_to_string (id n) 0
  ++ str "," ++ JSON.quote (str "note") ++ str ":" ++ JSON.quote (note n) ++ str "}".

Definition notes_text (l : list Note) : jsstring :=
  str "[" ++ JSON.join (List.map note_text l) ++ str "]".

(** The PUT request [NoteKeeper.update(note)] sends. *)
Definition update_request (n : value) : Request :=
  NoteKeeper.request PUT (VObject [(str "notes", VArray [n])]).

(* ===================================================================== *)
(** ** The service worker *)
(* ===================================================================== *)

Module ServiceWorker.

(** A cache region maps a request URL to the stored response; the cache
    storage maps a region name to the region. *)
Abbreviation Cache := (gmap string Response).
Abbreviation CacheStorage := (gmap string (gmap string Response)).

Definition CACHE_NAME : string := "note-cache-j2".

Definition urlsToCache : list string :=
  [ "/";
    "/index.html";
    "/assets/css/styles.css";
    "/assets/js/app.js";
    "/assets/js/api.js";
    "/assets/icons/icon-192x192.png";
    "/assets/icons/icon-512x512.png";
    "/assets/icons/favicon.png";
    "/manifest.json" ].

(** The outcome of a platform promise. *)
Inductive settled :=
| Fulfilled
| Rejected.

Section Platform.
(** The network as the worker sees it: the response to a GET of a URL,
    or [None] when the fetch fails. *)
Variable net : string -> option Response.

(** [caches.open(name)]: the region is created empty when it does not
    exist. *)
Definition caches_open (name : string) (caches : CacheStorage) : CacheStorage :=
  match caches !! name with
  | Some _ => caches
  | None => <[name := ∅]> caches
  end.

(** One request of [addAll]: the response must arrive and be [ok]. *)
Definition fetch_entry (u : string) : option (string * Response) :=
  match net u with
  | Some r => if ok r then Some (u, r) else None
  | None => None
  end.

Fixpoint fetch_entries (urls : list string) : option (list (string * Response)) :=
  match urls with
  | [] => Some []
  | u :: rest =>
      match fetch_entry u, fetch_entries rest with
      | Some e, Some es => Some (e :: es)
      | _, _ => None
      end
  end.

Definition put_entries (entries : list (string * Response)) (c : Cache) : Cache :=
  foldl (fun c e => <[fst e := snd e]> c) c entries.

(** [cache.addAll(urls)] on the region [name], as the Cache interface
    defines it: all the responses are fetched first; when one fetch
    fails or is not [ok] the promise rejects and nothing is written;
    a list that names a URL twice is rejected as well; otherwise all
    the entries are written in one batch. *)
Definition cache_addAll (name : string) (urls : list string) (caches : CacheStorage)
  : settled * CacheStorage :=
  match fetch_entries urls with
  | None => (Rejected, caches)
  | Some entries =>
      if bool_decide (NoDup urls)
      then (Fulfilled, alter (put_entries entries) name caches)
      else (Rejected, caches)
  end.

(** The install listener, for a cache name and a list of URLs:
    [caches.open(name).then((cache) => cache.addAll(urls))].  The
    result is the promise given to [event.waitUntil]: the installation
    fails when it is rejected. *)
Definition install_listener (name : string) (urls : list string)
                            (caches : CacheStorage) : settled * CacheStorage :=
  cache_addAll name urls (caches_open name caches).

Definition install : CacheStorage -> settled * CacheStorage :=
  install_listener CACHE_NAME urlsToCache.

End Platform.

(** [caches.keys()]. *)
Definition caches_keys (caches : CacheStorage) : list string :=
  List.map fst (map_to_list caches).

(** The activate listener for a current cache name: every name that
    differs from it is deleted. *)
Definition activate_listener (current : string) (caches : CacheStorage) : CacheStorage :=
  foldl (fun c cacheName =>
           if bool_decide (cacheName ≠ current) then delete cacheName c else c)
        caches (caches_keys caches).

Definition activate : CacheStorage -> CacheStorage :=
  activate_listener CACHE_NAME.

End ServiceWorker.

(* ===================================================================== *)
(** ** Notions used in the statements *)
(* ===================================================================== *)

(** What [getFromLocalStorage] reads from a storage: [None] when the
    stored text is not JSON. *)
Definition stored_value (ls : gmap string jsstring) (key : string) : option value :=
  match JSON.parse (match ls !! key with Some t => t | None => str "null" end) with
  | Some v => Some (if truthy v then v else VArray [])
  | None => None
  end.

(** The sequence after the notes with the id of [n] have been replaced by
    [n], and after the notes with the id [i] have been removed. *)
Definition replace_note (n : Note) (l : list Note) : list Note :=
  List.map (fun saved => if (id saved =? id n)%Z then n else saved) l.

Definition remove_note (i : Z) (l : list Note) : list Note :=
  List.filter (fun saved => negb (id saved =? i)%Z) l.

Section Notions.
Context {Server : Type}.

(** The remote update of [note] is not confirmed: the application is
    offline, the request throws, or the answer is not [ok]. *)
Definition update_unconfirmed (w : World Server) (note : value) : Prop :=
  onLine w = false \/
  fst (network w (update_request note) (server w)) = None \/
  exists response,
    fst (network w (update_request note) (server w)) = Some response /\
    ok response = false.

(** The page after [addNoteToUI] has run on each note of [l] in turn. *)
Fixpoint append_notes (l : list Note) (w : World Server) : World Server :=
  match l with
  | [] => w
  | n :: rest =>
      append_notes rest
        (set_notes_container
           (notes_container w ++ [note_element (elements_created w) n])
           (set_elements_created (S (elements_created w)) w))
  end.
End Notions.

(** Every request that the computation [m] sends satisfies [P]. *)
Definition sends_only {Server A} (P : Request -> Prop) (m : @M Server A) : Prop :=
  forall w, exists new,
    requests (snd (m w)) = requests w ++ new /\ Forall P new.

(** What may follow the digits of a number: not a digit; and what may
    follow an integer literal: nothing that continues the number. *)
Definition no_digit_ahead (rest : jsstring) : Prop :=
  match rest with
  | [] => True
  | c :: _ => JSON.is_digit c = false
  end.

Definition ends_number (rest : jsstring) : Prop :=
  match rest with
  | [] => True
  | c :: _ => JSON.is_digit c = false /\ c <> 46%N /\ c <> 101%N /\ c <> 69%N
  end.

(** Reading one more character [c] of a string literal in front of what
    [t] gives. *)
Definition and_then (c : N) (t : jsstring) : option (jsstring * jsstring) :=
  match JSON.parse_chars t with
  | Some (u, rest) => Some (c :: u, rest)
  | None => None
  end.

(* ===================================================================== *)
(** ** Example worlds *)
(* ===================================================================== *)

(** A remote service that gives the answers of a script, one for each
    request, and rejects every request once the script is over. *)
Definition scripted (req : Request) (script : list (option Response))
  : option Response * list (option Response) :=
  match script with
  | [] => (None, [])
  | answer :: rest => (answer, rest)
  end.

(** A browser with an empty page, the text [saved] under the key
    savedNotes and a scripted service. *)
Definition browser (online : bool) (saved : option jsstring)
                   (script : list (option Response))
  : World (list (option Response)) :=
  {| localStorage := match saved with
                     | Some t => <["savedNotes" := t]> ∅
                     | None => ∅
                     end;
     onLine := online;
     notes_container := [];
     elements_created := 0;
     logs_container := [];
     server := script;
     network := scripted;
     requests := [] |}.

(** The answer [{ notes: l }] of the service to [GET /]. *)
Definition notes_response (l : list Note) : Response :=
  {| ok := true;
     text := str "{" ++ JSON.quote (str "notes") ++ str ":" ++ notes_text l ++ str "}" |}.

Definition note_a : Note := {| id := 1; note := str "a" |}.
Definition note_b : Note := {| id := 2; note := str "b" |}.
Definition note_c : Note := {| id := 3; note := str "c" |}.

(** A network for the service worker on which only [failing] fails. *)
Definition all_but (failing : string) (u : string) : option Response :=
  if String.eqb u failing then None else Some {| ok := true; text := str "ok" |}.

(* ===================================================================== *)
(** ** The form listeners of the application *)
(* ===================================================================== *)

(** [String.prototype.trim] removes the WhiteSpace and LineTerminator
    code points at both ends. *)
Definition is_js_space (c : N) : bool :=
  ((9 <=? c) && (c <=? 13))%N
  || (c =? 32)%N || (c =? 160)%N || (c =? 5760)%N
  || ((8192 <=? c) && (c <=? 8202))%N
  || (c =? 8232)%N || (c =? 8233)%N || (c =? 8239)%N || (c =? 8287)%N
  || (c =? 12288)%N || (c =? 65279)%N.

Fixpoint trim_start (s : jsstring) : jsstring :=
  match s with
  | c :: r => if is_js_space c then trim_start r else s
  | [] => []
  end.

Definition trim (s : jsstring) : jsstring :=
  rev (trim_start (rev (trim_start s))).

Section Listeners.
Context {Server : Type}.
Local Abbreviation M := (@M Server).

(** [app.createNoteHandler], the submit listener of the creation form.
    [field] is the value of the element [note-creator-content] when the
    form is submitted, the result is its value afterwards. *)
Definition createNoteHandler (field : jsstring) : M jsstring :=
  let noteContent := trim field in
  match noteContent with
  | [] => ret field
  | _ =>
      let* created := app.handleCreateNote noteContent in
      ret (if created then [] else field)
  end.

(** The submit listener that [addNoteToUI] gives to the form of a note:
    [field] is the value of its textarea when the form is submitted. *)
Definition note_submit (element : Element) (field : jsstring) : M unit :=
  let updatedNoteContent := trim field in
  match updatedNoteContent with
  | [] => ret tt
  | _ =>
      app.handleUpdateNote
        (VObject [(str "id", bound_id element);
                  (str "note", VString updatedNoteContent)])
  end.

(** The click listener of its delete button:
    [app.handleDeleteNote.bind(null, note.id, noteElement)]. *)
Definition note_delete_click (element : Element) : M unit :=
  app.handleDeleteNote (bound_id element) (Some (handle element)).

(** [app.init], the listener of DOMContentLoaded.  [registerServiceWorker]
    and [attachDOMEvents] only install handlers, which changes nothing in
    the state of the model.  The promise of [loadNotes] is dropped: an
    exception of it is an unhandled rejection and [init] returns all the
    same. *)
Definition init : M unit :=
  do app.logOperation (Text "Initialisation de l'application.") true ;
  fun w => (Returns tt, snd (app.loadNotes w)).

End Listeners.

(* ===================================================================== *)
(** ** The values that are written and read back *)
(* ===================================================================== *)

(** A value of the model that [JSON.parse] of the model reads back from
    the text that [JSON.stringify] of the model writes for it: no
    [undefined] in it, every number in normal form and no object with a
    key twice.  It only serves to reason on the texts that the program
    writes. *)
Fixpoint well_formed (v : value) : Prop :=
  match v with
  | VUndefined => False
  | VNull | VBool _ | VString _ => True
  | VNumber m k => JSON.normalise m k = (m, k)
  | VArray l =>
      (fix all (l : list value) : Prop :=
         match l with
         | [] => True
         | x :: r => well_formed x /\ all r
         end) l
  | VObject ps =>
      NoDup (List.map fst ps) /\
      (fix all (ps : list (jsstring * value)) : Prop :=
         match ps with
         | [] => True
         | kv :: r => well_formed (snd kv) /\ all r
         end) ps
  end.

(** A key that is written with digits only.  The engine enumerates the
    integer-like keys of an object first, which the model does not do. *)
Definition index_like (k : jsstring) : bool :=
  match k with
  | [] => false
  | _ => forallb JSON.is_digit k
  end.

(** A value on which the model of JSON and the engine agree: no
    [undefined] in it; every number a safe integer, of magnitude at most
    [2^53 - 1], which binary64 holds exactly and which is written with
    its digits only; no object with a key twice or with a key written
    with digits only.  For such a value the text of the model is the text
    that [JSON.stringify] of the engine writes, and both parsers read the
    value back from it. *)
Fixpoint storable (v : value) : Prop :=
  match v with
  | VUndefined => False
  | VNull | VBool _ | VString _ => True
  | VNumber m k => k = 0%nat /\ (Z.abs m <= 2 ^ 53 - 1)%Z
  | VArray l =>
      (fix all (l : list value) : Prop :=
         match l with
         | [] => True
         | x :: r => storable x /\ all r
         end) l
  | VObject ps =>
      NoDup (List.map fst ps) /\
      (fix all (ps : list (jsstring * value)) : Prop :=
         match ps with
         | [] => True
         | kv :: r => (index_like (fst kv) = false /\ storable (snd kv)) /\ all r
         end) ps
  end.

(** The text [t] is read back as the value [v], whatever follows it that
    does not continue a number. *)
Definition reads_back (v : value) (t : jsstring) : Prop :=
  forall rest, ends_number rest ->
    exists fuel, JSON.parse_value fuel (t ++ rest) = Some (v, rest).

(** The text [JSON.stringify] writes for a value inside an array or an
    object, and for a property of an object. *)
Definition text_of (v : value) : jsstring :=
  match JSON.serialize v with
  | Some t => t
  | None => str "null"
  end.

Definition member_text (kv : jsstring * value) : jsstring :=
  JSON.quote (fst kv) ++ 58%N :: text_of (snd kv).

(** [caches.match(request)]: the response stored for the URL by the first
    region that has one.  The browser goes through the regions in the
    order of their creation and the model in the order of [caches_keys];
    the two agree when at most one region holds the URL. *)
Definition caches_match (u : string) (caches : gmap string (gmap string Response))
  : option Response :=
  head (omap (fun name => caches !! name ≫= (.!! u)) (ServiceWorker.caches_keys caches)).

(** The fetch listener: the cached response when there is one, otherwise
    the answer of the network; when the fetch fails the [catch] logs the
    error and the page gets no response ([None]). *)
Definition fetch_listener (net : string -> option Response) (u : string)
                          (caches : gmap string (gmap string Response))
  : option Response :=
  match caches_match u caches with
  | Some response => Some response
  | None => net u
  end.

(** The computation [m] leaves the part [f] of the world as it is. *)
Definition preserves {Server A B} (f : World Server -> B) (m : @M Server A) : Prop :=
  forall w, f (snd (m w)) = f w.

(** The computation [m] adds the success entry [op] to the log when it
    returns, then with the value [a], and leaves the log as it is when it
    throws. *)
Definition logs_on_return {Server A} (op : message) (a : A) (m : @M Server A) : Prop :=
  forall w,
    match m w with
    | (Returns x, w') =>
        x = a /\
        logs_container w' =
          logs_container w ++ [{| operation := op; isSuccess := true |}]
    | (Throws _, w') => logs_container w' = logs_container w
    end.

(** The world [w] with one failure entry more in the log: what the
    [catch] of a handler leaves when nothing else has been done. *)
Definition failed {Server} (msg : message) (w : World Server) : World Server :=
  set_logs_container
    (logs_container w ++ [{| operation := msg; isSuccess := false |}]) w.

(** The POST request [NoteKeeper.create(content)] sends. *)
Definition create_request (content : jsstring) : Request :=
  NoteKeeper.request POST (VObject [(str "note", VString content)]).

(** The answer [{ note: n }] of the service to a creation. *)
Definition note_response (n : Note) : Response :=
  {| ok := true;
     text := str "{" ++ JSON.quote (str "note") ++ str ":" ++ note_text n ++ str "}" |}.

(* ===================================================================== *)
(** * Properties *)
(* ===================================================================== *)

(** ** JSON: a sequence of notes is read back as it was written *)

Ltac Zify.zify_post_hook ::= Z.to_euclidean_division_equations.

Section JSON_numbers.
Import JSON.
Open Scope N_scope.

Lemma is_digit_spec c : is_digit c = true <-> 48 <= c <= 57.
Proof. unfold is_digit. rewrite andb_true_iff, !N.leb_le. tauto. Qed.

Lemma take_digits_app ds rest :
  Forall (fun c => is_digit c = true) ds ->
  no_digit_ahead rest ->
  take_digits (ds ++ rest) = (ds, rest).
Proof.
  intros Hds Hrest. induction Hds as [|c ds Hc _ IH]; cbn [app take_digits].
  - destruct rest as [|c r]; [reflexivity|].
    cbn [take_digits]. simpl in Hrest. now rewrite Hrest.
  - now rewrite Hc, IH.
Qed.

Lemma digits_value_snoc ds d :
  digits_value (ds ++ [d]) = 10 * digits_value ds + (d - 48).
Proof. unfold digits_value. now rewrite fold_left_app. Qed.

Lemma digits_of_digits fuel : forall n,
  Forall (fun c => is_digit c = true) (digits_of fuel n).
Proof.
  induction fuel as [|f IH]; intros n; cbn [digits_of]; [constructor|].
  destruct (N.ltb_spec n 10).
  - repeat constructor. apply is_digit_spec. lia.
  - apply Forall_app; split; [apply IH|].
    repeat constructor. apply is_digit_spec.
    lia.
Qed.

Lemma digits_of_value fuel : forall n,
  n < 2 ^ N.of_nat fuel -> digits_value (digits_of fuel n) = n.
Proof.
  induction fuel as [|f IH]; intros n Hn.
  - simpl in Hn. assert (n = 0) by lia. now subst.
  - cbn [digits_of]. destruct (N.ltb_spec n 10).
    + unfold digits_value. cbn [fold_left]. lia.
    + rewrite digits_value_snoc, IH.
      * lia.
      * rewrite Nat2N.inj_succ, N.pow_succ_r' in Hn.
        apply N.Div0.div_lt_upper_bound. lia.
Qed.

Lemma digits_of_head fuel : forall n,
  0 < n < 2 ^ N.of_nat fuel ->
  exists c r, digits_of fuel n = c :: r /\ c <> 48.
Proof.
  induction fuel as [|f IH]; intros n Hn.
  - simpl in Hn. lia.
  - cbn [digits_of]. destruct (N.ltb_spec n 10).
    + exists (48 + n), []. split; [reflexivity | lia].
    + destruct (IH (n / 10)) as (c & r & -> & Hc).
      * rewrite Nat2N.inj_succ, N.pow_succ_r' in Hn. split.
        -- apply N.div_str_pos. lia.
        -- apply N.Div0.div_lt_upper_bound. lia.
      * exists c, (r ++ [48 + n mod 10]). now split.
Qed.

Lemma N_to_string_fuel n : n < 2 ^ N.of_nat (S (N.to_nat (N.size n))).
Proof.
  rewrite Nat2N.inj_succ, N2Nat.id, N.pow_succ_r'.
  pose proof (N.size_gt n). lia.
Qed.

Lemma parse_int_N_to_string n rest :
  no_digit_ahead rest ->
  parse_int (N_to_string n ++ rest) = Some (n, rest).
Proof.
  intros Hrest. unfold N_to_string.
  pose proof (N_to_string_fuel n) as Hfuel.
  pose proof (digits_of_digits (S (N.to_nat (N.size n))) n) as Hds.
  pose proof (digits_of_value _ _ Hfuel) as Hval.
  destruct (N.eq_dec n 0) as [->|Hn].
  - reflexivity.
  - destruct (digits_of_head (S (N.to_nat (N.size n))) n) as (c & r & Heq & Hc);
      [lia|].
    rewrite Heq in *. simpl app. unfold parse_int.
    apply N.eqb_neq in Hc. rewrite Hc.
    pose proof (Forall_inv Hds) as Hd. cbn beta in Hd. rewrite Hd.
    change (c :: r ++ rest) with ((c :: r) ++ rest).
    rewrite take_digits_app by assumption. now rewrite Hval.
Qed.
End JSON_numbers.

Section JSON_integers.
Import JSON.
Open Scope N_scope.

Lemma ends_number_no_digit rest : ends_number rest -> no_digit_ahead rest.
Proof. destruct rest; simpl; tauto. Qed.

Lemma parse_frac_none rest : ends_number rest -> parse_frac rest = Some ([], rest).
Proof.
  destruct rest as [|c r]; [reflexivity|]. intros (_ & H & _).
  unfold parse_frac, next_is. apply N.eqb_neq in H. now rewrite H.
Qed.

Lemma parse_exp_none rest : ends_number rest -> parse_exp rest = Some (0%Z, rest).
Proof.
  destruct rest as [|c r]; [reflexivity|]. intros (_ & _ & H1 & H2).
  unfold parse_exp. apply N.eqb_neq in H1, H2. now rewrite H1, H2.
Qed.

Lemma N_to_string_head n :
  exists c r, N_to_string n = c :: r /\ is_digit c = true.
Proof.
  unfold N_to_string.
  pose proof (digits_of_digits (S (N.to_nat (N.size n))) n) as Hds.
  destruct (digits_of (S (N.to_nat (N.size n))) n) as [|c r] eqn:E.
  - cbn [digits_of] in E. destruct (n <? 10); [discriminate|].
    now destruct (digits_of _ _).
  - exists c, r. split; [reflexivity|]. exact (Forall_inv Hds).
Qed.

Lemma number_to_string_integer z :
  number_to_string z 0 =
  (if (z <? 0)%Z then [45] else []) ++ N_to_string (Z.abs_N z).
Proof. reflexivity. Qed.

Lemma parse_number_integer z rest :
  ends_number rest ->
  parse_number (number_to_string z 0 ++ rest) = Some (VNumber z 0, rest).
Proof.
  intros Hrest. rewrite number_to_string_integer.
  assert (Hv : forall neg : bool,
             (if neg then - Z.of_N (Z.abs_N z) else Z.of_N (Z.abs_N z))%Z = z ->
             match parse_int (N_to_string (Z.abs_N z) ++ rest) with
             | None => None
             | Some (i, s2) =>
                 match parse_frac s2 with
                 | None => None
                 | Some (fs, s3) =>
                     match parse_exp s3 with
                     | None => None
                     | Some (e, s4) =>
                         let m := Z.of_N (i * 10 ^ N.of_nat (length fs) + digits_value fs) in
                         Some (make_number (if neg then - m else m)%Z
                                           (Z.of_nat (length fs) - e)%Z, s4)
                     end
                 end
             end = Some (VNumber z 0, rest)).
  { intros neg Hz.
    rewrite parse_int_N_to_string by now apply ends_number_no_digit.
    rewrite parse_frac_none, parse_exp_none by assumption.
    cbn [length digits_value fold_left N.of_nat]. cbv zeta.
    rewrite N.pow_0_r, N.mul_1_r, N.add_0_r, Hz.
    unfold make_number. cbn. now rewrite Z.mul_1_r. }
  destruct (Z.ltb_spec z 0) as [Hneg|Hpos].
  - unfold parse_number. cbn [app next_is N.eqb Pos.eqb].
    apply (Hv true). lia.
  - assert (Hnext : next_is 45 (N_to_string (Z.abs_N z) ++ rest) = None).
    { destruct (N_to_string_head (Z.abs_N z)) as (c & r & -> & Hc).
      apply is_digit_spec in Hc. cbn [app next_is].
      destruct (N.eqb_spec c 45); [lia | reflexivity]. }
    unfold parse_number. cbn [app]. rewrite Hnext.
    apply (Hv false). lia.
Qed.

Lemma is_ws_spec c : is_ws c = true <-> c = 32 \/ c = 9 \/ c = 10 \/ c = 13.
Proof. unfold is_ws. rewrite !orb_true_iff, !N.eqb_eq. tauto. Qed.

Lemma skip_ws_head c r : is_ws c = false -> skip_ws (c :: r) = c :: r.
Proof. intros H. cbn [skip_ws]. now rewrite H. Qed.

Lemma number_to_string_head z :
  exists c r, number_to_string z 0 = c :: r /\ (c = 45 \/ 48 <= c <= 57).
Proof.
  rewrite number_to_string_integer.
  destruct (z <? 0)%Z.
  - eexists _, _. split; [reflexivity|]. now left.
  - destruct (N_to_string_head (Z.abs_N z)) as (c & r & -> & Hc).
    exists c, r. split; [reflexivity|]. right. now apply is_digit_spec.
Qed.

Lemma parse_value_integer fuel z rest :
  ends_number rest ->
  parse_value (S fuel) (number_to_string z 0 ++ rest) = Some (VNumber z 0, rest).
Proof.
  intros Hrest.
  pose proof (parse_number_integer z rest Hrest) as Hnum.
  destruct (number_to_string_head z) as (c & r & E & Hc).
  rewrite E in *. cbn [app] in *. cbn [parse_value].
  assert (Hws : is_ws c = false).
  { apply not_true_is_false. rewrite is_ws_spec. lia. }
  rewrite skip_ws_head by assumption.
  destruct (N.eqb_spec c 110); [lia|].
  destruct (N.eqb_spec c 116); [lia|].
  destruct (N.eqb_spec c 102); [lia|].
  destruct (N.eqb_spec c 34); [lia|].
  destruct (N.eqb_spec c 91); [lia|].
  destruct (N.eqb_spec c 123); [lia|].
  exact Hnum.
Qed.
End JSON_integers.

Ltac decide_tests :=
  repeat match goal with
    | |- context [N.eqb ?a ?b] => destruct (N.eqb_spec a b); try lia
    | |- context [N.leb ?a ?b] => destruct (N.leb_spec a b); try lia
    | |- context [N.ltb ?a ?b] => destruct (N.ltb_spec a b); try lia
    end;
  cbn [andb orb negb].

Section JSON_strings.
Import JSON.
Open Scope N_scope.

Lemma hex_value_digit x : x < 16 -> hex_value (hex_digit x) = Some x.
Proof.
  intros Hx. unfold hex_value, hex_digit, is_digit.
  decide_tests; f_equal; lia.
Qed.

Lemma hex4_unicode c :
  c < 65536 ->
  hex4 (hex_digit (c / 4096 mod 16)) (hex_digit (c / 256 mod 16))
       (hex_digit (c / 16 mod 16)) (hex_digit (c mod 16)) = Some c.
Proof.
  intros Hc. unfold hex4.
  rewrite !hex_value_digit by lia. f_equal. lia.
Qed.

Lemma parse_chars_unicode_escape c t :
  c < 65536 -> parse_chars (unicode_escape c ++ t) = and_then c t.
Proof.
  intros Hc. unfold unicode_escape. cbn [app parse_chars].
  change (92 =? 34) with false. change (92 =? 92) with true.
  change (117 =? 117) with true. cbv iota.
  now rewrite hex4_unicode.
Qed.

Lemma parse_chars_literal c t :
  32 <= c -> c <> 34 -> c <> 92 -> parse_chars (c :: t) = and_then c t.
Proof.
  intros. cbn [parse_chars]. now decide_tests.
Qed.

Lemma parse_chars_escape_char c t :
  c < 65536 \/ 32 <= c -> parse_chars (escape_char c ++ t) = and_then c t.
Proof.
  intros Hc. unfold escape_char.
  destruct (N.eqb_spec c 34) as [->|]; [reflexivity|].
  destruct (N.eqb_spec c 92) as [->|]; [reflexivity|].
  destruct (N.eqb_spec c 8) as [->|]; [reflexivity|].
  destruct (N.eqb_spec c 12) as [->|]; [reflexivity|].
  destruct (N.eqb_spec c 10) as [->|]; [reflexivity|].
  destruct (N.eqb_spec c 13) as [->|]; [reflexivity|].
  destruct (N.eqb_spec c 9) as [->|]; [reflexivity|].
  destruct (N.ltb_spec c 32).
  - apply parse_chars_unicode_escape. lia.
  - now apply parse_chars_literal.
Qed.

Lemma parse_chars_quote_chars s rest :
  parse_chars (quote_chars s ++ 34 :: rest) = Some (s, rest).
Proof.
  remember (length s) as n eqn:Hn.
  assert (Hle : (length s <= n)%nat) by lia. clear Hn.
  revert s Hle. induction n as [|n IH]; intros s Hle.
  - destruct s; [reflexivity | simpl in Hle; lia].
  - destruct s as [|c r]; [reflexivity|].
    cbn [length] in Hle. cbn [quote_chars].
    destruct (is_lead c) eqn:Hlead.
    + unfold is_lead in Hlead. apply andb_true_iff in Hlead as [H1 H2].
      apply N.leb_le in H1, H2.
      destruct r as [|d r'].
      * rewrite parse_chars_unicode_escape by lia. reflexivity.
      * destruct (is_trail d) eqn:Htrail.
        -- unfold is_trail in Htrail. apply andb_true_iff in Htrail as [H3 H4].
           apply N.leb_le in H3, H4. cbn [app length] in *.
           rewrite parse_chars_literal by lia. unfold and_then.
           rewrite parse_chars_literal by lia. unfold and_then.
           now rewrite IH by lia.
        -- rewrite <- app_assoc, parse_chars_unicode_escape by lia.
           unfold and_then. now rewrite IH by lia.
    + destruct (is_trail c) eqn:Htrail.
      * unfold is_trail in Htrail. apply andb_true_iff in Htrail as [H3 H4].
        apply N.leb_le in H3, H4.
        rewrite <- app_assoc, parse_chars_unicode_escape by lia.
        unfold and_then. now rewrite IH by lia.
      * rewrite <- app_assoc, parse_chars_escape_char.
        -- unfold and_then. now rewrite IH by lia.
        -- unfold is_lead, is_trail in *. 
           apply andb_false_iff in Hlead, Htrail.
           rewrite !N.leb_gt in Hlead, Htrail. lia.
Qed.

Lemma parse_value_quote fuel r :
  parse_value (S fuel) (34 :: r) =
  match parse_chars r with
  | Some (t, r') => Some (VString t, r')
  | None => None
  end.
Proof. reflexivity. Qed.

Lemma parse_value_string fuel s rest :
  parse_value (S fuel) (quote s ++ rest) = Some (VString s, rest).
Proof.
  unfold quote. cbn [app]. rewrite parse_value_quote, <- app_assoc. cbn [app].
  now rewrite parse_chars_quote_chars.
Qed.
End JSON_strings.

Section JSON_notes.
Import JSON.
Open Scope N_scope.

Lemma parse_value_brace fuel r :
  parse_value (S fuel) (123 :: r) =
  match next_is 125 (skip_ws r) with
  | Some r' => Some (VObject [], r')
  | None =>
      match parse_members fuel r [] with
      | Some (ps, r') => Some (VObject ps, r')
      | None => None
      end
  end.
Proof. reflexivity. Qed.

Lemma parse_value_bracket fuel r :
  parse_value (S fuel) (91 :: r) =
  match next_is 93 (skip_ws r) with
  | Some r' => Some (VArray [], r')
  | None =>
      match parse_elements fuel r with
      | Some (vs, r') => Some (VArray vs, r')
      | None => None
      end
  end.
Proof. reflexivity. Qed.

(** One member [key:value] of an object. *)
Lemma parse_members_step fuel k r acc :
  parse_members (S fuel) (quote k ++ 58 :: r) acc =
  match parse_value fuel r with
  | None => None
  | Some (v, r3) =>
      match skip_ws r3 with
      | [] => None
      | c :: r4 =>
          if c =? 125 then Some (define_prop k v acc, r4)
          else if c =? 44 then parse_members fuel r4 (define_prop k v acc)
          else None
      end
  end.
Proof.
  cbn [parse_members]. unfold quote. cbn [app].
  change (skip_ws (34 :: ?x)) with (34 :: x).
  change (next_is 34 (34 :: ?x)) with (Some x).
  cbv iota. rewrite <- app_assoc. cbn [app].
  rewrite parse_chars_quote_chars.
  change (skip_ws (58 :: ?x)) with (58 :: x).
  change (next_is 58 (58 :: ?x)) with (Some x).
  reflexivity.
Qed.

Lemma note_text_unfold n rest :
  note_text n ++ rest =
  123 :: quote (str "id") ++ 58 :: number_to_string (id n) 0 ++
  44 :: quote (str "note") ++ 58 :: quote (note n) ++ 125 :: rest.
Proof.
  unfold note_text. rewrite <- !app_assoc. reflexivity.
Qed.

Lemma parse_value_note fuel n rest :
  parse_value (S (S (S (S fuel)))) (note_text n ++ rest) = Some (note_value n, rest).
Proof.
  rewrite note_text_unfold.
  rewrite parse_value_brace.
  change (next_is 125 (skip_ws (quote (str "id") ++ ?x))) with (@None jsstring).
  cbv iota.
  rewrite parse_members_step, parse_value_integer.
  2:{ cbn. repeat split; lia. }
  change (skip_ws (44 :: ?x)) with (44 :: x). cbv iota.
  change (44 =? 125) with false. change (44 =? 44) with true. cbv iota.
  rewrite parse_members_step, parse_value_string.
  change (skip_ws (125 :: ?x)) with (125 :: x). cbv iota.
  change (125 =? 125) with true. cbv iota.
  reflexivity.
Qed.

Lemma note_text_head n : exists r, note_text n = 123 :: r.
Proof. unfold note_text. cbn. eauto. Qed.

Lemma parse_elements_S fuel s :
  parse_elements (S fuel) s =
  match parse_value fuel s with
  | None => None
  | Some (v, r) =>
      match skip_ws r with
      | [] => None
      | c :: r' =>
          if c =? 93 then Some ([v], r')
          else if c =? 44 then
            match parse_elements fuel r' with
            | Some (vs, r'') => Some (v :: vs, r'')
            | None => None
            end
          else None
      end
  end.
Proof. reflexivity. Qed.

Lemma parse_elements_notes l : forall n fuel rest,
  parse_elements (S (S (S (S (S (length l + fuel))))))
                 (join (List.map note_text (n :: l)) ++ 93 :: rest)
  = Some (List.map note_value (n :: l), rest).
Proof.
  induction l as [|n' l IH]; intros n fuel rest.
  - cbn [List.map join]. rewrite parse_elements_S, parse_value_note.
    reflexivity.
  - change (join (List.map note_text (n :: n' :: l)))
      with (note_text n ++ 44 :: join (List.map note_text (n' :: l))).
    rewrite <- app_assoc. cbn [app length Nat.add].
    rewrite parse_elements_S, parse_value_note.
    change (skip_ws (44 :: ?x)) with (44 :: x). cbv iota.
    change (44 =? 93) with false. change (44 =? 44) with true. cbv iota.
    rewrite IH. reflexivity.
Qed.

Lemma length_join_notes l : (length l <= length (join (List.map note_text l)))%nat.
Proof.
  induction l as [|n l IH]; [simpl; lia|].
  destruct (note_text_head n) as (r & Hr).
  destruct l as [|n' l].
  - cbn [List.map join]. rewrite Hr. simpl. lia.
  - change (join (List.map note_text (n :: n' :: l)))
      with (note_text n ++ 44 :: join (List.map note_text (n' :: l))).
    rewrite length_app. cbn [length] in *. lia.
Qed.

Lemma parse_notes_text l : parse (notes_text l) = Some (notes_value l).
Proof.
  destruct l as [|n l]; [reflexivity|].
  unfold parse, notes_text, notes_value.
  change (str "[" ++ ?x ++ str "]") with (91 :: x ++ [93]).
  pose proof (length_join_notes (n :: l)) as Hlen.
  set (t := join (List.map note_text (n :: l))) in *.
  cbn [length] in Hlen.
  assert (Hfuel : (2 * length (91%N :: t ++ [93%N]) + 2
                   = S (S (S (S (S (S (length l + (2 * length t - length l))))))))%nat)
    by (rewrite length_cons, length_app; simpl; lia).
  rewrite Hfuel.
  rewrite parse_value_bracket.
  subst t. destruct (note_text_head n) as (r & Hr).
  assert (Hnext : next_is 93 (skip_ws (join (List.map note_text (n :: l)) ++ [93])) = None).
  { destruct l; cbn [List.map join]; rewrite Hr; reflexivity. }
  rewrite Hnext, parse_elements_notes. reflexivity.
Qed.

Lemma serialize_note n : serialize (note_value n) = Some (note_text n).
Proof.
  unfold note_text.
  change (str "{") with [123]. change (str ":") with [58].
  change (str ",") with [44]. change (str "}") with [125].
  cbn [note_value serialize flat_map fst snd join app].
  rewrite <- !app_assoc. reflexivity.
Qed.

Lemma stringify_notes l : stringify (notes_value l) = Some (notes_text l).
Proof.
  unfold stringify, notes_value, notes_text. cbn [serialize].
  f_equal. change (str "[" ++ ?x ++ str "]") with (91 :: x ++ [93]).
  f_equal. f_equal. rewrite List.map_map. f_equal.
  apply List.map_ext. intros n. now rewrite serialize_note.
Qed.

(** Writing a sequence of notes and reading it back gives the sequence. *)
Lemma parse_stringify_notes l :
  exists t, stringify (notes_value l) = Some t /\ parse t = Some (notes_value l).
Proof.
  exists (notes_text l). split; [apply stringify_notes | apply parse_notes_text].
Qed.
End JSON_notes.

(** ** JSON.parse: the fuel is enough *)

Section JSON_fuel.
Import JSON.
Open Scope N_scope.

Lemma parse_value_S fuel s :
  parse_value (S fuel) s =
  match skip_ws s with
  | [] => None
  | c :: r =>
      if c =? 110 then
        match strip_prefix (str "ull") r with
        | Some r' => Some (VNull, r') | None => None end
      else if c =? 116 then
        match strip_prefix (str "rue") r with
        | Some r' => Some (VBool true, r') | None => None end
      else if c =? 102 then
        match strip_prefix (str "alse") r with
        | Some r' => Some (VBool false, r') | None => None end
      else if c =? 34 then
        match parse_chars r with
        | Some (t, r') => Some (VString t, r') | None => None end
      else if c =? 91 then
        match next_is 93 (skip_ws r) with
        | Some r' => Some (VArray [], r')
        | None =>
            match parse_elements fuel r with
            | Some (vs, r') => Some (VArray vs, r') | None => None end
        end
      else if c =? 123 then
        match next_is 125 (skip_ws r) with
        | Some r' => Some (VObject [], r')
        | None =>
            match parse_members fuel r [] with
            | Some (ps, r') => Some (VObject ps, r') | None => None end
        end
      else parse_number (c :: r)
  end.
Proof. reflexivity. Qed.

Lemma parse_members_S fuel s acc :
  parse_members (S fuel) s acc =
  match next_is 34 (skip_ws s) with
  | None => None
  | Some r =>
      match parse_chars r with
      | None => None
      | Some (k, r1) =>
          match next_is 58 (skip_ws r1) with
          | None => None
          | Some r2 =>
              match parse_value fuel r2 with
              | None => None
              | Some (v, r3) =>
                  match skip_ws r3 with
                  | [] => None
                  | c :: r4 =>
                      if c =? 125 then Some (define_prop k v acc, r4)
                      else if c =? 44 then parse_members fuel r4 (define_prop k v acc)
                      else None
                  end
              end
          end
      end
  end.
Proof. reflexivity. Qed.

(** More fuel does not change a result. *)
Lemma parse_fuel_mono fuel :
  (forall fuel' s x, (fuel <= fuel')%nat ->
     parse_value fuel s = Some x -> parse_value fuel' s = Some x) /\
  (forall fuel' s x, (fuel <= fuel')%nat ->
     parse_elements fuel s = Some x -> parse_elements fuel' s = Some x) /\
  (forall fuel' s acc x, (fuel <= fuel')%nat ->
     parse_members fuel s acc = Some x -> parse_members fuel' s acc = Some x).
Proof.
  induction fuel as [|fuel (IHv & IHe & IHm)].
  { repeat split; intros; discriminate. }
  repeat split.
  - intros [|fuel'] s x Hle; [lia|]. apply le_S_n in Hle.
    rewrite !parse_value_S.
    destruct (skip_ws s) as [|c r]; [discriminate|].
    repeat (match goal with |- context [if ?b then _ else _] => destruct b end;
            try (intros H; exact H)).
    + destruct (next_is 93 (skip_ws r)); [intros H; exact H|].
      destruct (parse_elements fuel r) as [[vs r']|] eqn:E; [|discriminate].
      now rewrite (IHe fuel' _ _ Hle E).
    + destruct (next_is 125 (skip_ws r)); [intros H; exact H|].
      destruct (parse_members fuel r []) as [[ps r']|] eqn:E; [|discriminate].
      now rewrite (IHm fuel' _ _ _ Hle E).
  - intros [|fuel'] s x Hle; [lia|]. apply le_S_n in Hle.
    rewrite !parse_elements_S.
    destruct (parse_value fuel s) as [[v r]|] eqn:E; [|discriminate].
    rewrite (IHv fuel' _ _ Hle E).
    destruct (skip_ws r) as [|c r']; [discriminate|].
    destruct (c =? 93); [intros H; exact H|].
    destruct (c =? 44); [|discriminate].
    destruct (parse_elements fuel r') as [[vs r'']|] eqn:E'; [|discriminate].
    now rewrite (IHe fuel' _ _ Hle E').
  - intros [|fuel'] s acc x Hle; [lia|]. apply le_S_n in Hle.
    rewrite !parse_members_S.
    destruct (next_is 34 (skip_ws s)) as [r|]; [|discriminate].
    destruct (parse_chars r) as [[k r1]|]; [|discriminate].
    destruct (next_is 58 (skip_ws r1)) as [r2|]; [|discriminate].
    destruct (parse_value fuel r2) as [[v r3]|] eqn:E; [|discriminate].
    rewrite (IHv fuel' _ _ Hle E).
    destruct (skip_ws r3) as [|c r4]; [discriminate|].
    destruct (c =? 125); [intros H; exact H|].
    destruct (c =? 44); [|discriminate].
    intros H. now apply IHm.
Qed.

(** *** What the parsers consume *)

Lemma skip_ws_length s : (length (skip_ws s) <= length s)%nat.
Proof.
  induction s as [|c s IH]; cbn [skip_ws]; [lia|].
  destruct (is_ws c); cbn [length]; lia.
Qed.

Lemma next_is_length c s r : next_is c s = Some r -> length s = S (length r).
Proof.
  destruct s as [|d s]; cbn [next_is]; [discriminate|].
  destruct (d =? c); [|discriminate]. now intros [= ->].
Qed.

Lemma strip_prefix_length lit : forall s r,
  strip_prefix lit s = Some r -> (length r <= length s)%nat.
Proof.
  induction lit as [|c lit IH]; intros s r; cbn [strip_prefix].
  - now intros [= ->].
  - destruct s as [|d s]; [discriminate|]. destruct (d =? c); [|discriminate].
    intros H. apply IH in H. cbn [length]. lia.
Qed.

Lemma take_digits_length s : forall ds r,
  take_digits s = (ds, r) -> (length r <= length s)%nat.
Proof.
  induction s as [|c s IH]; intros ds r; cbn [take_digits].
  - now intros [= <- <-].
  - destruct (is_digit c).
    + destruct (take_digits s) as [ds' r'] eqn:E. intros [= <- <-].
      specialize (IH _ _ eq_refl). cbn [length]. lia.
    + now intros [= <- <-].
Qed.

Lemma parse_chars_length s : forall t r,
  parse_chars s = Some (t, r) -> (length r < length s)%nat.
Proof.
  remember (length s) as n eqn:Hn.
  assert (Hle : (length s <= n)%nat) by lia. clear Hn.
  revert s Hle. induction n as [|n IH]; intros s Hle t r.
  - destruct s; [discriminate | cbn in Hle; lia].
  - destruct s as [|c s]; [discriminate|]. cbn [length] in Hle.
    cbn [parse_chars].
    destruct (c =? 34); [intros [= <- <-]; cbn [length]; lia|].
    destruct (c =? 92).
    + destruct s as [|e s1]; [discriminate|].
      destruct (e =? 117).
      * destruct s1 as [|h1 [|h2 [|h3 [|h4 s2]]]]; try discriminate.
        destruct (hex4 h1 h2 h3 h4); [|discriminate].
        destruct (parse_chars s2) as [[t' r']|] eqn:E; [|discriminate].
        intros [= <- <-]. apply IH in E; cbn [length] in *; lia.
      * destruct (simple_escape e); [|discriminate].
        destruct (parse_chars s1) as [[t' r']|] eqn:E; [|discriminate].
        intros [= <- <-]. apply IH in E; cbn [length] in *; lia.
    + destruct (c <? 32); [discriminate|].
      destruct (parse_chars s) as [[t' r']|] eqn:E; [|discriminate].
      intros [= <- <-]. apply IH in E; cbn [length] in *; lia.
Qed.

Lemma parse_int_length s i r : parse_int s = Some (i, r) -> (length r < length s)%nat.
Proof.
  destruct s as [|c s]; cbn [parse_int]; [discriminate|].
  destruct (c =? 48); [intros [= <- <-]; cbn [length]; lia|].
  destruct (is_digit c) eqn:Hc; [|discriminate].
  cbn [take_digits]. rewrite Hc.
  destruct (take_digits s) as [ds r'] eqn:E. intros [= <- <-].
  apply take_digits_length in E. cbn [length]. lia.
Qed.

Lemma parse_frac_length s fs r : parse_frac s = Some (fs, r) -> (length r <= length s)%nat.
Proof.
  unfold parse_frac. destruct (next_is 46 s) as [r0|] eqn:E.
  - apply next_is_length in E.
    destruct (take_digits r0) as [ds r'] eqn:E'. apply take_digits_length in E'.
    destruct ds; [discriminate|]. intros [= <- <-]. lia.
  - now intros [= <- <-].
Qed.

Lemma parse_exp_length s e r : parse_exp s = Some (e, r) -> (length r <= length s)%nat.
Proof.
  unfold parse_exp. destruct s as [|c s]; [now intros [= <- <-]|].
  destruct ((c =? 101) || (c =? 69)); [|now intros [= <- <-]].
  assert (H : forall neg r1 ds r2,
             (length r1 <= length s)%nat -> take_digits r1 = (ds, r2) ->
             match ds with
             | [] => None
             | _ => let e0 := Z.of_N (digits_value ds) in
                    Some (if neg : bool then (- e0)%Z else e0, r2)
             end = Some (e, r) -> (length r <= length (c :: s))%nat).
  { intros neg r1 ds r2 Hr1 Htd. apply take_digits_length in Htd.
    destruct ds; [discriminate|]. intros [= <- <-]. cbn [length]. lia. }
  destruct s as [|d s'].
  - destruct (take_digits []) as [ds r2] eqn:E. apply (H false [] ds r2); [lia|exact E].
  - destruct (d =? 45).
    + destruct (take_digits s') as [ds r2] eqn:E.
      apply (H true s' ds r2); [cbn [length]; lia|exact E].
    + destruct (d =? 43).
      * destruct (take_digits s') as [ds r2] eqn:E.
        apply (H false s' ds r2); [cbn [length]; lia|exact E].
      * destruct (take_digits (d :: s')) as [ds r2] eqn:E.
        apply (H false (d :: s') ds r2); [lia|exact E].
Qed.

Lemma parse_number_length s v r : parse_number s = Some (v, r) -> (length r < length s)%nat.
Proof.
  unfold parse_number.
  assert (H : forall neg s1, (length s1 <= length s)%nat ->
    match parse_int s1 with
    | None => None
    | Some (i, s2) =>
        match parse_frac s2 with
        | None => None
        | Some (fs, s3) =>
            match parse_exp s3 with
            | None => None
            | Some (e, s4) =>
                let m := Z.of_N (i * 10 ^ N.of_nat (length fs) + digits_value fs) in
                Some (make_number (if neg : bool then - m else m)%Z
                                  (Z.of_nat (length fs) - e)%Z, s4)
            end
        end
    end = Some (v, r) -> (length r < length s)%nat).
  { intros neg s1 Hs1.
    destruct (parse_int s1) as [[i s2]|] eqn:E1; [|discriminate].
    destruct (parse_frac s2) as [[fs s3]|] eqn:E2; [|discriminate].
    destruct (parse_exp s3) as [[e s4]|] eqn:E3; [|discriminate].
    intros [= <- <-].
    apply parse_int_length in E1. apply parse_frac_length in E2.
    apply parse_exp_length in E3. lia. }
  destruct (next_is 45 s) as [r0|] eqn:E.
  - apply next_is_length in E. apply (H true r0). lia.
  - apply (H false s). lia.
Qed.

(** A result is kept by every fuel above twice the number of characters
    consumed. *)
Lemma parse_fuel_bound fuel :
  (forall s v r, parse_value fuel s = Some (v, r) ->
     (length r < length s)%nat /\
     forall fuel', (2 * (length s - length r) <= fuel')%nat ->
                   parse_value fuel' s = Some (v, r)) /\
  (forall s vs r, parse_elements fuel s = Some (vs, r) ->
     (length r < length s)%nat /\
     forall fuel', (2 * (length s - length r) + 1 <= fuel')%nat ->
                   parse_elements fuel' s = Some (vs, r)) /\
  (forall s acc ps r, parse_members fuel s acc = Some (ps, r) ->
     (length r < length s)%nat /\
     forall fuel', (2 * (length s - length r) + 1 <= fuel')%nat ->
                   parse_members fuel' s acc = Some (ps, r)).
Proof.
  induction fuel as [|fuel (IHv & IHe & IHm)].
  { repeat split; intros; discriminate. }
  split; [|split].
  - intros s v r H.
    assert (Hlen : (length r < length s)%nat).
    { revert H. rewrite parse_value_S.
      pose proof (skip_ws_length s) as Hws.
      destruct (skip_ws s) as [|c r0] eqn:Hs; [discriminate|]. cbn [length] in Hws.
      destruct (c =? 110).
      { destruct (strip_prefix _ r0) eqn:E; [|discriminate]. intros [= <- <-].
        apply strip_prefix_length in E. lia. }
      destruct (c =? 116).
      { destruct (strip_prefix _ r0) eqn:E; [|discriminate]. intros [= <- <-].
        apply strip_prefix_length in E. lia. }
      destruct (c =? 102).
      { destruct (strip_prefix _ r0) eqn:E; [|discriminate]. intros [= <- <-].
        apply strip_prefix_length in E. lia. }
      destruct (c =? 34).
      { destruct (parse_chars r0) as [[t r']|] eqn:E; [|discriminate].
        intros [= <- <-]. apply parse_chars_length in E. lia. }
      pose proof (skip_ws_length r0) as Hws0.
      destruct (c =? 91).
      { destruct (next_is 93 (skip_ws r0)) eqn:E.
        - intros [= <- <-]. apply next_is_length in E. lia.
        - destruct (parse_elements fuel r0) as [[vs r']|] eqn:E'; [|discriminate].
          intros [= <- <-]. apply IHe in E' as [E' _]. lia. }
      destruct (c =? 123).
      { destruct (next_is 125 (skip_ws r0)) eqn:E.
        - intros [= <- <-]. apply next_is_length in E. lia.
        - destruct (parse_members fuel r0 []) as [[ps r']|] eqn:E'; [|discriminate].
          intros [= <- <-]. apply IHm in E' as [E' _]. lia. }
      intros E. apply parse_number_length in E. cbn [length] in E. lia. }
    split; [exact Hlen|].
    intros [|fuel'] Hfuel; [lia|].
    revert H. rewrite !parse_value_S.
    pose proof (skip_ws_length s) as Hws.
    destruct (skip_ws s) as [|c r0] eqn:Hs; [discriminate|]. cbn [length] in Hws.
    repeat (match goal with |- context [if ?b then _ else _] => destruct b end;
            try (intros H; exact H)).
    + pose proof (skip_ws_length r0) as Hws0.
      destruct (next_is 93 (skip_ws r0)); [intros H; exact H|].
      destruct (parse_elements fuel r0) as [[vs r']|] eqn:E; [|discriminate].
      intros [= <- <-]. apply IHe in E as [Hlen' E].
      rewrite E; [reflexivity | lia].
    + pose proof (skip_ws_length r0) as Hws0.
      destruct (next_is 125 (skip_ws r0)); [intros H; exact H|].
      destruct (parse_members fuel r0 []) as [[ps r']|] eqn:E; [|discriminate].
      intros [= <- <-]. apply IHm in E as [Hlen' E].
      rewrite E; [reflexivity | lia].
  - intros s vs r H.
    assert (Hlen : (length r < length s)%nat).
    { revert H. rewrite parse_elements_S.
      destruct (parse_value fuel s) as [[v r1]|] eqn:E; [|discriminate].
      apply IHv in E as [E _].
      pose proof (skip_ws_length r1) as Hws.
      destruct (skip_ws r1) as [|c r2]; [discriminate|]. cbn [length] in Hws.
      destruct (c =? 93); [intros [= <- <-]; lia|].
      destruct (c =? 44); [|discriminate].
      destruct (parse_elements fuel r2) as [[vs' r3]|] eqn:E'; [|discriminate].
      intros [= <- <-]. apply IHe in E' as [E' _]. lia. }
    split; [exact Hlen|].
    intros [|fuel'] Hfuel; [lia|].
    revert H. rewrite !parse_elements_S.
    destruct (parse_value fuel s) as [[v r1]|] eqn:E; [|discriminate].
    apply IHv in E as [Hlen1 E].
    pose proof (skip_ws_length r1) as Hws.
    destruct (skip_ws r1) as [|c r2] eqn:Hs; [discriminate|]. cbn [length] in Hws.
    destruct (c =? 93) eqn:T93.
    { intros [= <- <-]. rewrite E by lia. now rewrite Hs, T93. }
    destruct (c =? 44) eqn:T44; [|discriminate].
    destruct (parse_elements fuel r2) as [[vs' r3]|] eqn:E'; [|discriminate].
    intros [= <- <-]. apply IHe in E' as [Hlen' E'].
    rewrite E by lia. rewrite Hs, T93, T44. now rewrite E' by lia.
  - intros s acc ps r H.
    assert (Hlen : (length r < length s)%nat).
    { revert H. rewrite parse_members_S.
      pose proof (skip_ws_length s) as Hws.
      destruct (next_is 34 (skip_ws s)) as [r0|] eqn:E0; [|discriminate].
      apply next_is_length in E0.
      destruct (parse_chars r0) as [[k r1]|] eqn:E1; [|discriminate].
      apply parse_chars_length in E1.
      pose proof (skip_ws_length r1) as Hws1.
      destruct (next_is 58 (skip_ws r1)) as [r2|] eqn:E2; [|discriminate].
      apply next_is_length in E2.
      destruct (parse_value fuel r2) as [[v r3]|] eqn:E3; [|discriminate].
      apply IHv in E3 as [E3 _].
      pose proof (skip_ws_length r3) as Hws3.
      destruct (skip_ws r3) as [|c r4]; [discriminate|]. cbn [length] in Hws3.
      destruct (c =? 125); [intros [= <- <-]; lia|].
      destruct (c =? 44); [|discriminate].
      intros E4. apply IHm in E4 as [E4 _]. lia. }
    split; [exact Hlen|].
    intros [|fuel'] Hfuel; [lia|].
    revert H. rewrite !parse_members_S.
    pose proof (skip_ws_length s) as Hws.
    destruct (next_is 34 (skip_ws s)) as [r0|] eqn:E0; [|discriminate].
    apply next_is_length in E0.
    destruct (parse_chars r0) as [[k r1]|] eqn:E1; [|discriminate].
    apply parse_chars_length in E1.
    pose proof (skip_ws_length r1) as Hws1.
    destruct (next_is 58 (skip_ws r1)) as [r2|] eqn:E2; [|discriminate].
    apply next_is_length in E2.
    destruct (parse_value fuel r2) as [[v r3]|] eqn:E3; [|discriminate].
    apply IHv in E3 as [Hlen3 E3].
    pose proof (skip_ws_length r3) as Hws3.
    destruct (skip_ws r3) as [|c r4] eqn:Hs3; [discriminate|]. cbn [length] in Hws3.
    destruct (c =? 125) eqn:T125.
    { intros [= <- <-]. rewrite E3 by lia. now rewrite Hs3, T125. }
    destruct (c =? 44) eqn:T44; [|discriminate].
    intros E4. pose proof E4 as E4'. apply IHm in E4' as [Hlen4 E4'].
    rewrite E3 by lia. rewrite Hs3, T125, T44. apply E4'. lia.
Qed.

(** The fuel that [parse] gives is enough: a text that some fuel parses
    is parsed by [parse], with the same value. *)
Lemma parse_fuel_enough fuel text v r :
  parse_value fuel text = Some (v, r) -> skip_ws r = [] -> parse text = Some v.
Proof.
  intros H Hr. apply (proj1 (parse_fuel_bound fuel)) in H as [Hlen H].
  unfold parse. rewrite H by lia. now rewrite Hr.
Qed.
End JSON_fuel.

(** ** The Local Store *)

Section LocalStore.
Context {Server : Type}.
Implicit Types (w : World Server) (l : list Note).

Lemma getFromLocalStorage_eq key w :
  app.getFromLocalStorage key w =
  match stored_value (localStorage w) key with
  | Some v => (Returns v, w)
  | None => (Throws SyntaxError, w)
  end.
Proof.
  unfold app.getFromLocalStorage, stored_value, bind, getItem, JSON_parse.
  now destruct (JSON.parse _).
Qed.

Lemma snapshot_is_stored w l :
  snapshot_is w l <-> stored_value (localStorage w) "savedNotes" = Some (notes_value l).
Proof.
  unfold snapshot_is. rewrite getFromLocalStorage_eq.
  destruct (stored_value _ _); split; congruence.
Qed.

Lemma snapshot_is_same_storage w w' l :
  localStorage w' = localStorage w -> snapshot_is w l -> snapshot_is w' l.
Proof. rewrite !snapshot_is_stored. now intros ->. Qed.

Lemma notes_value_inj l l' : notes_value l = notes_value l' -> l = l'.
Proof.
  unfold notes_value. intros H. injection H as H. revert l' H.
  induction l as [|[i t] l IH]; intros [|[i' t'] l'] H; try discriminate; [reflexivity|].
  injection H as -> -> H. f_equal. now apply IH.
Qed.

Lemma snapshot_is_functional w l l' : snapshot_is w l -> snapshot_is w l' -> l = l'.
Proof.
  rewrite !snapshot_is_stored. intros H1 H2.
  apply notes_value_inj. congruence.
Qed.

Lemma stored_value_insert_notes ls l :
  stored_value (<["savedNotes" := notes_text l]> ls) "savedNotes" = Some (notes_value l).
Proof.
  unfold stored_value. now rewrite lookup_insert_eq, parse_notes_text.
Qed.

Lemma setInLocalStorage_notes w l :
  app.setInLocalStorage "savedNotes" (notes_value l) w =
  (Returns tt, set_localStorage (<["savedNotes" := notes_text l]> (localStorage w)) w).
Proof.
  unfold app.setInLocalStorage. now rewrite stringify_notes.
Qed.
End LocalStore.

Arguments JSON.parse : simpl never.
Arguments JSON.stringify : simpl never.
Arguments stored_value : simpl never.
Arguments update_request : simpl never.

Section Failures.
Context {Server : Type}.
Implicit Types (w : World Server) (l : list Note).

(** C3.  Create while offline: whatever the storage holds and whatever
    the content, [handleCreateNote] reports failure ([false]), leaves the
    local storage as it is, adds no note to the page, sends no request
    (the list of requests and the service are unchanged) and logs one
    failure, with the message of the application when the storage can be
    read. *)
Theorem handleCreateNote_offline w (noteContent : jsstring) :
  onLine w = false ->
  exists w' msg,
    app.handleCreateNote noteContent w = (Returns false, w') /\
    localStorage w' = localStorage w /\
    notes_container w' = notes_container w /\
    requests w' = requests w /\
    server w' = server w /\
    logs_container w' =
      logs_container w ++ [{| operation := msg; isSuccess := false |}] /\
    (is_Some (stored_value (localStorage w) "savedNotes") ->
     msg = Text "Impossible de créer la note").
Proof.
  intros Hoff.
  unfold app.handleCreateNote, try_catch, bind.
  rewrite getFromLocalStorage_eq.
  destruct (stored_value _ _) as [savedNotes|].
  - unfold app.isOnline. rewrite Hoff. cbn.
    eexists _, _. repeat split.
  - cbn. eexists _, _. repeat split. intros [v Hv]. discriminate.
Qed.

(** C6.  Update without a confirmation of the remote (offline, the
    request throws, or the answer is not [ok]): whatever the storage
    holds and whatever the note, the local storage is left as it is. *)
Theorem handleUpdateNote_unconfirmed w (note : value) :
  update_unconfirmed w note ->
  exists w',
    app.handleUpdateNote note w = (Returns tt, w') /\
    localStorage w' = localStorage w.
Proof.
  intros Hun.
  unfold app.handleUpdateNote, try_catch, bind.
  rewrite getFromLocalStorage_eq.
  destruct (stored_value _ _) as [savedNotes|]; [|cbn; eauto].
  unfold app.isOnline.
  destruct (onLine w) eqn:Hon; [|cbn; eauto].
  destruct Hun as [Hoff | Hun]; [congruence|].
  cbn [negb].
  unfold NoteKeeper.update, bind, fetch.
  change (NoteKeeper.request PUT (VObject [(str "notes", VArray [note])]))
    with (update_request note).
  destruct (network w (update_request note) (server w)) as [answer s'].
  cbn [fst] in Hun.
  destruct Hun as [-> | (response & -> & Hok)]; [cbn; eauto|].
  cbn. rewrite Hok. cbn. eauto.
Qed.
End Failures.

(** ** Pure view of update and delete on a sequence of notes *)

Lemma strict_equal_integers a b :
  strict_equal (VNumber a 0) (VNumber b 0) = (a =? b)%Z.
Proof. cbn. now rewrite !Z.mul_1_r. Qed.

Lemma get_prop_note_id n : get_prop (note_value n) (str "id") = Some (VNumber (id n) 0).
Proof. reflexivity. Qed.

Lemma replace_note_lookup n l i old :
  l !! i = Some old ->
  replace_note n l !! i = Some (if (id old =? id n)%Z then n else old).
Proof.
  unfold replace_note. intros H. now rewrite list_lookup_fmap, H.
Qed.

Lemma replace_note_unique n l :
  NoDup (List.map id l) -> In (id n) (List.map id l) ->
  exists i old,
    l !! i = Some old /\ id old = id n /\ replace_note n l = <[i := n]> l /\
    forall j other, l !! j = Some other -> id other = id n -> j = i.
Proof.
  induction l as [|a l IH]; intros Hnd Hin; [destruct Hin|].
  cbn [List.map] in Hnd, Hin. apply NoDup_cons in Hnd as [Hna Hnd].
  assert (Hfresh : forall m, ~ In (id n) (List.map id m) -> replace_note n m = m).
  { induction m as [|b m IHm]; intros Hm; [reflexivity|].
    cbn [replace_note List.map]. cbn [List.map In] in Hm.
    destruct (Z.eqb_spec (id b) (id n)); [tauto|].
    f_equal. apply IHm. tauto. }
  destruct (Z.eq_dec (id a) (id n)) as [Heq|Hne].
  - exists 0%nat, a. repeat split; [assumption| |].
    + cbn [replace_note List.map]. rewrite (proj2 (Z.eqb_eq _ _) Heq).
      cbn. f_equal. apply Hfresh. rewrite <- Heq.
      intros H. apply Hna. now apply list_elem_of_In.
    + intros [|j] other Hj Ho; [reflexivity|]. exfalso. apply Hna.
      cbn in Hj. apply list_elem_of_In. rewrite Heq, <- Ho.
      apply in_map. apply list_elem_of_In. now apply list_elem_of_lookup_2 in Hj.
  - destruct Hin as [Hin|Hin]; [congruence|].
    destruct (IH Hnd Hin) as (i & old & Hi & Hid & Hrep & Huniq).
    exists (S i), old. repeat split; [assumption..| |].
    + cbn [replace_note List.map]. rewrite (proj2 (Z.eqb_neq _ _) Hne).
      cbn. f_equal. exact Hrep.
    + intros [|j] other Hj Ho; cbn in Hj.
      * congruence.
      * f_equal. eauto.
Qed.

Section Handlers.
Context {Server : Type}.
Implicit Types (w : World Server) (l : list Note).

Lemma mapM_pure {A B C} (f : B -> M C) (h : A -> B) (g : A -> C) (l : list A) w :
  (forall a w', f (h a) w' = (Returns (g a), w')) ->
  mapM (Server := Server) f (List.map h l) w = (Returns (List.map g l), w).
Proof.
  intros Hf. induction l as [|a l IH]; [reflexivity|].
  cbn [List.map mapM]. unfold bind. now rewrite Hf, IH.
Qed.

Lemma mapM_replace (n : Note) l w :
  mapM (fun savedNote =>
          let* saved_id := or_TypeError (get_prop savedNote (str "id")) in
          let* note_id := or_TypeError (get_prop (note_value n) (str "id")) in
          ret (if strict_equal saved_id note_id then note_value n else savedNote))
       (List.map note_value l) w
  = (Returns (List.map note_value (replace_note n l)), w).
Proof.
  unfold replace_note. rewrite List.map_map. apply mapM_pure.
  intros a w'. unfold bind. rewrite !get_prop_note_id. cbn [or_TypeError ret].
  rewrite strict_equal_integers. now destruct (id a =? id n)%Z.
Qed.

Lemma mapM_mark (i : Z) l w :
  mapM (fun x =>
          let* keep := (let* n_id := or_TypeError (get_prop x (str "id")) in
                        ret (negb (strict_equal n_id (VNumber i 0)))) in
          ret (x, keep))
       (List.map note_value l) w
  = (Returns (List.map (fun saved => (note_value saved, negb (id saved =? i)%Z)) l), w).
Proof.
  apply mapM_pure.
  intros a w'. unfold bind. rewrite get_prop_note_id. cbn [or_TypeError ret].
  now rewrite strict_equal_integers.
Qed.

Lemma marked_remove (i : Z) l :
  List.map fst (List.filter snd
    (List.map (fun saved => (note_value saved, negb (id saved =? i)%Z)) l))
  = List.map note_value (remove_note i l).
Proof.
  induction l as [|a l IH]; [reflexivity|].
  cbn [List.map List.filter remove_note snd].
  destruct (negb (id a =? i)%Z); cbn [List.map fst]; [f_equal|]; exact IH.
Qed.
End Handlers.

Section Success.
Context {Server : Type}.
Implicit Types (w : World Server) (l : list Note).

(** What an update does to the snapshot once the remote has confirmed. *)
Lemma handleUpdateNote_confirmed w l (n : Note) response s' :
  onLine w = true ->
  snapshot_is w l ->
  network w (update_request (note_value n)) (server w) = (Some response, s') ->
  ok response = true ->
  exists w',
    app.handleUpdateNote (note_value n) w = (Returns tt, w') /\
    snapshot_is w' (replace_note n l).
Proof.
  intros Hon Hsnap Hnet Hok.
  unfold app.handleUpdateNote, try_catch, bind at 1.
  rewrite Hsnap. unfold bind at 1, app.isOnline. rewrite Hon. cbn [negb].
  unfold bind at 1, bind at 1, NoteKeeper.update, bind at 1, fetch.
  change (NoteKeeper.request PUT (VObject [(str "notes", VArray [note_value n])]))
    with (update_request (note_value n)).
  rewrite Hnet. cbn [ret]. rewrite Hok. cbn [negb].
  unfold notes_value, array_map, bind at 1. rewrite mapM_replace. cbn [ret].
  unfold bind at 1.
  change (VArray (List.map note_value (replace_note n l)))
    with (notes_value (replace_note n l)).
  rewrite setInLocalStorage_notes.
  eexists. split; [reflexivity|].
  apply snapshot_is_stored. cbn. apply stored_value_insert_notes.
Qed.

(** What a delete does while online, whatever the element. *)
Lemma handleDeleteNote_online w l (i : Z) (noteElement : option nat) :
  onLine w = true ->
  snapshot_is w l ->
  exists w',
    app.handleDeleteNote (VNumber i 0) noteElement w = (Returns tt, w') /\
    snapshot_is w' (remove_note i l) /\
    onLine w' = true /\
    requests w' = requests w /\
    server w' = server w.
Proof.
  intros Hon Hsnap.
  unfold app.handleDeleteNote, try_catch, bind at 1.
  rewrite Hsnap. unfold bind at 1, app.isOnline. rewrite Hon. cbn [negb].
  unfold bind at 1. cbn [ret].
  unfold bind at 1, notes_value, array_filter, bind at 1.
  rewrite mapM_mark. cbn [ret]. rewrite marked_remove.
  change (VArray (List.map note_value (remove_note i l)))
    with (notes_value (remove_note i l)).
  unfold bind at 1. rewrite setInLocalStorage_notes.
  unfold bind at 1.
  set (w1 := set_localStorage _ w).
  assert (Hw1 : snapshot_is w1 (remove_note i l)).
  { apply snapshot_is_stored. cbn. apply stored_value_insert_notes. }
  destruct noteElement as [element|]; [unfold removeChild|].
  - destruct (existsb _ _).
    + eexists. split; [reflexivity|]. split; [|now cbn].
      eapply snapshot_is_same_storage; [|exact Hw1]. reflexivity.
    + eexists. split; [reflexivity|]. split; [|now cbn].
      eapply snapshot_is_same_storage; [|exact Hw1]. reflexivity.
  - eexists. split; [reflexivity|]. split; [|now cbn].
    eapply snapshot_is_same_storage; [|exact Hw1]. reflexivity.
Qed.

(** A delete never reaches the remote service, online or not, and
    whatever the storage holds. *)
Lemma handleDeleteNote_no_request w (noteId : value) (noteElement : option nat) :
  exists w',
    app.handleDeleteNote noteId noteElement w = (Returns tt, w') /\
    requests w' = requests w /\
    server w' = server w.
Proof.
  unfold app.handleDeleteNote, try_catch, bind at 1.
  rewrite getFromLocalStorage_eq.
  destruct (stored_value _ _) as [savedNotes|]; [|cbn; eauto].
  unfold bind at 1, app.isOnline.
  destruct (onLine w); cbn [negb]; [|cbn; eauto].
  unfold bind at 1. cbn [ret]. unfold bind at 1.
  assert (Hfilter : forall w0,
    exists r, array_filter
      (fun n => let* n_id := or_TypeError (get_prop n (str "id")) in
                ret (negb (strict_equal n_id noteId))) savedNotes w0 = (r, w0)).
  { intros w0. destruct savedNotes; try (eexists; reflexivity).
    unfold array_filter, bind at 1.
    assert (Hm : exists r, mapM (Server := Server)
      (fun x => let* keep := (let* n_id := or_TypeError (get_prop x (str "id")) in
                              ret (negb (strict_equal n_id noteId))) in
                ret (x, keep)) elements w0 = (r, w0)).
    { induction elements as [|x xs IH]; [eexists; reflexivity|].
      cbn [mapM]. unfold bind at 1, bind at 1, bind at 1.
      destruct (get_prop x (str "id")); cbn [or_TypeError ret throw];
        [|eexists; reflexivity].
      unfold bind at 1. destruct IH as (r & ->).
      destruct r; eexists; reflexivity. }
    destruct Hm as (r & ->). destruct r; eexists; reflexivity. }
  destruct (Hfilter w) as (r & ->).
  destruct r as [notes|e]; [|cbn; eauto].
  unfold bind at 1, app.setInLocalStorage, setItem.
  unfold bind at 1.
  destruct noteElement as [element|]; [unfold removeChild|].
  - cbn [notes_container set_localStorage]. destruct (existsb _ _); cbn; eauto.
  - cbn; eauto.
Qed.
End Success.

Section Load.
Context {Server : Type}.
Implicit Types (w : World Server) (l : list Note).

Lemma addNoteToUI_note n w :
  app.addNoteToUI (note_value n) w =
  (Returns tt,
   set_notes_container
     (notes_container w ++ [note_element (elements_created w) n])
     (set_elements_created (S (elements_created w)) w)).
Proof. reflexivity. Qed.

Lemma forEach_addNoteToUI l w :
  array_forEach app.addNoteToUI (notes_value l) w = (Returns tt, append_notes l w).
Proof.
  unfold array_forEach, notes_value, bind.
  assert (H : exists r, mapM app.addNoteToUI (List.map note_value l) w
                        = (Returns r, append_notes l w)).
  { revert w. induction l as [|n l IH]; intros w; [eexists; reflexivity|].
    cbn [List.map mapM append_notes]. unfold bind at 1.
    rewrite addNoteToUI_note. unfold bind at 1.
    destruct (IH (set_notes_container
           (notes_container w ++ [note_element (elements_created w) n])
           (set_elements_created (S (elements_created w)) w))) as (r & ->).
    eexists; reflexivity. }
  destruct H as (r & ->). reflexivity.
Qed.

Lemma append_notes_frame l : forall w,
  localStorage (append_notes l w) = localStorage w /\
  logs_container (append_notes l w) = logs_container w /\
  requests (append_notes l w) = requests w /\
  server (append_notes l w) = server w /\
  rendered (append_notes l w) = rendered w ++ List.map shown l.
Proof.
  induction l as [|n l IH]; intros w; cbn [append_notes].
  - repeat split. cbn. now rewrite app_nil_r.
  - destruct (IH (set_notes_container
           (notes_container w ++ [note_element (elements_created w) n])
           (set_elements_created (S (elements_created w)) w)))
      as (-> & -> & -> & -> & ->).
    repeat split. unfold rendered. cbn.
    rewrite List.map_app, <- app_assoc. reflexivity.
Qed.

(** The Remote Client only touches the service and the list of
    requests. *)
Lemma getAll_only_remote w :
  exists r s rs, NoteKeeper.getAll w = (r, set_remote s rs w).
Proof.
  unfold NoteKeeper.getAll, bind at 1, fetch.
  destruct (network w _ (server w)) as [[response|] s']; [|eauto].
  unfold bind, json, JSON_parse.
  destruct (JSON.parse (text response)) as [data|]; [|cbn; eauto].
  cbn [ret]. destruct (get_prop data (str "notes")); cbn; eauto.
Qed.

Lemma length_truthy l :
  get_prop (notes_value l) (str "length")
  = Some (VNumber (Z.of_nat (length l)) 0).
Proof. unfold notes_value. cbn. now rewrite length_map. Qed.

(** Load, online, the fetch of the notes throws: the catch logs the
    failure and returns; nothing is rendered. *)
Lemma loadNotes_fetch_throws w (saved : value) e w1 :
  onLine w = true ->
  stored_value (localStorage w) "savedNotes" = Some saved ->
  NoteKeeper.getAll w = (Throws e, w1) ->
  exists w',
    app.loadNotes w = (Returns tt, w') /\
    localStorage w' = localStorage w /\
    notes_container w' = notes_container w /\
    logs_container w' = logs_container w ++
      [{| operation := Text "Erreur lors du chargement des notes";
          isSuccess := false |}].
Proof.
  intros Hon Hsaved Hget.
  destruct (getAll_only_remote w) as (r & s & rs & Hw1).
  rewrite Hget in Hw1. injection Hw1 as <- ->.
  unfold app.loadNotes, bind at 1. rewrite getFromLocalStorage_eq, Hsaved.
  unfold bind at 1, app.isOnline. rewrite Hon.
  unfold bind at 1, try_catch, bind at 1. rewrite Hget.
  cbn. eauto.
Qed.

(** Load, offline: the snapshot is rendered. *)
Lemma loadNotes_offline w l :
  onLine w = false ->
  snapshot_is w l ->
  exists w',
    app.loadNotes w = (Returns tt, w') /\
    localStorage w' = localStorage w /\
    requests w' = requests w /\
    rendered w' = rendered w ++ List.map shown l.
Proof.
  intros Hoff Hsnap.
  unfold app.loadNotes, bind at 1. rewrite Hsnap.
  unfold bind at 1, app.isOnline. rewrite Hoff.
  unfold bind at 1. cbn [ret].
  change (VArray []) with (notes_value []). rewrite length_truthy.
  unfold bind at 1. cbn [ret or_TypeError truthy Z.eqb negb Z.of_nat length].
  change (negb (Z.of_nat 0 =? 0)%Z) with false. cbv iota.
  unfold bind at 1. rewrite forEach_addNoteToUI.
  destruct (append_notes_frame l w) as (H1 & H2 & H3 & H4 & H5).
  eexists. split; [reflexivity|]. cbn. auto.
Qed.

(** Load, online, the remote answers with the notes [fetched]: the
    snapshot becomes [fetched]; what is rendered is [fetched] unless it
    is empty, and then it is the previous snapshot. *)
Lemma loadNotes_online_fetched w saved fetched w1 :
  onLine w = true ->
  snapshot_is w saved ->
  NoteKeeper.getAll w = (Returns (notes_value fetched), w1) ->
  exists w',
    app.loadNotes w = (Returns tt, w') /\
    snapshot_is w' fetched /\
    rendered w' = rendered w ++
      List.map shown (match fetched with [] => saved | _ => fetched end).
Proof.
  intros Hon Hsnap Hget.
  destruct (getAll_only_remote w) as (r & s & rs & Hw1).
  rewrite Hget in Hw1. injection Hw1 as <- ->.
  unfold app.loadNotes, bind at 1. rewrite Hsnap.
  unfold bind at 1, app.isOnline. rewrite Hon.
  unfold bind at 1, try_catch, bind at 1. rewrite Hget.
  unfold bind at 1. rewrite setInLocalStorage_notes. cbn [ret].
  unfold bind at 1. rewrite length_truthy. cbn [or_TypeError ret].
  unfold bind at 1.
  set (w2 := set_localStorage _ _).
  assert (Hw2 : snapshot_is w2 fetched).
  { apply snapshot_is_stored. cbn. apply stored_value_insert_notes. }
  assert (Hshow : forall shown_notes,
    exists w', (do array_forEach app.addNoteToUI (notes_value shown_notes) ;
                app.logOperation (Text "Chargement des notes") true) w2
               = (Returns tt, w') /\
               snapshot_is w' fetched /\
               rendered w' = rendered w ++ List.map shown shown_notes).
  { intros shown_notes. unfold bind. rewrite forEach_addNoteToUI.
    destruct (append_notes_frame shown_notes w2) as (H1 & H2 & H3 & H4 & H5).
    eexists. split; [reflexivity|]. split.
    - eapply snapshot_is_same_storage; [|exact Hw2]. cbn. exact H1.
    - cbn. exact H5. }
  destruct fetched as [|n fetched].
  - cbn [length Z.of_nat truthy Z.eqb negb]. apply Hshow.
  - assert (Ht : truthy (VNumber (Z.of_nat (length (n :: fetched))) 0) = true).
    { cbn [truthy length]. rewrite Nat2Z.inj_succ.
      apply negb_true_iff, Z.eqb_neq. lia. }
    rewrite Ht. apply Hshow.
Qed.
End Load.

(** ** The service worker *)

Section ServiceWorker_facts.
Import ServiceWorker.
Implicit Types (caches : CacheStorage) (urls : list string).

Lemma fetch_entries_fails net urls u :
  In u urls -> fetch_entry net u = None -> fetch_entries net urls = None.
Proof.
  intros Hin Hu. induction urls as [|v urls IH]; [destruct Hin|].
  cbn [fetch_entries]. destruct Hin as [->|Hin].
  - now rewrite Hu.
  - rewrite (IH Hin). now destruct (fetch_entry net v).
Qed.

Lemma caches_open_lookup name caches :
  caches_open name caches !! name = Some (default ∅ (caches !! name)).
Proof.
  unfold caches_open. destruct (caches !! name) as [c|] eqn:E.
  - now rewrite E.
  - now rewrite lookup_insert_eq.
Qed.

Lemma caches_open_other name other caches :
  other ≠ name -> caches_open name caches !! other = caches !! other.
Proof.
  intros Hne. unfold caches_open. destruct (caches !! name); [reflexivity|].
  now rewrite lookup_insert_ne.
Qed.

(** C9.  Install, for every cache name and every list of URLs: when the
    fetch of one URL of the list fails (no response, or a response that
    is not [ok]) the promise given to [waitUntil] is rejected, and the
    region holds what it held before: a new region holds no entry, not
    even for the URLs that were fetched.  The other regions are
    untouched. *)
Theorem install_all_or_nothing net name urls caches u :
  In u urls ->
  (net u = None \/ exists r, net u = Some r /\ ok r = false) ->
  exists caches',
    install_listener net name urls caches = (Rejected, caches') /\
    caches' !! name = Some (default ∅ (caches !! name)) /\
    (caches !! name = None -> forall url, caches' !! name ≫= (.!! url) = None) /\
    (forall other, other ≠ name -> caches' !! other = caches !! other).
Proof.
  intros Hin Hfail.
  assert (Hentry : fetch_entry net u = None).
  { unfold fetch_entry. destruct Hfail as [->|(r & -> & ->)]; reflexivity. }
  exists (caches_open name caches).
  unfold install_listener, cache_addAll.
  rewrite (fetch_entries_fails net urls u Hin Hentry).
  split; [reflexivity|]. split; [apply caches_open_lookup|]. split.
  - intros Hnew url. rewrite caches_open_lookup, Hnew. cbn. apply lookup_empty.
  - intros other Hne. now apply caches_open_other.
Qed.

Lemma foldl_delete_lookup current (names : list string) : forall caches name,
  foldl (fun c cacheName =>
           if bool_decide (cacheName ≠ current) then delete cacheName c else c)
        caches names !! name
  = if bool_decide (name ≠ current /\ name ∈ names) then None else caches !! name.
Proof.
  induction names as [|k names IH]; intros caches name; cbn [foldl].
  - rewrite bool_decide_eq_false_2; [reflexivity|].
    intros [_ H]. now apply not_elem_of_nil in H.
  - rewrite IH. destruct (decide (name ≠ current /\ name ∈ names)) as [H|H].
    + rewrite !bool_decide_eq_true_2; [reflexivity| |assumption].
      destruct H. split; [assumption|]. now apply elem_of_cons; right.
    + rewrite (bool_decide_eq_false_2 _ H).
      destruct (decide (k = name)) as [->|Hk].
      * destruct (decide (name = current)) as [->|Hc].
        -- rewrite (bool_decide_eq_false_2 (current ≠ current)) by tauto.
           rewrite bool_decide_eq_false_2; [reflexivity|]. tauto.
        -- rewrite (bool_decide_eq_true_2 (name ≠ current)) by assumption.
           rewrite lookup_delete_eq, bool_decide_eq_true_2; [reflexivity|].
           split; [assumption|]. apply elem_of_cons. now left.
      * assert (Hlookup : (if bool_decide (k ≠ current)
                           then delete k caches else caches) !! name = caches !! name).
        { destruct (bool_decide _); [|reflexivity]. now rewrite lookup_delete_ne. }
        rewrite Hlookup. rewrite bool_decide_eq_false_2; [reflexivity|].
        intros [Hc Hin]. apply elem_of_cons in Hin as [->|Hin]; tauto.
Qed.

Lemma elem_of_caches_keys name caches :
  name ∈ caches_keys caches <-> is_Some (caches !! name).
Proof.
  unfold caches_keys. rewrite list_elem_of_fmap. split.
  - intros ([k c] & -> & H). apply elem_of_map_to_list in H. cbn. eauto.
  - intros [c H]. exists (name, c). split; [reflexivity|].
    now apply elem_of_map_to_list.
Qed.

Lemma activate_listener_lookup current caches name :
  activate_listener current caches !! name
  = if decide (name = current) then caches !! name else None.
Proof.
  unfold activate_listener. rewrite foldl_delete_lookup.
  destruct (decide (name = current)) as [->|Hne].
  - rewrite bool_decide_eq_false_2; [reflexivity|]. tauto.
  - destruct (caches !! name) as [c|] eqn:E.
    + rewrite bool_decide_eq_true_2; [reflexivity|]. split; [assumption|].
      apply elem_of_caches_keys. eauto.
    + now destruct (bool_decide _).
Qed.

(** C10.  Activate: a region is there afterwards exactly when it was
    there before and its name is the current one, and then with the same
    content; this holds for every current name, for [CACHE_NAME], and
    with the regions v1 and v2-current only v1 is deleted. *)
Theorem activate_deletes_stale :
  (forall current caches name,
      activate_listener current caches !! name
      = if decide (name = current) then caches !! name else None) /\
  (forall caches name,
      activate caches !! name
      = if decide (name = CACHE_NAME) then caches !! name else None) /\
  (forall (v1 v2 : gmap string Response),
      activate_listener "v2-current" (<["v1" := v1]> (<["v2-current" := v2]> ∅))
      = <["v2-current" := v2]> ∅).
Proof.
  split; [exact activate_listener_lookup|]. split.
  - intros. apply activate_listener_lookup.
  - intros v1 v2. apply map_eq. intros name.
    rewrite activate_listener_lookup.
    destruct (decide (name = "v2-current")) as [->|Hne].
    + now rewrite lookup_insert_ne.
    + rewrite lookup_insert_ne by congruence. now rewrite lookup_empty.
Qed.
End ServiceWorker_facts.

Section ServiceWorker_install.
Import ServiceWorker.
Implicit Types (caches : CacheStorage) (urls : list string).

Lemma fetch_entries_Some net urls entries :
  fetch_entries net urls = Some entries ->
  List.map fst entries = urls /\
  forall u r, In (u, r) entries -> net u = Some r.
Proof.
  revert entries. induction urls as [|u urls IH]; intros entries; cbn [fetch_entries].
  - intros [= <-]. split; [reflexivity | intros ? ? []].
  - unfold fetch_entry at 1. destruct (net u) as [r|] eqn:E; [|discriminate].
    destruct (ok r); [|discriminate].
    destruct (fetch_entries net urls) as [es|]; [|discriminate].
    intros [= <-]. destruct (IH es eq_refl) as [Hkeys Hnet]. split.
    + cbn. now rewrite Hkeys.
    + intros u' r' [[= <- <-]|Hin]; [exact E | now apply Hnet].
Qed.

Lemma fetch_entries_all_ok net urls :
  (forall u, In u urls -> exists r, net u = Some r /\ ok r = true) ->
  exists entries, fetch_entries net urls = Some entries.
Proof.
  induction urls as [|u urls IH]; intros Hok; cbn [fetch_entries]; [eauto|].
  destruct (Hok u (or_introl eq_refl)) as (r & Hr & Hokr).
  destruct IH as (es & ->); [intros; apply Hok; now right|].
  unfold fetch_entry. rewrite Hr, Hokr. eauto.
Qed.

Lemma put_entries_other entries : forall (c : gmap string Response) u,
  ~ In u (List.map fst entries) -> put_entries entries c !! u = c !! u.
Proof.
  induction entries as [|[k r] es IH]; intros c u Hu; [reflexivity|].
  cbn [put_entries foldl fst snd]. cbn [List.map In fst] in Hu.
  change (foldl _ ?c0 es) with (put_entries es c0).
  rewrite IH by tauto. apply lookup_insert_ne. tauto.
Qed.

Lemma put_entries_lookup entries : forall (c : gmap string Response) u r,
  NoDup (List.map fst entries) -> In (u, r) entries ->
  put_entries entries c !! u = Some r.
Proof.
  induction entries as [|[k r0] es IH]; intros c u r Hnd Hin; [destruct Hin|].
  cbn [List.map fst] in Hnd. apply NoDup_cons in Hnd as [Hk Hnd].
  cbn [put_entries foldl fst snd].
  change (foldl _ ?c0 es) with (put_entries es c0).
  destruct Hin as [[= -> ->]|Hin].
  - rewrite put_entries_other; [apply lookup_insert_eq|].
    intros H. apply Hk. now apply list_elem_of_In.
  - now apply IH.
Qed.

(** When every URL of the list is fetched, the region holds a response
    for each of them. *)
Lemma install_populates net name urls caches :
  NoDup urls ->
  (forall u, In u urls -> exists r, net u = Some r /\ ok r = true) ->
  exists caches',
    install_listener net name urls caches = (Fulfilled, caches') /\
    forall u, In u urls -> caches' !! name ≫= (.!! u) = net u.
Proof.
  intros Hnd Hok.
  destruct (fetch_entries_all_ok net urls Hok) as (entries & Hentries).
  destruct (fetch_entries_Some net urls entries Hentries) as [Hkeys Hnet].
  unfold install_listener, cache_addAll. rewrite Hentries.
  rewrite bool_decide_eq_true_2 by exact Hnd.
  eexists. split; [reflexivity|]. intros u Hu.
  rewrite lookup_alter_eq, caches_open_lookup. cbn.
  assert (Hin : exists r, In (u, r) entries).
  { rewrite <- Hkeys in Hu. apply in_map_iff in Hu as ([u' r] & <- & Hin). eauto. }
  destruct Hin as (r & Hin). rewrite (Hnet u r Hin).
  apply put_entries_lookup; [now rewrite Hkeys | exact Hin].
Qed.
End ServiceWorker_install.

(** ** The requests an operation sends *)

Section Requests.
Context {Server : Type} (P : Request -> Prop).
Local Abbreviation M := (@M Server).

Lemma sends_only_silent {A} (m : M A) :
  (forall w, requests (snd (m w)) = requests w) -> sends_only P m.
Proof.
  intros H w. exists []. rewrite H, app_nil_r. split; [reflexivity | constructor].
Qed.

Lemma sends_only_ret {A} (a : A) : sends_only P (ret (Server := Server) a).
Proof. now apply sends_only_silent. Qed.

Lemma sends_only_throw {A} e : sends_only P (throw (Server := Server) (A := A) e).
Proof. now apply sends_only_silent. Qed.

Lemma sends_only_bind {A B} (m : M A) (f : A -> M B) :
  sends_only P m -> (forall a, sends_only P (f a)) -> sends_only P (bind m f).
Proof.
  intros Hm Hf w. unfold bind. destruct (Hm w) as (new1 & E1 & F1).
  destruct (m w) as [[a|e] w1]; cbn [snd] in *.
  - destruct (Hf a w1) as (new2 & E2 & F2).
    exists (new1 ++ new2). rewrite E2, E1, app_assoc. split; [reflexivity|].
    now apply Forall_app.
  - now exists new1.
Qed.

Lemma sends_only_try_catch {A} (m : M A) (h : exn -> M A) :
  sends_only P m -> (forall e, sends_only P (h e)) -> sends_only P (try_catch m h).
Proof.
  intros Hm Hh w. unfold try_catch. destruct (Hm w) as (new1 & E1 & F1).
  destruct (m w) as [[a|e] w1]; cbn [snd] in *.
  - now exists new1.
  - destruct (Hh e w1) as (new2 & E2 & F2).
    exists (new1 ++ new2). rewrite E2, E1, app_assoc. split; [reflexivity|].
    now apply Forall_app.
Qed.

Lemma sends_only_fetch req : P req -> sends_only P (fetch (Server := Server) req).
Proof.
  intros Hreq w. exists [req]. unfold fetch.
  destruct (network w req (server w)) as [[response|] s']; cbn;
    (split; [reflexivity | now repeat constructor]).
Qed.

Lemma sends_only_mapM {A B} (f : A -> M B) l :
  (forall a, sends_only P (f a)) -> sends_only P (mapM f l).
Proof.
  intros Hf. induction l as [|a l IH]; cbn [mapM]; [apply sends_only_ret|].
  apply sends_only_bind; [apply Hf|]. intros b.
  apply sends_only_bind; [apply IH|]. intros bs. apply sends_only_ret.
Qed.

Lemma sends_only_or_TypeError {A} (o : option A) :
  sends_only P (or_TypeError (Server := Server) o).
Proof. destruct o; [apply sends_only_ret | apply sends_only_throw]. Qed.

Lemma sends_only_JSON_parse t : sends_only P (JSON_parse (Server := Server) t).
Proof.
  unfold JSON_parse. destruct (JSON.parse t); [apply sends_only_ret | apply sends_only_throw].
Qed.

Lemma sends_only_removeChild h : sends_only P (removeChild (Server := Server) h).
Proof.
  apply sends_only_silent. intros w. unfold removeChild.
  now destruct (existsb _ _).
Qed.

End Requests.

Ltac sends_only_step :=
  first
    [ apply sends_only_ret
    | apply sends_only_throw
    | apply sends_only_or_TypeError
    | apply sends_only_JSON_parse
    | apply sends_only_removeChild
    | apply sends_only_fetch; cbn; congruence
    | apply sends_only_silent; reflexivity
    | apply sends_only_mapM; intros ?
    | apply sends_only_bind; [|intros ?]
    | apply sends_only_try_catch; [|intros ?]
    | match goal with
      | |- sends_only _ (if ?c then _ else _) => destruct c
      | |- sends_only _ (match ?o with _ => _ end) => destruct o
      end ].

Ltac sends_only_auto := repeat sends_only_step.

Section NoDelete.
Context {Server : Type}.
Local Abbreviation M := (@M Server).
Local Abbreviation no_DELETE := (fun r : Request => method r <> DELETE).

Lemma getFromLocalStorage_sends key :
  sends_only no_DELETE (app.getFromLocalStorage (Server := Server) key).
Proof. unfold app.getFromLocalStorage. sends_only_auto. Qed.

Lemma addNoteToUI_sends note :
  sends_only no_DELETE (app.addNoteToUI (Server := Server) note).
Proof. unfold app.addNoteToUI. sends_only_auto. Qed.

(** The sync policy never sends a DELETE request: [NoteKeeper.delete] is
    not called by any operation. *)
Lemma sync_policy_sends_no_DELETE :
  sends_only no_DELETE (app.loadNotes (Server := Server)) /\
  (forall noteContent,
      sends_only no_DELETE (app.handleCreateNote (Server := Server) noteContent)) /\
  (forall note,
      sends_only no_DELETE (app.handleUpdateNote (Server := Server) note)) /\
  (forall noteId noteElement,
      sends_only no_DELETE (app.handleDeleteNote (Server := Server) noteId noteElement)).
Proof.
  repeat split; intros.
  - unfold app.loadNotes, NoteKeeper.getAll, json, array_forEach.
    apply sends_only_bind; [apply getFromLocalStorage_sends|]. intros savedNotes.
    sends_only_auto; apply addNoteToUI_sends.
  - unfold app.handleCreateNote, NoteKeeper.create, NoteKeeper.request, json, array_push.
    apply sends_only_try_catch; [|intros e; sends_only_auto].
    apply sends_only_bind; [apply getFromLocalStorage_sends|]. intros savedNotes.
    sends_only_auto; apply addNoteToUI_sends.
  - unfold app.handleUpdateNote, NoteKeeper.update, NoteKeeper.request, array_map.
    apply sends_only_try_catch; [|intros e; sends_only_auto].
    apply sends_only_bind; [apply getFromLocalStorage_sends|]. intros savedNotes.
    sends_only_auto.
  - unfold app.handleDeleteNote, array_filter.
    apply sends_only_try_catch; [|intros e; sends_only_auto].
    apply sends_only_bind; [apply getFromLocalStorage_sends|]. intros savedNotes.
    sends_only_auto.
Qed.
End NoDelete.

(* ===================================================================== *)
(** ** The statements of the specification about the sync policy *)
(* ===================================================================== *)

Section Claims.
Context {Server : Type}.
Implicit Types (w : World Server) (l : list Note).

(** C2, amended.  Update, online, confirmed by the remote, of a note [n]
    whose id occurs in the snapshot: the new snapshot has the length and
    the order of the old one; at every position a note that has the id
    of [n] is replaced by [n] and any other note is kept as it is.  When
    the ids of the snapshot are pairwise distinct, exactly one note is
    replaced: the new snapshot is the old one with [n] at the one index
    whose note has the id of [n]. *)
Theorem handleUpdateNote_online_success w l (n : Note) response s' :
  onLine w = true ->
  snapshot_is w l ->
  In (id n) (List.map id l) ->
  network w (update_request (note_value n)) (server w) = (Some response, s') ->
  ok response = true ->
  exists w' l',
    app.handleUpdateNote (note_value n) w = (Returns tt, w') /\
    snapshot_is w' l' /\
    length l' = length l /\
    (forall j other,
        l !! j = Some other ->
        l' !! j = Some (if (id other =? id n)%Z then n else other)) /\
    (NoDup (List.map id l) ->
     exists i old,
       l !! i = Some old /\ id old = id n /\
       (forall j other, l !! j = Some other -> id other = id n -> j = i) /\
       l' = <[i := n]> l).
Proof.
  intros Hon Hsnap Hin Hnet Hok.
  destruct (handleUpdateNote_confirmed w l n response s' Hon Hsnap Hnet Hok)
    as (w' & Hrun & Hsnap').
  exists w', (replace_note n l).
  split; [exact Hrun|]. split; [exact Hsnap'|]. split; [|split].
  - unfold replace_note. apply List.length_map.
  - intros j other Hj. now apply replace_note_lookup.
  - intros Hnd.
    destruct (replace_note_unique n l Hnd Hin) as (i & old & Hi & Hid & Hrep & Huniq).
    exists i, old. auto.
Qed.

(** C4.  Delete while online removes the id from the snapshot, whatever
    the service would answer: no request is sent.  With the notes 1, 2
    and 3 in the snapshot, deleting 1 and then 3 leaves the note 2. *)
Theorem handleDeleteNote_online_unconditional :
  (forall w l (i : Z) (noteElement : option nat),
      onLine w = true ->
      snapshot_is w l ->
      exists w',
        app.handleDeleteNote (VNumber i 0) noteElement w = (Returns tt, w') /\
        snapshot_is w' (remove_note i l) /\
        requests w' = requests w) /\
  (forall w (n1 n2 n3 : Note) (e1 e3 : option nat),
      id n1 = 1%Z -> id n2 = 2%Z -> id n3 = 3%Z ->
      onLine w = true ->
      snapshot_is w [n1; n2; n3] ->
      exists w1 w2,
        app.handleDeleteNote (VNumber 1 0) e1 w = (Returns tt, w1) /\
        app.handleDeleteNote (VNumber 3 0) e3 w1 = (Returns tt, w2) /\
        snapshot_is w2 [n2]).
Proof.
  split.
  - intros w l i noteElement Hon Hsnap.
    destruct (handleDeleteNote_online w l i noteElement Hon Hsnap)
      as (w' & Hrun & Hsnap' & _ & Hreq & _).
    eauto.
  - intros w n1 n2 n3 e1 e3 H1 H2 H3 Hon Hsnap.
    destruct (handleDeleteNote_online w _ 1 e1 Hon Hsnap)
      as (w1 & Hrun1 & Hsnap1 & Hon1 & _).
    destruct (handleDeleteNote_online w1 _ 3 e3 Hon1 Hsnap1)
      as (w2 & Hrun2 & Hsnap2 & _).
    exists w1, w2. repeat split; [assumption..|].
    assert (E : remove_note 3 (remove_note 1 [n1; n2; n3]) = [n2]).
    { unfold remove_note. cbn [List.filter]. rewrite H1, H2, H3.
      cbn [Z.eqb Pos.eqb negb List.filter]. rewrite H2, H3. reflexivity. }
    now rewrite E in Hsnap2.
Qed.

(** C5, as amended.  [getFromLocalStorage(key)] returns the empty array
    when the item is absent; when the stored text is not JSON it throws
    a SyntaxError.  The storage is not touched. *)
Theorem getFromLocalStorage_absent_or_corrupt w (key : string) :
  (localStorage w !! key = None ->
   app.getFromLocalStorage key w = (Returns (VArray []), w)) /\
  (forall t, localStorage w !! key = Some t -> JSON.parse t = None ->
             app.getFromLocalStorage key w = (Throws SyntaxError, w)).
Proof.
  split.
  - intros Habsent. rewrite getFromLocalStorage_eq. unfold stored_value.
    now rewrite Habsent.
  - intros t Ht Hcorrupt. rewrite getFromLocalStorage_eq. unfold stored_value.
    now rewrite Ht, Hcorrupt.
Qed.

(** C8.  [handleDeleteNote] sends no request, whatever the id, the
    element, the storage and the state of the service: the list of
    requests and the service are as before.  Online, the id is removed
    from the snapshot all the same.  No operation of the sync policy
    sends a DELETE request: [NoteKeeper.delete] is never called. *)
Theorem handleDeleteNote_remote_untouched w (noteId : value) (noteElement : option nat) :
  (exists w',
      app.handleDeleteNote noteId noteElement w = (Returns tt, w') /\
      requests w' = requests w /\
      server w' = server w) /\
  (forall l (i : Z),
      noteId = VNumber i 0 ->
      onLine w = true ->
      snapshot_is w l ->
      exists w',
        app.handleDeleteNote noteId noteElement w = (Returns tt, w') /\
        snapshot_is w' (remove_note i l) /\
        requests w' = requests w /\
        server w' = server w) /\
  (sends_only (fun r => method r <> DELETE) (app.loadNotes (Server := Server)) /\
   (forall noteContent,
       sends_only (fun r => method r <> DELETE)
                  (app.handleCreateNote (Server := Server) noteContent)) /\
   (forall note,
       sends_only (fun r => method r <> DELETE)
                  (app.handleUpdateNote (Server := Server) note)) /\
   (forall id element,
       sends_only (fun r => method r <> DELETE)
                  (app.handleDeleteNote (Server := Server) id element))).
Proof.
  split; [apply handleDeleteNote_no_request|]. split.
  - intros l i -> Hon Hsnap.
    destruct (handleDeleteNote_online w l i noteElement Hon Hsnap)
      as (w' & Hrun & Hsnap' & _ & Hreq & Hserver).
    eauto.
  - apply sync_policy_sends_no_DELETE.
Qed.
End Claims.

(** ** The statements at concrete worlds *)

(** C1.  Load, online, with the note a in the Local Store and a fetch
    that is rejected: [loadNotes] returns after logging the failure; the
    Local Store still holds the note a, and no note is rendered. *)
Theorem loadNotes_fetch_throws_renders_nothing :
  let w := browser true (Some (notes_text [note_a])) [None] in
  snapshot_is w [note_a] /\
  fst (NoteKeeper.getAll w) = Throws TypeError /\
  exists w',
    app.loadNotes w = (Returns tt, w') /\
    snapshot_is w' [note_a] /\
    rendered w' = [] /\
    logs_container w' =
      [{| operation := Text "Erreur lors du chargement des notes";
          isSuccess := false |}].
Proof.
  cbv zeta. split; [vm_compute; reflexivity|]. split; [vm_compute; reflexivity|].
  eexists. split; [vm_compute; reflexivity|].
  split; [vm_compute; reflexivity|]. split; reflexivity.
Qed.

(** C7.  Load, online, with the note a in the Local Store and a remote
    that answers with no notes: the Local Store becomes empty, and yet
    the note a of the previous snapshot is rendered. *)
Theorem loadNotes_online_empty_renders_stale :
  let w := browser true (Some (notes_text [note_a])) [Some (notes_response [])] in
  snapshot_is w [note_a] /\
  fst (NoteKeeper.getAll w) = Returns (notes_value []) /\
  exists w',
    app.loadNotes w = (Returns tt, w') /\
    snapshot_is w' [] /\
    rendered w' = [shown note_a].
Proof.
  cbv zeta. split; [vm_compute; reflexivity|]. split; [vm_compute; reflexivity|].
  eexists. split; [vm_compute; reflexivity|].
  split; [vm_compute; reflexivity|]. reflexivity.
Qed.

(** C2, as stated, fails on a snapshot in which an id occurs twice: the
    update of the note 1 replaces both notes that have the id 1, so the
    new snapshot is not the old one with one note replaced. *)
Lemma handleUpdateNote_repeated_id_counterexample :
  let l := [note_a; {| id := 1; note := str "x" |}; note_b] in
  let n := {| id := 1; note := str "A" |} in
  let w := browser true (Some (notes_text l)) [Some {| ok := true; text := [] |}] in
  onLine w = true /\
  snapshot_is w l /\
  In (id n) (List.map id l) /\
  exists w',
    app.handleUpdateNote (note_value n) w = (Returns tt, w') /\
    snapshot_is w' [n; n; note_b] /\
    forall i, [n; n; note_b] <> <[i := n]> l.
Proof.
  cbv zeta. split; [reflexivity|]. split; [vm_compute; reflexivity|].
  split; [left; reflexivity|].
  eexists. split; [vm_compute; reflexivity|]. split; [vm_compute; reflexivity|].
  intros [|[|[|i]]]; cbn; intros H; discriminate H.
Qed.

(** C5, as stated, fails: with the text not json under the key, the
    stored item is corrupt and [getFromLocalStorage] throws instead of
    returning the empty array. *)
Lemma getFromLocalStorage_corrupt_counterexample :
  let w := browser true (Some (str "not json")) [] in
  localStorage w !! "savedNotes" = Some (str "not json") /\
  JSON.parse (str "not json") = None /\
  app.getFromLocalStorage "savedNotes" w = (Throws SyntaxError, w) /\
  fst (app.getFromLocalStorage "savedNotes" w) <> Returns (VArray []).
Proof.
  cbv zeta. split; [reflexivity|]. split; [vm_compute; reflexivity|].
  split; [vm_compute; reflexivity|]. vm_compute. discriminate.
Qed.

(** ** Instances of the statements that have hypotheses *)

Lemma handleUpdateNote_online_success_witness :
  let l := [note_a; note_b; note_c] in
  let w := browser true (Some (notes_text l)) [Some {| ok := true; text := [] |}] in
  let n := {| id := 2; note := str "B" |} in
  exists w' l',
    app.handleUpdateNote (note_value n) w = (Returns tt, w') /\
    snapshot_is w' l' /\
    length l' = length l /\
    (forall j other,
        l !! j = Some other ->
        l' !! j = Some (if (id other =? id n)%Z then n else other)) /\
    (NoDup (List.map id l) ->
     exists i old,
       l !! i = Some old /\ id old = id n /\
       (forall j other, l !! j = Some other -> id other = id n -> j = i) /\
       l' = <[i := n]> l).
Proof.
  cbv zeta.
  apply (handleUpdateNote_online_success
           (browser true (Some (notes_text [note_a; note_b; note_c]))
                    [Some {| ok := true; text := [] |}])
           [note_a; note_b; note_c] {| id := 2; note := str "B" |}
           {| ok := true; text := [] |} []).
  - reflexivity.
  - vm_compute. reflexivity.
  - simpl. right. left. reflexivity.
  - vm_compute. reflexivity.
  - reflexivity.
Defined.

Lemma handleCreateNote_offline_witness :
  let w := browser false (Some (notes_text [note_a])) [] in
  onLine w = false /\
  exists w' msg,
    app.handleCreateNote (str "new") w = (Returns false, w') /\
    localStorage w' = localStorage w /\
    notes_container w' = notes_container w /\
    requests w' = requests w /\
    server w' = server w /\
    logs_container w' =
      logs_container w ++ [{| operation := msg; isSuccess := false |}] /\
    (is_Some (stored_value (localStorage w) "savedNotes") ->
     msg = Text "Impossible de créer la note").
Proof.
  cbv zeta. split; [reflexivity|].
  apply (handleCreateNote_offline
           (browser false (Some (notes_text [note_a])) []) (str "new")).
  reflexivity.
Defined.

Lemma handleDeleteNote_online_unconditional_witness :
  let w := browser true (Some (notes_text [note_a; note_b; note_c])) [] in
  (exists w',
      app.handleDeleteNote (VNumber 2 0) None w = (Returns tt, w') /\
      snapshot_is w' (remove_note 2 [note_a; note_b; note_c]) /\
      requests w' = requests w) /\
  (exists w1 w2,
      app.handleDeleteNote (VNumber 1 0) None w = (Returns tt, w1) /\
      app.handleDeleteNote (VNumber 3 0) None w1 = (Returns tt, w2) /\
      snapshot_is w2 [note_b]).
Proof.
  cbv zeta.
  destruct (@handleDeleteNote_online_unconditional (list (option Response)))
    as [Hone Hexample].
  split.
  - apply Hone; [reflexivity | vm_compute; reflexivity].
  - apply (Hexample _ note_a note_b note_c);
      [reflexivity | reflexivity | reflexivity | reflexivity
      | vm_compute; reflexivity].
Defined.

Lemma getFromLocalStorage_absent_or_corrupt_witness :
  (let w := browser true None [] in
   localStorage w !! "savedNotes" = None /\
   app.getFromLocalStorage "savedNotes" w = (Returns (VArray []), w)) /\
  (let w := browser true (Some (str "{oops")) [] in
   localStorage w !! "savedNotes" = Some (str "{oops") /\
   JSON.parse (str "{oops") = None /\
   app.getFromLocalStorage "savedNotes" w = (Throws SyntaxError, w)).
Proof.
  cbv zeta. split.
  - split; [reflexivity|].
    apply (getFromLocalStorage_absent_or_corrupt (browser true None []) "savedNotes").
    reflexivity.
  - split; [reflexivity|]. split; [vm_compute; reflexivity|].
    apply (proj2 (getFromLocalStorage_absent_or_corrupt
                    (browser true (Some (str "{oops")) []) "savedNotes")
                 (str "{oops")).
    + reflexivity.
    + vm_compute. reflexivity.
Defined.

Lemma handleUpdateNote_unconfirmed_witness :
  let refused := browser true (Some (notes_text [note_a]))
                         [Some {| ok := false; text := [] |}] in
  let rejected := browser true (Some (notes_text [note_a])) [None] in
  let offline := browser false (Some (notes_text [note_a])) [] in
  let n := note_value {| id := 1; note := str "A" |} in
  (exists w', app.handleUpdateNote n refused = (Returns tt, w') /\
              localStorage w' = localStorage refused) /\
  (exists w', app.handleUpdateNote n rejected = (Returns tt, w') /\
              localStorage w' = localStorage rejected) /\
  (exists w', app.handleUpdateNote n offline = (Returns tt, w') /\
              localStorage w' = localStorage offline).
Proof.
  cbv zeta. split; [|split].
  - apply handleUpdateNote_unconfirmed. right. right.
    exists {| ok := false; text := [] |}. split; reflexivity.
  - apply handleUpdateNote_unconfirmed. right. left. reflexivity.
  - apply handleUpdateNote_unconfirmed. left. reflexivity.
Defined.

Lemma handleDeleteNote_remote_untouched_witness :
  let w := browser true (Some (notes_text [note_a; note_b]))
                   [Some {| ok := true; text := [] |}] in
  exists w',
    app.handleDeleteNote (VNumber 1 0) None w = (Returns tt, w') /\
    snapshot_is w' (remove_note 1 [note_a; note_b]) /\
    requests w' = requests w /\
    server w' = server w.
Proof.
  cbv zeta.
  apply (proj1 (proj2 (handleDeleteNote_remote_untouched
           (browser true (Some (notes_text [note_a; note_b]))
                    [Some {| ok := true; text := [] |}])
           (VNumber 1 0) None))).
  - reflexivity.
  - reflexivity.
  - vm_compute. reflexivity.
Defined.

Lemma install_all_or_nothing_witness :
  exists caches',
    ServiceWorker.install_listener (all_but "/B") "v2" ["/A"; "/B"; "/C"] ∅
    = (ServiceWorker.Rejected, caches') /\
    caches' !! "v2" = Some (default ∅ ((∅ : gmap string (gmap string Response)) !! "v2")) /\
    ((∅ : gmap string (gmap string Response)) !! "v2" = None ->
     forall url, caches' !! "v2" ≫= (.!! url) = None) /\
    (forall other, other ≠ "v2" ->
                   caches' !! other = (∅ : gmap string (gmap string Response)) !! other).
Proof.
  apply (install_all_or_nothing (all_but "/B") "v2" ["/A"; "/B"; "/C"] ∅ "/B").
  - simpl. right. left. reflexivity.
  - left. reflexivity.
Defined.

(* ===================================================================== *)
(** * Further properties of the program *)
(* ===================================================================== *)

(** ** What an operation leaves as it is *)

Section Frames.
Context {Server : Type} {B : Type} (f : World Server -> B).
Local Abbreviation M := (@M Server).

Lemma preserves_ret {A} (a : A) : preserves f (ret (Server := Server) a).
Proof. intros w. reflexivity. Qed.

Lemma preserves_throw {A} e : preserves f (throw (Server := Server) (A := A) e).
Proof. intros w. reflexivity. Qed.

Lemma preserves_bind {A C} (m : M A) (k : A -> M C) :
  preserves f m -> (forall a, preserves f (k a)) -> preserves f (bind m k).
Proof.
  intros Hm Hk w. unfold bind. specialize (Hm w).
  destruct (m w) as [[a|e] w1]; cbn [snd] in *; [|exact Hm].
  now rewrite Hk.
Qed.

Lemma preserves_try_catch {A} (m : M A) (h : exn -> M A) :
  preserves f m -> (forall e, preserves f (h e)) -> preserves f (try_catch m h).
Proof.
  intros Hm Hh w. unfold try_catch. specialize (Hm w).
  destruct (m w) as [[a|e] w1]; cbn [snd] in *; [exact Hm|].
  now rewrite Hh.
Qed.

Lemma preserves_mapM {A C} (k : A -> M C) l :
  (forall a, preserves f (k a)) -> preserves f (mapM k l).
Proof.
  intros Hk. induction l as [|a l IH]; cbn [mapM]; [apply preserves_ret|].
  apply preserves_bind; [apply Hk|]. intros b.
  apply preserves_bind; [apply IH|]. intros bs. apply preserves_ret.
Qed.

Lemma preserves_or_TypeError {A} (o : option A) :
  preserves f (or_TypeError (Server := Server) o).
Proof. destruct o; [apply preserves_ret | apply preserves_throw]. Qed.

Lemma preserves_JSON_parse t : preserves f (JSON_parse (Server := Server) t).
Proof.
  unfold JSON_parse. destruct (JSON.parse t); [apply preserves_ret | apply preserves_throw].
Qed.
End Frames.

Ltac preserves_step :=
  first
    [ apply preserves_ret
    | apply preserves_throw
    | apply preserves_or_TypeError
    | apply preserves_JSON_parse
    | (intros ?; reflexivity)
    | apply preserves_mapM; intros ?
    | apply preserves_bind; [|intros ?]
    | apply preserves_try_catch; [|intros ?]
    | match goal with
      | |- preserves _ (if ?c then _ else _) => destruct c
      | |- preserves _ (match ?o with _ => _ end) => destruct o
      end ].

Ltac preserves_auto := repeat preserves_step.

Section Frames_app.
Context {Server : Type}.
Local Abbreviation M := (@M Server).

Lemma removeChild_frame h (w : World Server) :
  localStorage (snd (removeChild h w)) = localStorage w /\
  logs_container (snd (removeChild h w)) = logs_container w /\
  onLine (snd (removeChild h w)) = onLine w.
Proof. unfold removeChild. now destruct (existsb _ _). Qed.

(** The Remote Client reads and writes nothing but the service and the
    list of requests. *)
Lemma fetch_only_remote req (w : World Server) :
  exists r s rs, fetch req w = (r, set_remote s rs w).
Proof.
  unfold fetch. destruct (network w req (server w)) as [[response|] s']; eauto.
Qed.

Lemma create_only_remote note (w : World Server) :
  exists r s rs, NoteKeeper.create note w = (r, set_remote s rs w).
Proof.
  unfold NoteKeeper.create, bind at 1, fetch.
  destruct (network w _ (server w)) as [[response|] s']; [|eauto].
  unfold bind, json, JSON_parse.
  destruct (JSON.parse (text response)) as [data|]; [|cbn; eauto].
  cbn [ret]. destruct (get_prop data (str "note")); cbn; eauto.
Qed.

Lemma update_only_remote notes (w : World Server) :
  exists r s rs, NoteKeeper.update notes w = (r, set_remote s rs w).
Proof.
  unfold NoteKeeper.update, bind at 1, fetch.
  destruct (network w _ (server w)) as [[response|] s']; cbn; eauto.
Qed.

Lemma addNoteToUI_keeps_storage note :
  preserves localStorage (app.addNoteToUI (Server := Server) note).
Proof. unfold app.addNoteToUI. preserves_auto. Qed.

Lemma addNoteToUI_keeps_logs note :
  preserves logs_container (app.addNoteToUI (Server := Server) note).
Proof. unfold app.addNoteToUI. preserves_auto. Qed.

Lemma getFromLocalStorage_unchanged key (w : World Server) :
  snd (app.getFromLocalStorage key w) = w.
Proof. rewrite getFromLocalStorage_eq. now destruct (stored_value _ _). Qed.
End Frames_app.

Section Frames_more.
Context {Server : Type} {B : Type} (f : World Server -> B).

Lemma preserves_fetch req :
  (forall s rs w, f (set_remote s rs w) = f w) ->
  preserves f (fetch (Server := Server) req).
Proof.
  intros Hf w. unfold fetch.
  destruct (network w req (server w)) as [[response|] s']; apply Hf.
Qed.

Lemma preserves_removeChild h :
  (forall c w, f (set_notes_container c w) = f w) ->
  preserves f (removeChild (Server := Server) h).
Proof.
  intros Hf w. unfold removeChild. destruct (existsb _ _); [apply Hf | reflexivity].
Qed.
End Frames_more.

Ltac preserves_all :=
  repeat first
    [ preserves_step
    | apply preserves_fetch; reflexivity
    | apply preserves_removeChild; reflexivity ].

(** ** Create *)

Section Create.
Context {Server : Type}.
Implicit Types (w : World Server) (l : list Note).

Lemma handleCreateNote_created w l content (n : Note) w1 :
  onLine w = true ->
  snapshot_is w l ->
  NoteKeeper.create (VString content) w = (Returns (note_value n), w1) ->
  exists w',
    app.handleCreateNote content w = (Returns true, w') /\
    snapshot_is w' (l ++ [n]) /\
    notes_container w' =
      notes_container w ++ [note_element (elements_created w) n] /\
    onLine w' = true /\
    logs_container w' =
      logs_container w ++ [{| operation := Text "Création d'une note";
                              isSuccess := true |}].
Proof.
  intros Hon Hsnap Hcreate.
  destruct (create_only_remote (VString content) w) as (r & s & rs & Hw1).
  rewrite Hcreate in Hw1. injection Hw1 as <- ->.
  unfold app.handleCreateNote, try_catch, bind at 1.
  rewrite Hsnap. unfold bind at 1, app.isOnline. rewrite Hon. cbn [negb].
  unfold bind at 1, bind at 1. rewrite Hcreate.
  change (truthy (note_value n)) with true. cbn [negb ret].
  unfold bind at 1, notes_value, array_push. cbn [ret].
  replace (VArray (List.map note_value l ++ [note_value n]))
    with (notes_value (l ++ [n]))
    by (unfold notes_value; now rewrite List.map_app).
  unfold bind at 1. rewrite setInLocalStorage_notes.
  unfold bind at 1. rewrite addNoteToUI_note.
  eexists. split; [reflexivity|]. split; [|split; [|split]].
  - apply snapshot_is_stored. cbn. apply stored_value_insert_notes.
  - reflexivity.
  - exact Hon.
  - reflexivity.
Qed.

(** X7.  Online, when NoteKeeper.create throws or returns a falsy value
    (no note in the answer), handleCreateNote returns false and leaves the
    local storage and the page as they were. *)
Lemma handleCreateNote_not_created w content r w1 :
  onLine w = true ->
  NoteKeeper.create (VString content) w = (r, w1) ->
  match r with Returns newNote => truthy newNote = false | Throws _ => True end ->
  exists w',
    app.handleCreateNote content w = (Returns false, w') /\
    localStorage w' = localStorage w /\
    notes_container w' = notes_container w.
Proof.
  intros Hon Hcreate Hr.
  destruct (create_only_remote (VString content) w) as (r' & s & rs & Hw1).
  rewrite Hcreate in Hw1. injection Hw1 as <- ->.
  unfold app.handleCreateNote, try_catch, bind at 1.
  rewrite getFromLocalStorage_eq.
  destruct (stored_value _ _) as [savedNotes|]; [|cbn; eauto].
  unfold bind at 1, app.isOnline. rewrite Hon. cbn [negb].
  unfold bind at 1, bind at 1. rewrite Hcreate.
  destruct r as [newNote|e]; [rewrite Hr|]; cbn; eauto.
Qed.
End Create.

(** ** The operation log *)

Section Log.
Context {Server : Type}.
Local Abbreviation M := (@M Server).
Implicit Types (w : World Server).

Lemma logs_on_return_bind {A C} op (c : C) (m : M A) (k : A -> M C) :
  preserves logs_container m ->
  (forall a, logs_on_return op c (k a)) ->
  logs_on_return op c (bind m k).
Proof.
  intros Hm Hk w. unfold bind. specialize (Hm w).
  destruct (m w) as [[a|e] w1]; cbn [snd] in Hm; [|exact Hm].
  specialize (Hk a w1). destruct (k a w1) as [[x|e] w2]; now rewrite <- Hm.
Qed.

Lemma logs_on_return_logOperation op :
  logs_on_return op tt (app.logOperation (Server := Server) op true).
Proof. intros w. cbn. now split. Qed.

Lemma logs_on_return_logOperation_ret {C} op (c : C) :
  logs_on_return op c (do app.logOperation (Server := Server) op true ; ret c).
Proof. intros w. cbn. now split. Qed.

(** A body that logs its success, inside a [try] whose [catch] logs the
    failure: the operation returns and the log has one more entry. *)
Lemma try_catch_logs_once {C} op (c c' : C) (body : M C) (h : exn -> M C) w :
  logs_on_return op c body ->
  (forall e w0,
      h e w0 = (Returns c',
                set_logs_container
                  (logs_container w0 ++
                     [{| operation := message_of e; isSuccess := false |}]) w0)) ->
  exists w' entry,
    try_catch body h w = (Returns (if isSuccess entry then c else c'), w') /\
    logs_container w' = logs_container w ++ [entry].
Proof.
  intros Hbody Hh. unfold try_catch. specialize (Hbody w).
  destruct (body w) as [[x|e] w1].
  - destruct Hbody as [-> Hlog].
    exists w1, {| operation := op; isSuccess := true |}. now split.
  - rewrite Hh. eexists _, {| operation := message_of e; isSuccess := false |}.
    cbn. split; [reflexivity|]. now rewrite Hbody.
Qed.

Lemma handleCreateNote_body_logs noteContent :
  logs_on_return (Text "Création d'une note") true
    (let* savedNotes := app.getFromLocalStorage (Server := Server) "savedNotes" in
     let* online := app.isOnline in
     let* newNote :=
       if negb online
       then throw (Error "Impossible de créer la note")
       else
         let* newNote := NoteKeeper.create (VString noteContent) in
         if negb (truthy newNote)
         then throw (Error "Erreur lors de la création de la note.")
         else ret newNote in
     let* savedNotes := array_push savedNotes newNote in
     do app.setInLocalStorage "savedNotes" savedNotes ;
     do app.addNoteToUI newNote ;
     do app.logOperation (Text "Création d'une note") true ;
     ret true).
Proof.
  unfold app.getFromLocalStorage, NoteKeeper.create, json, array_push, app.addNoteToUI.
  repeat (apply logs_on_return_bind; [solve [preserves_all] | intros ?]).
  apply logs_on_return_logOperation_ret.
Qed.

Lemma handleUpdateNote_body_logs note :
  logs_on_return (Text "Mise à jour d'une note") tt
    (let* savedNotes := app.getFromLocalStorage (Server := Server) "savedNotes" in
     let* online := app.isOnline in
     let* notes :=
       if negb online
       then throw (Error "Impossible de mettre à jour la note hors ligne.")
       else
         let* confirmed := NoteKeeper.update [note] in
         if negb confirmed
         then throw (Error "Erreur lors de la mise à jour de la note.")
         else
           array_map
             (fun savedNote =>
                let* saved_id := or_TypeError (get_prop savedNote (str "id")) in
                let* note_id := or_TypeError (get_prop note (str "id")) in
                ret (if strict_equal saved_id note_id then note else savedNote))
             savedNotes in
     do app.setInLocalStorage "savedNotes" notes ;
     app.logOperation (Text "Mise à jour d'une note") true).
Proof.
  unfold app.getFromLocalStorage, NoteKeeper.update, array_map.
  repeat (apply logs_on_return_bind; [solve [preserves_all] | intros ?]).
  apply logs_on_return_logOperation.
Qed.

Lemma handleDeleteNote_body_logs noteId noteElement :
  logs_on_return (Text "Suppression d'une note") tt
    (let* savedNotes := app.getFromLocalStorage (Server := Server) "savedNotes" in
     let* online := app.isOnline in
     do (if negb online
         then throw (Error "Impossible de supprimer la note hors ligne.")
         else ret tt) ;
     let* notes :=
       array_filter
         (fun n =>
            let* n_id := or_TypeError (get_prop n (str "id")) in
            ret (negb (strict_equal n_id noteId)))
         savedNotes in
     do app.setInLocalStorage "savedNotes" notes ;
     do (match noteElement with
         | Some element => removeChild element
         | None => ret tt
         end) ;
     app.logOperation (Text "Suppression d'une note") true).
Proof.
  unfold app.getFromLocalStorage, array_filter.
  repeat (apply logs_on_return_bind; [solve [preserves_all] | intros ?]).
  apply logs_on_return_logOperation.
Qed.

Lemma handleCreateNote_logs_once noteContent w :
  exists w' entry,
    app.handleCreateNote noteContent w = (Returns (isSuccess entry), w') /\
    logs_container w' = logs_container w ++ [entry].
Proof.
  destruct (try_catch_logs_once _ true false _ _ w
              (handleCreateNote_body_logs noteContent) (fun _ _ => eq_refl))
    as (w' & entry & Hrun & Hlog).
  exists w', entry. split; [|exact Hlog].
  destruct entry as [o [|]]; exact Hrun.
Qed.

(** X5.  In every state each of handleCreateNote, handleUpdateNote and
    handleDeleteNote returns and never throws, and adds exactly one entry
    to the operation log; handleCreateNote returns true exactly when that
    entry is a success entry. *)
Theorem handlers_return_and_log_once w :
  (forall noteContent, exists w' entry,
      app.handleCreateNote noteContent w = (Returns (isSuccess entry), w') /\
      logs_container w' = logs_container w ++ [entry]) /\
  (forall note, exists w' entry,
      app.handleUpdateNote note w = (Returns tt, w') /\
      logs_container w' = logs_container w ++ [entry]) /\
  (forall noteId noteElement, exists w' entry,
      app.handleDeleteNote noteId noteElement w = (Returns tt, w') /\
      logs_container w' = logs_container w ++ [entry]).
Proof.
  split; [|split].
  - intros noteContent. apply handleCreateNote_logs_once.
  - intros note.
    destruct (try_catch_logs_once _ tt tt _ _ w
                (handleUpdateNote_body_logs note) (fun _ _ => eq_refl))
      as (w' & entry & Hrun & Hlog).
    exists w', entry. split; [|exact Hlog].
    destruct entry as [o [|]]; exact Hrun.
  - intros noteId noteElement.
    destruct (try_catch_logs_once _ tt tt _ _ w
                (handleDeleteNote_body_logs noteId noteElement) (fun _ _ => eq_refl))
      as (w' & entry & Hrun & Hlog).
    exists w', entry. split; [|exact Hlog].
    destruct entry as [o [|]]; exact Hrun.
Qed.
End Log.

(** ** Offline, and a storage that cannot be read *)

Section Offline.
Context {Server : Type}.
Implicit Types (w : World Server) (l : list Note).

(** X12.  Offline, with a readable storage, handleDeleteNote returns in
    the state it started from with one entry more in the log, the failure
    [Impossible de supprimer la note hors ligne.]: the snapshot is kept
    and the element is not removed. *)
Theorem handleDeleteNote_offline w noteId noteElement :
  onLine w = false ->
  is_Some (stored_value (localStorage w) "savedNotes") ->
  app.handleDeleteNote noteId noteElement w =
  (Returns tt, failed (Text "Impossible de supprimer la note hors ligne.") w).
Proof.
  intros Hoff [saved Hsaved]. unfold app.handleDeleteNote, try_catch, bind.
  rewrite getFromLocalStorage_eq, Hsaved. unfold app.isOnline. now rewrite Hoff.
Qed.

(** X3.  When the text stored under savedNotes is not JSON, loadNotes
    throws a SyntaxError and changes nothing, and each of
    handleCreateNote, handleUpdateNote and handleDeleteNote returns
    (handleCreateNote with false) in the state it started from with one
    failure entry more in the log, carrying the engine's message: no
    request, no write, no change of the page, so the stored text stays as
    it is. *)
Theorem corrupt_storage w t :
  localStorage w !! "savedNotes" = Some t ->
  JSON.parse t = None ->
  app.loadNotes w = (Throws SyntaxError, w) /\
  (forall noteContent,
      app.handleCreateNote noteContent w =
      (Returns false, failed (EngineMessage SyntaxError) w)) /\
  (forall note,
      app.handleUpdateNote note w =
      (Returns tt, failed (EngineMessage SyntaxError) w)) /\
  (forall noteId noteElement,
      app.handleDeleteNote noteId noteElement w =
      (Returns tt, failed (EngineMessage SyntaxError) w)).
Proof.
  intros Ht Hcorrupt.
  assert (Hsaved : stored_value (localStorage w) "savedNotes" = None).
  { unfold stored_value. now rewrite Ht, Hcorrupt. }
  repeat split; intros.
  - unfold app.loadNotes, bind. now rewrite getFromLocalStorage_eq, Hsaved.
  - unfold app.handleCreateNote, try_catch, bind.
    now rewrite getFromLocalStorage_eq, Hsaved.
  - unfold app.handleUpdateNote, try_catch, bind.
    now rewrite getFromLocalStorage_eq, Hsaved.
  - unfold app.handleDeleteNote, try_catch, bind.
    now rewrite getFromLocalStorage_eq, Hsaved.
Qed.
End Offline.

(** ** Update and delete on the sequence of notes *)

Lemma replace_note_ids n l : List.map id (replace_note n l) = List.map id l.
Proof.
  induction l as [|a l IH]; [reflexivity|].
  cbn [replace_note List.map]. fold (replace_note n l). rewrite IH. f_equal.
  destruct (Z.eqb_spec (id a) (id n)); congruence.
Qed.

Lemma replace_note_absent n l :
  ~ In (id n) (List.map id l) -> replace_note n l = l.
Proof.
  induction l as [|a l IH]; intros Hn; [reflexivity|].
  cbn [replace_note List.map]. fold (replace_note n l).
  cbn [List.map In] in Hn.
  destruct (Z.eqb_spec (id a) (id n)); [tauto|]. f_equal. apply IH. tauto.
Qed.

Lemma remove_note_remove_note i j l :
  remove_note j (remove_note i l)
  = List.filter (fun x => negb (id x =? i)%Z && negb (id x =? j)%Z) l.
Proof.
  induction l as [|a l IH]; [reflexivity|].
  cbn [remove_note List.filter]. fold (remove_note i l).
  destruct (id a =? i)%Z; cbn [negb andb]; [exact IH|].
  cbn [remove_note List.filter]. fold (remove_note j (remove_note i l)).
  rewrite IH. reflexivity.
Qed.

Lemma remove_note_idempotent i l : remove_note i (remove_note i l) = remove_note i l.
Proof.
  rewrite remove_note_remove_note. unfold remove_note.
  apply List.filter_ext. intros a. now destruct (negb _).
Qed.

Lemma remove_note_commute i j l :
  remove_note j (remove_note i l) = remove_note i (remove_note j l).
Proof.
  rewrite !remove_note_remove_note. apply List.filter_ext. intros a.
  apply andb_comm.
Qed.

Lemma remove_note_In i l x : In x (remove_note i l) <-> In x l /\ id x <> i.
Proof.
  unfold remove_note. rewrite filter_In, negb_true_iff, Z.eqb_neq. tauto.
Qed.

Section Sequences.
Context {Server : Type}.
Implicit Types (w : World Server) (l : list Note).

(** X9.  A confirmed update, with no assumption on the ids of the
    snapshot: handleUpdateNote returns, the new snapshot has the same ids
    at the same positions, at every position a note with the id of the
    argument is replaced by the argument and any other note is kept; when
    no saved note has that id the snapshot is unchanged. *)
Theorem handleUpdateNote_keeps_ids w l (n : Note) response s' :
  onLine w = true ->
  snapshot_is w l ->
  network w (update_request (note_value n)) (server w) = (Some response, s') ->
  ok response = true ->
  exists w' l',
    app.handleUpdateNote (note_value n) w = (Returns tt, w') /\
    snapshot_is w' l' /\
    List.map id l' = List.map id l /\
    (forall i old, l !! i = Some old ->
                   l' !! i = Some (if (id old =? id n)%Z then n else old)) /\
    (~ In (id n) (List.map id l) -> l' = l).
Proof.
  intros Hon Hsnap Hnet Hok.
  destruct (handleUpdateNote_confirmed w l n response s' Hon Hsnap Hnet Hok)
    as (w' & Hrun & Hsnap').
  exists w', (replace_note n l). repeat split; [assumption..| | |].
  - apply replace_note_ids.
  - intros i old. apply replace_note_lookup.
  - apply replace_note_absent.
Qed.

(** X13.  Online, two deletions commute: deleting i then j and deleting j
    then i both return and leave the same snapshot, whose notes are those
    of the old one with an id other than i and j; when i = j the second
    deletion changes nothing in the snapshot. *)
Theorem handleDeleteNote_twice w l (i j : Z) (e1 e2 : option nat) :
  onLine w = true ->
  snapshot_is w l ->
  exists w1 w2 w3 w4 l',
    app.handleDeleteNote (VNumber i 0) e1 w = (Returns tt, w1) /\
    app.handleDeleteNote (VNumber j 0) e2 w1 = (Returns tt, w2) /\
    app.handleDeleteNote (VNumber j 0) e2 w = (Returns tt, w3) /\
    app.handleDeleteNote (VNumber i 0) e1 w3 = (Returns tt, w4) /\
    snapshot_is w2 l' /\ snapshot_is w4 l' /\
    (forall x, In x l' <-> In x l /\ id x <> i /\ id x <> j) /\
    (i = j -> snapshot_is w1 l').
Proof.
  intros Hon Hsnap.
  destruct (handleDeleteNote_online w l i e1 Hon Hsnap) as (w1 & R1 & S1 & O1 & _).
  destruct (handleDeleteNote_online w1 _ j e2 O1 S1) as (w2 & R2 & S2 & _).
  destruct (handleDeleteNote_online w l j e2 Hon Hsnap) as (w3 & R3 & S3 & O3 & _).
  destruct (handleDeleteNote_online w3 _ i e1 O3 S3) as (w4 & R4 & S4 & _).
  exists w1, w2, w3, w4, (remove_note j (remove_note i l)).
  split; [exact R1|]. split; [exact R2|]. split; [exact R3|]. split; [exact R4|].
  split; [exact S2|]. split; [now rewrite remove_note_commute|]. split.
  - intros x. rewrite !remove_note_In. tauto.
  - intros ->. now rewrite remove_note_idempotent.
Qed.

Lemma handleDeleteNote_removeChild w l (i : Z) (h : nat) :
  onLine w = true ->
  snapshot_is w l ->
  exists w' entry,
    app.handleDeleteNote (VNumber i 0) (Some h) w = (Returns tt, w') /\
    snapshot_is w' (remove_note i l) /\
    requests w' = requests w /\
    logs_container w' = logs_container w ++ [entry] /\
    if existsb (fun e => Nat.eqb (handle e) h) (notes_container w)
    then notes_container w' =
           List.filter (fun e => negb (Nat.eqb (handle e) h)) (notes_container w) /\
         entry = {| operation := Text "Suppression d'une note"; isSuccess := true |}
    else notes_container w' = notes_container w /\
         entry = {| operation := EngineMessage NotFoundError; isSuccess := false |}.
Proof.
  intros Hon Hsnap.
  unfold app.handleDeleteNote, try_catch, bind at 1.
  rewrite Hsnap. unfold bind at 1, app.isOnline. rewrite Hon. cbn [negb].
  unfold bind at 1. cbn [ret].
  unfold bind at 1, notes_value, array_filter, bind at 1.
  rewrite mapM_mark. cbn [ret]. rewrite marked_remove.
  change (VArray (List.map note_value (remove_note i l)))
    with (notes_value (remove_note i l)).
  unfold bind at 1. rewrite setInLocalStorage_notes.
  unfold bind at 1, removeChild.
  cbn [notes_container set_localStorage].
  destruct (existsb _ (notes_container w)).
  - eexists _, _. split; [reflexivity|].
    split; [|split; [reflexivity|split; [reflexivity|now split]]].
    apply snapshot_is_stored. cbn. apply stored_value_insert_notes.
  - eexists _, _. split; [reflexivity|].
    split; [|split; [reflexivity|split; [reflexivity|now split]]].
    apply snapshot_is_stored. cbn. apply stored_value_insert_notes.
Qed.
End Sequences.

(** ** Load *)

Section Load_more.
Context {Server : Type}.
Implicit Types (w : World Server) (l : list Note).

(** X16.  Offline, loadNotes returns, renders the notes of the snapshot in
    order after what the page already shows, logs the success entry
    [Chargement des notes], sends no request and leaves the storage as it
    is. *)
Theorem loadNotes_offline_renders_snapshot w l :
  onLine w = false ->
  snapshot_is w l ->
  exists w',
    app.loadNotes w = (Returns tt, w') /\
    localStorage w' = localStorage w /\
    requests w' = requests w /\
    rendered w' = rendered w ++ List.map shown l /\
    logs_container w' =
      logs_container w ++ [{| operation := Text "Chargement des notes";
                              isSuccess := true |}].
Proof.
  intros Hoff Hsnap.
  unfold app.loadNotes, bind at 1. rewrite Hsnap.
  unfold bind at 1, app.isOnline. rewrite Hoff.
  unfold bind at 1. cbn [ret].
  change (VArray []) with (notes_value []). rewrite length_truthy.
  unfold bind at 1. cbn [ret or_TypeError truthy Z.eqb negb Z.of_nat length].
  change (negb (Z.of_nat 0 =? 0)%Z) with false. cbv iota.
  unfold bind at 1. rewrite forEach_addNoteToUI.
  destruct (append_notes_frame l w) as (H1 & H2 & H3 & H4 & H5).
  eexists. split; [reflexivity|]. cbn. rewrite H2. auto.
Qed.

Lemma forEach_keeps_storage (a : value) :
  preserves localStorage (array_forEach (Server := Server) app.addNoteToUI a).
Proof.
  unfold array_forEach, app.addNoteToUI. preserves_all.
Qed.

(** X17.  Online, when getAll returns an array of notes, loadNotes
    overwrites the snapshot with it, whatever readable value was stored
    before; when the array is not empty loadNotes returns and renders
    exactly the fetched notes, in order. *)
Theorem loadNotes_replaces_snapshot w (saved : value) fetched w1 :
  onLine w = true ->
  stored_value (localStorage w) "savedNotes" = Some saved ->
  NoteKeeper.getAll w = (Returns (notes_value fetched), w1) ->
  exists r w',
    app.loadNotes w = (r, w') /\
    snapshot_is w' fetched /\
    (fetched <> [] ->
     r = Returns tt /\ rendered w' = rendered w ++ List.map shown fetched).
Proof.
  intros Hon Hsaved Hget.
  destruct (getAll_only_remote w) as (r0 & s & rs & Hw1).
  rewrite Hget in Hw1. injection Hw1 as <- ->.
  unfold app.loadNotes, bind at 1. rewrite getFromLocalStorage_eq, Hsaved.
  unfold bind at 1, app.isOnline. rewrite Hon.
  unfold bind at 1, try_catch, bind at 1. rewrite Hget.
  unfold bind at 1. rewrite setInLocalStorage_notes. cbn [ret].
  unfold bind at 1. rewrite length_truthy. cbn [or_TypeError ret].
  set (w2 := set_localStorage _ _).
  assert (Hw2 : snapshot_is w2 fetched).
  { apply snapshot_is_stored. cbn. apply stored_value_insert_notes. }
  destruct fetched as [|n fetched].
  - cbn [length Z.of_nat truthy Z.eqb negb].
    change (negb (Z.of_nat 0 =? 0)%Z) with false. cbv iota.
    unfold bind at 1.
    pose proof (forEach_keeps_storage saved w2) as Hkeep.
    destruct (array_forEach app.addNoteToUI saved w2) as [[[]|e] w3] eqn:E;
      cbn [snd] in Hkeep.
    + eexists _, _. split; [reflexivity|]. split; [|congruence].
      eapply snapshot_is_same_storage; [|exact Hw2]. cbn. exact Hkeep.
    + eexists _, _. split; [reflexivity|]. split; [|congruence].
      eapply snapshot_is_same_storage; [|exact Hw2]. exact Hkeep.
  - assert (Ht : truthy (VNumber (Z.of_nat (length (n :: fetched))) 0) = true).
    { cbn [truthy length]. rewrite Nat2Z.inj_succ.
      apply negb_true_iff, Z.eqb_neq. lia. }
    rewrite Ht. unfold bind at 1. rewrite forEach_addNoteToUI.
    destruct (append_notes_frame (n :: fetched) w2) as (H1 & H2 & H3 & H4 & H5).
    eexists _, _. split; [reflexivity|]. split.
    + eapply snapshot_is_same_storage; [|exact Hw2]. cbn. exact H1.
    + intros _. split; [reflexivity|]. cbn. exact H5.
Qed.
End Load_more.

(** ** JSON: the text written for a value is read back as the value *)

Section JSON_decimals.
Import JSON.
Open Scope N_scope.

Lemma frac_digits_length k : forall n, length (frac_digits k n) = k.
Proof.
  induction k as [|k IH]; intros n; cbn [frac_digits]; [reflexivity|].
  rewrite length_app, IH. cbn. lia.
Qed.

Lemma frac_digits_digits k : forall n,
  Forall (fun c => is_digit c = true) (frac_digits k n).
Proof.
  induction k as [|k IH]; intros n; cbn [frac_digits]; [constructor|].
  apply Forall_app; split; [apply IH|].
  repeat constructor. apply is_digit_spec. lia.
Qed.

Lemma frac_digits_value k : forall n,
  digits_value (frac_digits k n) = n mod 10 ^ N.of_nat k.
Proof.
  induction k as [|k IH]; intros n; cbn [frac_digits].
  - cbn. now rewrite N.mod_1_r.
  - rewrite digits_value_snoc, IH, Nat2N.inj_succ, N.pow_succ_r'.
    rewrite (N.Div0.mod_mul_r n 10). lia.
Qed.

Lemma normalise_zero k : normalise 0 k = (0%Z, 0%nat).
Proof. induction k as [|k IH]; [reflexivity|]. cbn. exact IH. Qed.

Lemma normalise_normal k : forall m m' k',
  normalise m k = (m', k') -> normalise m' k' = (m', k').
Proof.
  induction k as [|k IH]; intros m m' k'; cbn [normalise].
  - now intros [= <- <-].
  - destruct (m mod 10 =? 0)%Z eqn:E; [apply IH|].
    intros [= <- <-]. cbn [normalise]. now rewrite E.
Qed.

Lemma parse_number_decimal m k rest :
  normalise m (S k) = (m, S k) ->
  ends_number rest ->
  parse_number (number_to_string m (S k) ++ rest) = Some (VNumber m (S k), rest).
Proof.
  intros Hnormal Hrest.
  set (a := Z.abs_N m). set (p := 10 ^ N.of_nat (S k)).
  set (tail := N_to_string (a / p) ++ 46 :: frac_digits (S k) (a mod p) ++ rest).
  assert (Htext : number_to_string m (S k) ++ rest
                  = (if (m <? 0)%Z then [45] else []) ++ tail).
  { unfold number_to_string. rewrite Hnormal. fold a p. subst tail.
    rewrite <- !app_assoc. reflexivity. }
  rewrite Htext. clear Htext.
  assert (Hv : forall neg : bool,
             (if neg then - Z.of_N a else Z.of_N a)%Z = m ->
             match parse_int tail with
             | None => None
             | Some (i, s2) =>
                 match parse_frac s2 with
                 | None => None
                 | Some (fs, s3) =>
                     match parse_exp s3 with
                     | None => None
                     | Some (e, s4) =>
                         let m0 := Z.of_N (i * 10 ^ N.of_nat (length fs) + digits_value fs) in
                         Some (make_number (if neg then - m0 else m0)%Z
                                           (Z.of_nat (length fs) - e)%Z, s4)
                     end
                 end
             end = Some (VNumber m (S k), rest)).
  { intros neg Hz. subst tail.
    rewrite parse_int_N_to_string by reflexivity.
    unfold parse_frac. cbn [next_is]. change (46 =? 46) with true. cbv iota.
    rewrite take_digits_app;
      [|apply frac_digits_digits | now apply ends_number_no_digit].
    destruct (frac_digits (S k) (a mod p)) as [|d ds] eqn:Efrac.
    { pose proof (frac_digits_length (S k) (a mod p)) as Hl.
      rewrite Efrac in Hl. discriminate. }
    rewrite <- Efrac, parse_exp_none by assumption. cbv zeta.
    rewrite frac_digits_length, frac_digits_value.
    fold p. rewrite N.Div0.mod_mod.
    replace (a / p * p + a mod p) with a by (pose proof (N.div_mod' a p); lia).
    rewrite Hz. unfold make_number.
    rewrite Z.sub_0_r. destruct (Z.leb_spec (Z.of_nat (S k)) 0); [lia|].
    now rewrite Nat2Z.id, Hnormal. }
  assert (Hm : m <> 0%Z).
  { intros ->. rewrite normalise_zero in Hnormal. discriminate. }
  destruct (Z.ltb_spec m 0) as [Hneg|Hpos].
  - unfold parse_number. cbn [app next_is]. change (45 =? 45) with true. cbv iota.
    apply (Hv true). subst a. lia.
  - assert (Hnext : next_is 45 tail = None).
    { subst tail. destruct (N_to_string_head (a / p)) as (c & r & -> & Hc).
      apply is_digit_spec in Hc. cbn [app next_is].
      destruct (N.eqb_spec c 45); [lia | reflexivity]. }
    unfold parse_number. cbn [app]. rewrite Hnext.
    apply (Hv false). subst a. lia.
Qed.

Lemma number_to_string_first m k :
  exists c r, number_to_string m k = c :: r /\ (c = 45 \/ 48 <= c <= 57).
Proof.
  unfold number_to_string. destruct (normalise m k) as [m' k'].
  destruct (m' <? 0)%Z.
  - eexists _, _. split; [reflexivity|]. now left.
  - destruct k' as [|k'].
    + destruct (N_to_string_head (Z.abs_N m')) as (c & r & -> & Hc).
      exists c, r. split; [reflexivity|]. right. now apply is_digit_spec.
    + destruct (N_to_string_head (Z.abs_N m' / 10 ^ N.of_nat (S k'))) as (c & r & -> & Hc).
      eexists c, _. split; [reflexivity|]. right. now apply is_digit_spec.
Qed.

(** A number in normal form is read back as it is written. *)
Lemma parse_value_number fuel m k rest :
  normalise m k = (m, k) ->
  ends_number rest ->
  parse_value (S fuel) (number_to_string m k ++ rest) = Some (VNumber m k, rest).
Proof.
  intros Hnormal Hrest.
  assert (Hnum : parse_number (number_to_string m k ++ rest) = Some (VNumber m k, rest)).
  { destruct k; [now apply parse_number_integer | now apply parse_number_decimal]. }
  destruct (number_to_string_first m k) as (c & r & E & Hc).
  rewrite E in *. cbn [app] in *. rewrite parse_value_S.
  assert (Hws : is_ws c = false).
  { apply not_true_is_false. rewrite is_ws_spec. lia. }
  rewrite skip_ws_head by assumption.
  destruct (N.eqb_spec c 110); [lia|].
  destruct (N.eqb_spec c 116); [lia|].
  destruct (N.eqb_spec c 102); [lia|].
  destruct (N.eqb_spec c 34); [lia|].
  destruct (N.eqb_spec c 91); [lia|].
  destruct (N.eqb_spec c 123); [lia|].
  exact Hnum.
Qed.
End JSON_decimals.

Section JSON_values.
Import JSON.
Open Scope N_scope.

Lemma jsstring_eqb_eq a : forall b, jsstring_eqb a b = true <-> a = b.
Proof.
  induction a as [|x a IH]; intros [|y b]; cbn [jsstring_eqb];
    try (split; [discriminate | congruence]); [tauto|].
  rewrite andb_true_iff, N.eqb_eq, IH. split; [intros [-> ->]; reflexivity|].
  intros [= -> ->]. tauto.
Qed.

Lemma value_induction (P : value -> Prop) :
  P VUndefined -> P VNull -> (forall b, P (VBool b)) ->
  (forall m k, P (VNumber m k)) -> (forall s, P (VString s)) ->
  (forall l, Forall P l -> P (VArray l)) ->
  (forall ps, Forall (fun kv => P (snd kv)) ps -> P (VObject ps)) ->
  forall v, P v.
Proof.
  intros Hu Hn Hb Hnum Hs Ha Ho.
  fix IH 1. intros [| |b|m k|s|l|ps].
  - exact Hu.
  - exact Hn.
  - apply Hb.
  - apply Hnum.
  - apply Hs.
  - apply Ha. induction l as [|x l IHl]; constructor; [apply IH | exact IHl].
  - apply Ho. induction ps as [|[k x] ps IHps]; constructor; [apply IH | exact IHps].
Qed.

Lemma well_formed_array l : well_formed (VArray l) <-> Forall well_formed l.
Proof.
  cbn [well_formed]. induction l as [|x l IH].
  - split; constructor.
  - rewrite Forall_cons, <- IH. reflexivity.
Qed.

Lemma well_formed_object ps :
  well_formed (VObject ps) <->
  NoDup (List.map fst ps) /\ Forall (fun kv => well_formed (snd kv)) ps.
Proof.
  cbn [well_formed]. apply and_iff_compat_l. induction ps as [|kv ps IH].
  - split; constructor.
  - rewrite Forall_cons, <- IH. reflexivity.
Qed.

(** The first character of the text of a value. *)
Lemma serialize_first v t :
  serialize v = Some t ->
  exists c r, t = c :: r /\ is_ws c = false /\ c <> 93 /\ c <> 125.
Proof.
  destruct v as [| |[|]|m k|s|l|ps]; cbn [serialize]; try discriminate;
    intros [= <-]; try (eexists _, _; split; [reflexivity|]; cbn; repeat split; lia).
  destruct (number_to_string_first m k) as (c & r & -> & Hc).
  exists c, r. split; [reflexivity|]. split; [|lia].
  apply not_true_is_false. rewrite is_ws_spec. lia.
Qed.

Lemma text_of_first v :
  exists c r, text_of v = c :: r /\ is_ws c = false /\ c <> 93 /\ c <> 125.
Proof.
  unfold text_of. destruct (serialize v) as [t|] eqn:E.
  - now apply serialize_first with v.
  - eexists _, _. split; [reflexivity|]. cbn. repeat split; lia.
Qed.

Lemma join_cons_cons a b l : join (a :: b :: l) = a ++ 44 :: join (b :: l).
Proof. reflexivity. Qed.

Lemma elements_read_back l : forall rest,
  l <> [] ->
  Forall (fun x => reads_back x (text_of x)) l ->
  exists fuel,
    parse_elements fuel (join (List.map text_of l) ++ 93 :: rest) = Some (l, rest).
Proof.
  induction l as [|x l IH]; intros rest Hne Hall; [congruence|].
  apply Forall_cons in Hall as [Hx Hl].
  destruct l as [|y l].
  - cbn [List.map join].
    destruct (Hx (93 :: rest)) as (fx & Hfx); [cbn; repeat split; lia|].
    exists (S fx). rewrite parse_elements_S, Hfx. reflexivity.
  - cbn [List.map]. rewrite join_cons_cons, <- app_assoc. cbn [app].
    destruct (IH rest ltac:(congruence) Hl) as (fr & Hfr).
    cbn [List.map] in Hfr.
    destruct (Hx (44 :: join (text_of y :: List.map text_of l) ++ 93 :: rest))
      as (fx & Hfx); [cbn; repeat split; lia|].
    exists (S (Nat.max fx fr)). rewrite parse_elements_S.
    destruct (parse_fuel_mono fx) as (Hmv & _).
    destruct (parse_fuel_mono fr) as (_ & Hme & _).
    rewrite (Hmv (Nat.max fx fr) _ _ (Nat.le_max_l _ _) Hfx).
    change (skip_ws (44 :: ?r)) with (44 :: r). cbv iota.
    change (44 =? 93) with false. change (44 =? 44) with true. cbv iota.
    now rewrite (Hme (Nat.max fx fr) _ _ (Nat.le_max_r _ _) Hfr).
Qed.

Lemma define_prop_fresh k v acc :
  k ∉ List.map fst acc -> define_prop k v acc = acc ++ [(k, v)].
Proof.
  induction acc as [|[k' v'] acc IH]; intros Hk; [reflexivity|].
  cbn [define_prop]. cbn [List.map fst] in Hk.
  apply not_elem_of_cons in Hk as [Hne Hk].
  destruct (jsstring_eqb k' k) eqn:E.
  - apply jsstring_eqb_eq in E. congruence.
  - cbn [app]. f_equal. now apply IH.
Qed.

Lemma members_read_back ps : forall acc rest,
  ps <> [] ->
  NoDup (List.map fst (acc ++ ps)) ->
  Forall (fun kv => reads_back (snd kv) (text_of (snd kv))) ps ->
  exists fuel,
    parse_members fuel (join (List.map member_text ps) ++ 125 :: rest) acc
    = Some (acc ++ ps, rest).
Proof.
  induction ps as [|[k v] ps IH]; intros acc rest Hne Hnd Hall; [congruence|].
  apply Forall_cons in Hall as [Hv Hps]. cbn [snd] in Hv.
  assert (Hfresh : define_prop k v acc = acc ++ [(k, v)]).
  { apply define_prop_fresh. rewrite List.map_app in Hnd.
    apply NoDup_app in Hnd as (_ & Hdis & _). intros Hin.
    apply (Hdis k Hin). cbn. apply elem_of_cons. now left. }
  destruct ps as [|kv ps].
  - cbn [List.map join]. unfold member_text at 1. cbn [fst snd].
    rewrite <- app_assoc. cbn [app].
    destruct (Hv (125 :: rest)) as (fv & Hfv); [cbn; repeat split; lia|].
    exists (S fv). rewrite parse_members_step, Hfv.
    change (skip_ws (125 :: ?r)) with (125 :: r). cbv iota.
    change (125 =? 125) with true. cbv iota. now rewrite Hfresh.
  - cbn [List.map]. rewrite join_cons_cons. unfold member_text at 1. cbn [fst snd].
    rewrite <- !app_assoc. cbn [app].
    destruct (IH (acc ++ [(k, v)]) rest ltac:(congruence)) as (fr & Hfr);
      [now rewrite <- app_assoc | exact Hps |].
    cbn [List.map] in Hfr.
    destruct (Hv (44 :: join (member_text kv :: List.map member_text ps) ++ 125 :: rest))
      as (fv & Hfv); [cbn; repeat split; lia|].
    exists (S (Nat.max fv fr)). rewrite parse_members_step.
    destruct (parse_fuel_mono fv) as (Hmv & _).
    destruct (parse_fuel_mono fr) as (_ & _ & Hmm).
    rewrite (Hmv (Nat.max fv fr) _ _ (Nat.le_max_l _ _) Hfv).
    change (skip_ws (44 :: ?r)) with (44 :: r). cbv iota.
    change (44 =? 125) with false. change (44 =? 44) with true. cbv iota.
    rewrite Hfresh.
    rewrite (Hmm (Nat.max fv fr) _ _ _ (Nat.le_max_r _ _) Hfr).
    now rewrite <- app_assoc.
Qed.

Lemma serialize_array l :
  serialize (VArray l) = Some (91 :: join (List.map text_of l) ++ [93]).
Proof. reflexivity. Qed.

Lemma serialize_object ps :
  Forall (fun kv => well_formed (snd kv)) ps ->
  serialize (VObject ps) = Some (123 :: join (List.map member_text ps) ++ [125]).
Proof.
  intros Hall. cbn [serialize]. do 4 f_equal.
  induction Hall as [|[k v] ps Hv _ IH]; [reflexivity|].
  cbn [flat_map List.map fst snd]. rewrite IH. unfold member_text, text_of.
  cbn [fst snd]. destruct (serialize v) eqn:E; [reflexivity|].
  destruct v; cbn in E; try discriminate. destruct Hv.
Qed.

(** Every well-formed value is read back from its text. *)
Lemma serialize_reads_back v : well_formed v -> reads_back v (text_of v).
Proof.
  induction v as [| |b|m k|s|l IH|ps IH] using value_induction; intros Hst.
  - destruct Hst.
  - intros rest _. exists 1%nat. reflexivity.
  - intros rest _. exists 1%nat. now destruct b.
  - intros rest Hrest. exists 1%nat. now apply parse_value_number.
  - intros rest _. exists 1%nat. apply parse_value_string.
  - apply well_formed_array in Hst.
    assert (Hall : Forall (fun x => reads_back x (text_of x)) l).
    { apply Forall_forall. intros x Hx.
      rewrite Forall_forall in IH, Hst. now apply IH; [|apply Hst]. }
    intros rest _. unfold text_of. rewrite serialize_array.
    cbn [app]. rewrite <- app_assoc. cbn [app].
    destruct l as [|x l]; [exists 1%nat; reflexivity|].
    destruct (elements_read_back (x :: l) rest ltac:(congruence) Hall) as (fuel & Hfuel).
    exists (S fuel). rewrite parse_value_bracket.
    assert (Hnext : next_is 93 (skip_ws (join (List.map text_of (x :: l)) ++ 93 :: rest)) = None).
    { destruct (text_of_first x) as (c & r & E & Hws & Hc & _).
      destruct l; cbn [List.map]; [cbn [join]|rewrite join_cons_cons];
        rewrite E; cbn [app]; rewrite skip_ws_head by assumption;
        cbn [next_is]; now destruct (N.eqb_spec c 93). }
    now rewrite Hnext, Hfuel.
  - apply well_formed_object in Hst as [Hnd Hst].
    assert (Hall : Forall (fun kv => reads_back (snd kv) (text_of (snd kv))) ps).
    { apply Forall_forall. intros x Hx.
      rewrite Forall_forall in IH, Hst. now apply IH; [|apply Hst]. }
    intros rest _. unfold text_of. rewrite serialize_object by assumption.
    cbn [app]. rewrite <- app_assoc. cbn [app].
    destruct ps as [|kv ps]; [exists 1%nat; reflexivity|].
    destruct (members_read_back (kv :: ps) [] rest ltac:(congruence) Hnd Hall)
      as (fuel & Hfuel).
    exists (S fuel). rewrite parse_value_brace.
    assert (Hnext : next_is 125 (skip_ws (join (List.map member_text (kv :: ps)) ++ 125 :: rest)) = None).
    { destruct ps; cbn [List.map]; [cbn [join]|rewrite join_cons_cons];
        unfold member_text at 1, quote; reflexivity. }
    now rewrite Hnext, Hfuel.
Qed.
End JSON_values.

Section JSON_results.
Import JSON.
Open Scope N_scope.

Lemma storable_well_formed v : storable v -> well_formed v.
Proof.
  induction v as [| |b|m k|s|l IH|ps IH] using value_induction; cbn [storable];
    try (intros H; exact H).
  - intros [-> _]. reflexivity.
  - intros H. apply well_formed_array.
    induction IH as [|x l Hx _ IHl]; [constructor|].
    destruct H as [H1 H2]. constructor; [now apply Hx | now apply IHl].
  - intros [Hnd H]. apply well_formed_object. split; [exact Hnd|].
    clear Hnd. induction IH as [|kv ps Hkv _ IHps]; [constructor|].
    destruct H as [[_ H1] H2]. constructor; [now apply Hkv | now apply IHps].
Qed.

Lemma stringify_well_formed v :
  well_formed v -> stringify v = Some (text_of v) /\ parse (text_of v) = Some v.
Proof.
  intros Hst. split.
  - unfold text_of, stringify. destruct (serialize v) eqn:E; [reflexivity|].
    destruct v; cbn in E; try discriminate. destruct Hst.
  - destruct (serialize_reads_back v Hst [] I) as (fuel & Hfuel).
    rewrite app_nil_r in Hfuel. now apply parse_fuel_enough with fuel [].
Qed.
End JSON_results.

(** ** Writing a value and reading it back *)

Section Storage.
Context {Server : Type}.
Implicit Types (w : World Server).

Lemma setInLocalStorage_well_formed key v w :
  well_formed v ->
  app.setInLocalStorage key v w
  = (Returns tt, set_localStorage (<[key := text_of v]> (localStorage w)) w).
Proof.
  intros Hv. unfold app.setInLocalStorage.
  now rewrite (proj1 (stringify_well_formed v Hv)).
Qed.

Lemma stored_value_insert_well_formed ls key v :
  well_formed v ->
  stored_value (<[key := text_of v]> ls) key
  = Some (if truthy v then v else VArray []).
Proof.
  intros Hv. unfold stored_value.
  now rewrite lookup_insert_eq, (proj2 (stringify_well_formed v Hv)).
Qed.

Lemma stored_value_truthy ls key v :
  stored_value ls key = Some v -> truthy v = true.
Proof.
  unfold stored_value. destruct (JSON.parse _) as [p|]; [|discriminate].
  intros [= <-]. now destruct (truthy p) eqn:Ht.
Qed.

(** X1.  A value written by setInLocalStorage is what getFromLocalStorage
    reads back under the same key, for every value on which the model of
    JSON and the engine agree (no undefined in it, every number a safe
    integer of magnitude at most 2^53 - 1, no object with a key twice or
    with a key written with digits only): the write returns, the read
    then returns the value itself, or the empty array when the value is
    falsy, and what is read under every other key is as before. *)
Theorem setInLocalStorage_then_get key v w :
  storable v ->
  exists w',
    app.setInLocalStorage key v w = (Returns tt, w') /\
    app.getFromLocalStorage key w'
    = (Returns (if truthy v then v else VArray []), w') /\
    (forall other, other ≠ key ->
       stored_value (localStorage w') other = stored_value (localStorage w) other).
Proof.
  intros Hv. apply storable_well_formed in Hv.
  eexists. split; [now apply setInLocalStorage_well_formed|]. split.
  - rewrite getFromLocalStorage_eq. cbn [localStorage set_localStorage].
    now rewrite stored_value_insert_well_formed.
  - intros other Hne. unfold stored_value. cbn [localStorage set_localStorage].
    now rewrite lookup_insert_ne.
Qed.

(** X2.  A value that getFromLocalStorage returns, when it is one on
    which the model of JSON and the engine agree (no number outside the
    safe integers, no key written with digits only), can be written back
    unchanged: the read leaves the state as it is, and after
    setInLocalStorage of the returned value under the same key the read
    returns that value again. *)
Theorem getFromLocalStorage_write_back key v w w1 :
  app.getFromLocalStorage key w = (Returns v, w1) ->
  storable v ->
  w1 = w /\
  exists w',
    app.setInLocalStorage key v w = (Returns tt, w') /\
    app.getFromLocalStorage key w' = (Returns v, w').
Proof.
  rewrite getFromLocalStorage_eq.
  destruct (stored_value (localStorage w) key) as [v'|] eqn:E; [|discriminate].
  intros [= -> <-] Hv. split; [reflexivity|].
  apply storable_well_formed in Hv.
  assert (Ht := stored_value_truthy _ _ _ E).
  eexists. split; [now apply setInLocalStorage_well_formed|].
  rewrite getFromLocalStorage_eq. cbn [localStorage set_localStorage].
  now rewrite stored_value_insert_well_formed, Ht.
Qed.

Lemma stored_value_undefined ls key :
  stored_value (<[key := str "undefined"]> ls) key = None.
Proof. unfold stored_value. now rewrite lookup_insert_eq. Qed.

(** X4.  Online, with a readable storage, when getAll returns undefined
    (the answer of the service has no property notes): loadNotes stores
    the text undefined under savedNotes and then throws a TypeError
    (notes.length, outside the try) without rendering or logging anything;
    from then on the storage is unreadable: loadNotes throws a SyntaxError
    and handleCreateNote fails with it. *)
Theorem loadNotes_undefined_notes w saved w1 :
  onLine w = true ->
  stored_value (localStorage w) "savedNotes" = Some saved ->
  NoteKeeper.getAll w = (Returns VUndefined, w1) ->
  exists w',
    app.loadNotes w = (Throws TypeError, w') /\
    notes_container w' = notes_container w /\
    logs_container w' = logs_container w /\
    stored_value (localStorage w') "savedNotes" = None /\
    app.loadNotes w' = (Throws SyntaxError, w') /\
    (forall noteContent,
        app.handleCreateNote noteContent w'
        = (Returns false, failed (EngineMessage SyntaxError) w')).
Proof.
  intros Hon Hsaved Hget.
  destruct (getAll_only_remote w) as (r & s & rs & Hw1).
  rewrite Hget in Hw1. injection Hw1 as <- ->.
  unfold app.loadNotes, bind at 1. rewrite getFromLocalStorage_eq, Hsaved.
  unfold bind at 1, app.isOnline. rewrite Hon.
  unfold bind at 1, try_catch, bind at 1. rewrite Hget.
  unfold bind at 1, app.setInLocalStorage, setItem.
  change (JSON.stringify VUndefined) with (@None jsstring). cbv iota.
  cbn [ret get_prop or_TypeError]. unfold bind at 1. cbn [throw].
  eexists. split; [reflexivity|]. split; [reflexivity|]. split; [reflexivity|].
  assert (Hnone : forall w0 : World Server,
             localStorage w0 = <["savedNotes" := str "undefined"]> (localStorage w) ->
             stored_value (localStorage w0) "savedNotes" = None).
  { intros w0 ->. apply stored_value_undefined. }
  split; [now apply Hnone|]. split.
  - unfold app.loadNotes, bind. rewrite getFromLocalStorage_eq.
    now rewrite Hnone.
  - intros noteContent. unfold app.handleCreateNote, try_catch, bind.
    rewrite getFromLocalStorage_eq. now rewrite Hnone.
Qed.
End Storage.

(** ** Trimming *)

Section Trim.

Lemma trim_start_split s :
  exists p, s = p ++ trim_start s /\ Forall (fun c => is_js_space c = true) p.
Proof.
  induction s as [|c s (p & Hs & Hp)]; cbn [trim_start].
  - exists []. now split.
  - destruct (is_js_space c) eqn:E.
    + exists (c :: p). split; [cbn; now f_equal | now constructor].
    + exists []. now split.
Qed.

Lemma trim_start_head s c : head (trim_start s) = Some c -> is_js_space c = false.
Proof.
  induction s as [|d s IH]; cbn [trim_start]; [discriminate|].
  destruct (is_js_space d) eqn:E; [exact IH|]. now intros [= <-].
Qed.

Lemma trim_start_blank s :
  trim_start s = [] <-> Forall (fun c => is_js_space c = true) s.
Proof.
  induction s as [|c s IH]; cbn [trim_start]; [split; constructor|].
  destruct (is_js_space c) eqn:E.
  - rewrite IH. split; [now constructor | intros H; now apply Forall_inv_tail in H].
  - split; [discriminate|]. intros H. apply Forall_inv in H. congruence.
Qed.

Lemma Forall_rev_space (l : jsstring) :
  Forall (fun c => is_js_space c = true) l ->
  Forall (fun c => is_js_space c = true) (rev l).
Proof.
  intros H. apply List.Forall_forall. intros c Hc. apply in_rev in Hc.
  rewrite List.Forall_forall in H. now apply H.
Qed.

(** [trim] takes the longest run of spaces off each end. *)
Lemma trim_split s :
  exists p q,
    s = p ++ trim s ++ q /\
    Forall (fun c => is_js_space c = true) p /\
    Forall (fun c => is_js_space c = true) q /\
    (forall c, head (trim s) = Some c -> is_js_space c = false) /\
    (forall c, head (rev (trim s)) = Some c -> is_js_space c = false).
Proof.
  destruct (trim_start_split s) as (p & Hs & Hp).
  destruct (trim_start_split (rev (trim_start s))) as (q & Hr & Hq).
  assert (Ha : trim_start s = trim s ++ rev q).
  { unfold trim. rewrite <- rev_app_distr, <- Hr. now rewrite rev_involutive. }
  exists p, (rev q). split; [|split; [|split; [|split]]].
  - now rewrite <- Ha.
  - exact Hp.
  - now apply Forall_rev_space.
  - intros c Hc. apply (trim_start_head s). rewrite Ha.
    destruct (trim s); [discriminate | exact Hc].
  - intros c. unfold trim. rewrite rev_involutive. apply trim_start_head.
Qed.

Lemma trim_blank s : trim s = [] <-> Forall (fun c => is_js_space c = true) s.
Proof.
  unfold trim. split.
  - intros H. apply (f_equal (@rev N)) in H. rewrite rev_involutive in H.
    cbn [rev] in H. apply trim_start_blank in H.
    apply Forall_rev_space in H. rewrite rev_involutive in H.
    destruct (trim_start_split s) as (p & Hs & Hp). rewrite Hs.
    apply Forall_app. now split.
  - intros H. apply trim_start_blank in H. rewrite H. reflexivity.
Qed.
End Trim.

(** ** The requests of a creation *)

Section Requests_more.
Context {Server : Type}.
Local Abbreviation M := (@M Server).
Implicit Types (w : World Server).

Lemma after_bind {A B C} (f : World Server -> B) (m : M A) (k : A -> M C) w :
  (forall a, preserves f (k a)) -> f (snd (bind m k w)) = f (snd (m w)).
Proof.
  intros Hk. unfold bind. destruct (m w) as [[a|e] w1]; cbn [snd]; [apply Hk | reflexivity].
Qed.

Lemma after_try_catch {A B} (f : World Server -> B) (m : M A) (h : exn -> M A) w :
  (forall e, preserves f (h e)) -> f (snd (try_catch m h w)) = f (snd (m w)).
Proof.
  intros Hh. unfold try_catch.
  destruct (m w) as [[a|e] w1]; cbn [snd]; [reflexivity | apply Hh].
Qed.

Lemma fetch_requests req w : requests (snd (fetch req w)) = requests w ++ [req].
Proof. unfold fetch. now destruct (network w req (server w)) as [[r|] s]. Qed.

Lemma handleCreateNote_requests content w :
  requests (snd (app.handleCreateNote content w)) =
  requests w ++
    match stored_value (localStorage w) "savedNotes" with
    | Some _ => if onLine w then [create_request content] else []
    | None => []
    end.
Proof.
  unfold app.handleCreateNote.
  rewrite after_try_catch by (intros e; preserves_all).
  unfold bind at 1. rewrite getFromLocalStorage_eq.
  destruct (stored_value _ _) as [saved|]; [|cbn; now rewrite app_nil_r].
  unfold bind at 1, app.isOnline.
  destruct (onLine w); cbn [negb]; [|cbn; now rewrite app_nil_r].
  rewrite after_bind by (intros a; unfold array_push, app.addNoteToUI; preserves_all).
  rewrite after_bind
    by (intros a; destruct (negb (truthy a)); [apply preserves_throw | apply preserves_ret]).
  unfold NoteKeeper.create. rewrite after_bind by (intros a; preserves_all).
  apply fetch_requests.
Qed.
End Requests_more.

(** ** The listeners *)

Section Listeners_facts.
Context {Server : Type}.
Local Abbreviation M := (@M Server).
Implicit Types (w : World Server) (l : list Note).

(** X6.  Online, when NoteKeeper.create returns a note {id, note}:
    handleCreateNote returns true, the snapshot is the old one with the
    note at its end, the page shows one more element, for that note,
    exactly one request has been sent (the POST with the content) and the
    success entry of the creation is logged. *)
Theorem handleCreateNote_online_success w l content (n : Note) w1 :
  onLine w = true ->
  snapshot_is w l ->
  NoteKeeper.create (VString content) w = (Returns (note_value n), w1) ->
  exists w',
    app.handleCreateNote content w = (Returns true, w') /\
    snapshot_is w' (l ++ [n]) /\
    rendered w' = rendered w ++ [shown n] /\
    requests w' = requests w ++ [create_request content] /\
    logs_container w' =
      logs_container w ++ [{| operation := Text "Création d'une note";
                              isSuccess := true |}].
Proof.
  intros Hon Hsnap Hcreate.
  destruct (handleCreateNote_created w l content n w1 Hon Hsnap Hcreate)
    as (w' & Hrun & Hsnap' & Hpage & _ & Hlog).
  exists w'. split; [exact Hrun|]. split; [exact Hsnap'|]. split; [|split].
  - unfold rendered. rewrite Hpage. now rewrite List.map_app.
  - assert (Hreq := handleCreateNote_requests content w).
    rewrite Hrun in Hreq. cbn [snd] in Hreq.
    apply snapshot_is_stored in Hsnap. now rewrite Hsnap, Hon in Hreq.
  - exact Hlog.
Qed.

(** X8.  createNoteHandler works on the text of the field without the
    white space and line terminators at its two ends. When nothing is left
    it returns without any effect and keeps the field. Otherwise it runs
    handleCreateNote on the trimmed text: one entry is logged, the field
    is emptied exactly when that entry is a success, and the requests sent
    are the one POST with the trimmed text when the application is online
    and the storage readable, and none otherwise. *)
Theorem createNoteHandler_sends_trimmed field w :
  exists p content q,
    field = p ++ content ++ q /\
    Forall (fun c => is_js_space c = true) p /\
    Forall (fun c => is_js_space c = true) q /\
    (forall c, head content = Some c -> is_js_space c = false) /\
    (forall c, head (rev content) = Some c -> is_js_space c = false) /\
    match content with
    | [] => createNoteHandler field w = (Returns field, w)
    | _ =>
        exists w' entry,
          createNoteHandler field w
          = (Returns (if isSuccess entry then [] else field), w') /\
          logs_container w' = logs_container w ++ [entry] /\
          requests w' =
            requests w ++
              match stored_value (localStorage w) "savedNotes" with
              | Some _ => if onLine w then [create_request content] else []
              | None => []
              end
    end.
Proof.
  destruct (trim_split field) as (p & q & Hfield & Hp & Hq & Hhead & Hlast).
  exists p, (trim field), q. repeat (split; [assumption|]).
  unfold createNoteHandler. destruct (trim field) as [|c content] eqn:E; [reflexivity|].
  destruct (handleCreateNote_logs_once (c :: content) w) as (w' & entry & Hrun & Hlog).
  assert (Hreq := handleCreateNote_requests (c :: content) w).
  rewrite Hrun in Hreq. cbn [snd] in Hreq.
  exists w', entry. unfold bind. rewrite Hrun. cbn [ret]. now repeat split.
Qed.

Lemma handleUpdateNote_keeps_page note :
  preserves notes_container (app.handleUpdateNote (Server := Server) note).
Proof.
  unfold app.handleUpdateNote, NoteKeeper.update, array_map. preserves_all.
Qed.

(** X10.  Submitting the form of the element rendered for a note with a
    text that is not blank, online and with the remote confirming:
    handleUpdateNote runs on {id: the note's id, note: the trimmed text},
    so the snapshot has every note of that id replaced by it, and the page
    is left as it is. *)
Theorem note_submit_replaces w l (n : Note) h field response s' :
  trim field <> [] ->
  onLine w = true ->
  snapshot_is w l ->
  network w (update_request (note_value {| id := id n; note := trim field |}))
          (server w) = (Some response, s') ->
  ok response = true ->
  exists w',
    note_submit (note_element h n) field w = (Returns tt, w') /\
    snapshot_is w' (replace_note {| id := id n; note := trim field |} l) /\
    notes_container w' = notes_container w.
Proof.
  intros Hne Hon Hsnap Hnet Hok.
  destruct (handleUpdateNote_confirmed w l {| id := id n; note := trim field |}
              response s' Hon Hsnap Hnet Hok) as (w' & Hrun & Hsnap').
  exists w'. unfold note_submit. destruct (trim field) as [|c t] eqn:E; [congruence|].
  cbn [note_element bound_id]. unfold note_value in Hrun. cbn [id note] in Hrun.
  split; [exact Hrun|]. split; [exact Hsnap'|].
  assert (Hpage := handleUpdateNote_keeps_page
                     (VObject [(str "id", VNumber (id n) 0);
                               (str "note", VString (c :: t))]) w).
  now rewrite Hrun in Hpage.
Qed.

(** X11.  Submitting the form of a note with a blank text (only white
    space and line terminators) does nothing: no request, no write, no log
    entry. *)
Theorem note_submit_blank element field w :
  Forall (fun c => is_js_space c = true) field ->
  note_submit element field w = (Returns tt, w).
Proof.
  intros Hblank. apply trim_blank in Hblank. unfold note_submit. now rewrite Hblank.
Qed.

Lemma filter_fresh_handle (page : list Element) h e :
  Forall (fun x => (handle x < h)%nat) page ->
  handle e = h ->
  existsb (fun x => Nat.eqb (handle x) h) (page ++ [e]) = true /\
  List.filter (fun x => negb (Nat.eqb (handle x) h)) (page ++ [e]) = page.
Proof.
  intros Hpage He. split.
  - rewrite existsb_app. cbn. rewrite He, Nat.eqb_refl. now rewrite orb_true_r.
  - rewrite List.filter_app. cbn. rewrite He, Nat.eqb_refl. cbn. rewrite app_nil_r.
    induction Hpage as [|x page Hx _ IH]; [reflexivity|]. cbn.
    destruct (Nat.eqb_spec (handle x) h) as [Heq|_]; [lia|]. cbn. now f_equal.
Qed.

Lemma remove_note_fresh (n : Note) l :
  ~ In (id n) (List.map id l) -> remove_note (id n) (l ++ [n]) = l.
Proof.
  intros Hfresh. unfold remove_note. rewrite List.filter_app. cbn.
  rewrite Z.eqb_refl. cbn. rewrite app_nil_r.
  induction l as [|x l IH]; [reflexivity|]. cbn in Hfresh |- *.
  destruct (Z.eqb_spec (id x) (id n)) as [Heq|_]; [tauto|]. cbn.
  f_equal. apply IH. tauto.
Qed.

(** X15.  Round trip: online, on a page whose elements were all created
    before, a note created by handleCreateNote with an id that no saved
    note has is shown by the last element of the page; the click on the
    delete button of that element gives back the snapshot and the page of
    before the creation, and sends no request. *)
Theorem create_then_delete_click w l content (n : Note) w0 :
  onLine w = true ->
  snapshot_is w l ->
  NoteKeeper.create (VString content) w = (Returns (note_value n), w0) ->
  ~ In (id n) (List.map id l) ->
  Forall (fun e => (handle e < elements_created w)%nat) (notes_container w) ->
  exists w1 w2,
    app.handleCreateNote content w = (Returns true, w1) /\
    last (notes_container w1) = Some (note_element (elements_created w) n) /\
    note_delete_click (note_element (elements_created w) n) w1 = (Returns tt, w2) /\
    snapshot_is w2 l /\
    notes_container w2 = notes_container w /\
    requests w2 = requests w1.
Proof.
  intros Hon Hsnap Hcreate Hfresh Hpage.
  destruct (handleCreateNote_created w l content n w0 Hon Hsnap Hcreate)
    as (w1 & Hrun & Hsnap1 & Hpage1 & Hon1 & _).
  destruct (handleDeleteNote_removeChild w1 (l ++ [n]) (id n) (elements_created w)
              Hon1 Hsnap1) as (w2 & entry & Hdel & Hsnap2 & Hreq & _ & Hcase).
  destruct (filter_fresh_handle (notes_container w) (elements_created w)
              (note_element (elements_created w) n) Hpage eq_refl) as [Hex Hfilter].
  rewrite Hpage1, Hex, Hfilter in Hcase. destruct Hcase as [Hpage2 _].
  exists w1, w2. split; [exact Hrun|]. split; [|split; [exact Hdel|split; [|now split]]].
  - rewrite Hpage1. apply last_snoc.
  - now rewrite remove_note_fresh in Hsnap2.
Qed.

Lemma existsb_other_handles (page : list Element) h :
  Forall (fun e => handle e <> h) page ->
  existsb (fun e => Nat.eqb (handle e) h) page = false.
Proof.
  induction page as [|x page IH]; intros Hpage; [reflexivity|].
  apply Forall_cons in Hpage as [Hx Hpage]. cbn [existsb]. rewrite (IH Hpage).
  destruct (Nat.eqb_spec (handle x) h); [contradiction|reflexivity].
Qed.

(** X14.  Online, handleDeleteNote with an element that is not a child of
    the notes container: the notes of that id are already removed from the
    snapshot when removeChild throws; the call returns, the page is
    unchanged and the failure entry with the engine's NotFoundError
    message is logged. *)
Theorem handleDeleteNote_detached_element w l (i : Z) (h : nat) :
  onLine w = true ->
  snapshot_is w l ->
  Forall (fun e => handle e <> h) (notes_container w) ->
  exists w',
    app.handleDeleteNote (VNumber i 0) (Some h) w = (Returns tt, w') /\
    snapshot_is w' (remove_note i l) /\
    notes_container w' = notes_container w /\
    logs_container w' =
      logs_container w ++ [{| operation := EngineMessage NotFoundError;
                              isSuccess := false |}].
Proof.
  intros Hon Hsnap Hpage.
  destruct (handleDeleteNote_removeChild w l i h Hon Hsnap)
    as (w' & entry & Hdel & Hsnap' & _ & Hlog & Hcase).
  assert (Hex : existsb (fun e => Nat.eqb (handle e) h) (notes_container w) = false).
  { now apply existsb_other_handles. }
  rewrite Hex in Hcase. destruct Hcase as [Hpage' ->].
  exists w'. now repeat split.
Qed.
(** X18.  init, offline with a readable storage: it returns, renders the
    snapshot, sends no request, leaves the storage as it is, and adds to
    the log the initialisation entry and then the loading entry. *)
Theorem init_offline_start w l :
  onLine w = false ->
  snapshot_is w l ->
  exists w',
    init w = (Returns tt, w') /\
    localStorage w' = localStorage w /\
    requests w' = requests w /\
    rendered w' = rendered w ++ List.map shown l /\
    logs_container w' =
      logs_container w ++
        [{| operation := Text "Initialisation de l'application."; isSuccess := true |};
         {| operation := Text "Chargement des notes"; isSuccess := true |}].
Proof.
  intros Hoff Hsnap.
  unfold init, bind at 1, app.logOperation.
  set (w0 := set_logs_container _ w).
  assert (Hsnap0 : snapshot_is w0 l).
  { eapply snapshot_is_same_storage; [|exact Hsnap]. reflexivity. }
  unfold app.loadNotes, bind at 1. rewrite Hsnap0.
  unfold bind at 1, app.isOnline.
  change (onLine w0) with (onLine w). rewrite Hoff.
  unfold bind at 1. cbn [ret].
  change (VArray []) with (notes_value []). rewrite length_truthy.
  unfold bind at 1. cbn [ret or_TypeError truthy Z.eqb negb Z.of_nat length].
  change (negb (Z.of_nat 0 =? 0)%Z) with false. cbv iota.
  unfold bind at 1. rewrite forEach_addNoteToUI.
  destruct (append_notes_frame l w0) as (H1 & H2 & H3 & H4 & H5).
  eexists. split; [reflexivity|]. cbn [snd].
  unfold app.logOperation. cbn. rewrite H2. subst w0. cbn.
  rewrite <- app_assoc. cbn. auto.
Qed.

(** X19.  init with a stored text under savedNotes that is not JSON: it
    returns, and the state differs only by the initialisation entry in the
    log; the failure of loadNotes (a rejected promise that nothing awaits)
    is not logged and nothing is rendered. *)
Theorem init_unreadable_storage w t :
  localStorage w !! "savedNotes" = Some t ->
  JSON.parse t = None ->
  init w =
  (Returns tt,
   set_logs_container
     (logs_container w ++
        [{| operation := Text "Initialisation de l'application.";
            isSuccess := true |}]) w).
Proof.
  intros Ht Hcorrupt.
  unfold init, bind at 1, app.logOperation.
  set (w0 := set_logs_container _ w).
  assert (Hsaved : stored_value (localStorage w0) "savedNotes" = None).
  { unfold stored_value. cbn. now rewrite Ht, Hcorrupt. }
  unfold app.loadNotes, bind. now rewrite getFromLocalStorage_eq, Hsaved.
Qed.
End Listeners_facts.

(** ** The fetch listener of the service worker *)

Section FetchListener.
Import ServiceWorker.
Implicit Types (caches : CacheStorage).

Lemma caches_match_single (k : string) u caches :
  (forall name, name ≠ k -> caches !! name = None) ->
  caches_match u caches = caches !! k ≫= (.!! u).
Proof.
  intros Honly. unfold caches_match, caches_keys.
  destruct (caches !! k) as [c|] eqn:E.
  - assert (Hc : caches = {[k := c]}).
    { apply map_eq. intros name. destruct (decide (name = k)) as [->|Hne].
      - now rewrite lookup_singleton_eq.
      - rewrite lookup_singleton_ne by congruence. now apply Honly. }
    rewrite Hc, map_to_list_singleton. cbn [List.map fst omap list_omap].
    rewrite lookup_singleton_eq. cbn. now destruct (c !! u).
  - assert (Hc : caches = ∅).
    { apply map_eq. intros name. rewrite lookup_empty.
      destruct (decide (name = k)) as [->|Hne]; [exact E | now apply Honly]. }
    rewrite Hc, map_to_list_empty. reflexivity.
Qed.

Lemma caches_match_activate_listener current u caches :
  caches_match u (activate_listener current caches) = caches !! current ≫= (.!! u).
Proof.
  rewrite (caches_match_single current).
  - rewrite activate_listener_lookup. now destruct (decide _).
  - intros name Hne. rewrite activate_listener_lookup. now destruct (decide _).
Qed.

(** X23.  After activate the fetch listener answers from the current cache
    region only: the response stored there for the URL when there is one,
    otherwise the answer of the network; the other regions no longer
    answer, and a failed fetch gives no response. *)
Theorem fetch_listener_after_activate net u caches :
  fetch_listener net u (activate caches) =
  match caches !! CACHE_NAME ≫= (.!! u) with
  | Some response => Some response
  | None => net u
  end.
Proof.
  unfold fetch_listener, activate. now rewrite caches_match_activate_listener.
Qed.

Lemma NoDup_urlsToCache : NoDup urlsToCache.
Proof. apply (bool_decide_unpack _). vm_compute. reflexivity. Qed.

(** X24.  When every URL of urlsToCache is fetched with an ok response
    during install, install is fulfilled, and after activate the fetch
    listener answers each of these URLs with the response fetched at
    installation, whatever the network does later. *)
Theorem installed_assets_served_offline net caches :
  (forall u, In u urlsToCache -> exists r, net u = Some r /\ ok r = true) ->
  exists caches',
    install net caches = (Fulfilled, caches') /\
    forall later u, In u urlsToCache ->
      fetch_listener later u (activate caches') = net u.
Proof.
  intros Hok.
  destruct (install_populates net CACHE_NAME urlsToCache caches NoDup_urlsToCache Hok)
    as (caches' & Hinstall & Hheld).
  exists caches'. split; [exact Hinstall|]. intros later u Hu.
  unfold fetch_listener, activate. rewrite caches_match_activate_listener, (Hheld u Hu).
  destruct (Hok u Hu) as (r & -> & _). reflexivity.
Qed.
End FetchListener.

(** ** What goes over the wire *)

Section Wire.
Context {Server : Type}.
Implicit Types (w : World Server).

Lemma well_formed_note_value n : well_formed (note_value n).
Proof.
  apply well_formed_object. split.
  - apply (bool_decide_unpack _). vm_compute. reflexivity.
  - repeat constructor.
Qed.

Lemma well_formed_member key v : well_formed v -> well_formed (VObject [(key, v)]).
Proof.
  intros Hv. apply well_formed_object. split.
  - apply NoDup_singleton.
  - now repeat constructor.
Qed.

Lemma request_body m payload :
  well_formed payload ->
  exists t,
    NoteKeeper.request m payload =
      {| url := NoteKeeper.BASE_URL; method := m; json_content_type := true;
         body := Some t |} /\
    JSON.parse t = Some payload.
Proof.
  intros Hp. destruct (stringify_well_formed payload Hp) as [Hs Hparse].
  exists (text_of payload). unfold NoteKeeper.request. now rewrite Hs.
Qed.

(** X20.  NoteKeeper.create, update and delete each send exactly one
    request, to BASE_URL, with the JSON content type and the method POST,
    PUT and DELETE, whatever the answer is; its body is JSON text that
    parses back to {note: content}, {notes: the notes} and {ids: the ids}. *)
Theorem client_requests_decode w :
  (forall content, exists t,
      requests (snd (NoteKeeper.create (VString content) w)) =
        requests w ++ [{| url := NoteKeeper.BASE_URL; method := POST;
                          json_content_type := true; body := Some t |}] /\
      JSON.parse t = Some (VObject [(str "note", VString content)])) /\
  (forall notes : list Note, exists t,
      requests (snd (NoteKeeper.update (List.map note_value notes) w)) =
        requests w ++ [{| url := NoteKeeper.BASE_URL; method := PUT;
                          json_content_type := true; body := Some t |}] /\
      JSON.parse t = Some (VObject [(str "notes", notes_value notes)])) /\
  (forall ids : list Z, exists t,
      requests (snd (NoteKeeper.delete (List.map (fun i => VNumber i 0) ids) w)) =
        requests w ++ [{| url := NoteKeeper.BASE_URL; method := DELETE;
                          json_content_type := true; body := Some t |}] /\
      JSON.parse t = Some (VObject [(str "ids",
                                     VArray (List.map (fun i => VNumber i 0) ids))])).
Proof.
  split; [|split].
  - intros content.
    destruct (request_body POST (VObject [(str "note", VString content)]))
      as (t & Hreq & Hparse); [now apply well_formed_member|].
    exists t. split; [|exact Hparse].
    unfold NoteKeeper.create. rewrite after_bind by (intros a; preserves_all).
    now rewrite fetch_requests, Hreq.
  - intros notes.
    destruct (request_body PUT (VObject [(str "notes", notes_value notes)]))
      as (t & Hreq & Hparse).
    { apply well_formed_member, well_formed_array, Forall_forall.
      intros x Hx. apply list_elem_of_In, in_map_iff in Hx as (n & <- & _).
      apply well_formed_note_value. }
    exists t. split; [|exact Hparse].
    unfold NoteKeeper.update. rewrite after_bind by (intros a; preserves_all).
    now rewrite fetch_requests, <- Hreq.
  - intros ids.
    destruct (request_body DELETE
                (VObject [(str "ids", VArray (List.map (fun i => VNumber i 0) ids))]))
      as (t & Hreq & Hparse).
    { apply well_formed_member, well_formed_array, Forall_forall.
      intros x Hx. apply list_elem_of_In, in_map_iff in Hx as (n & <- & _).
      reflexivity. }
    exists t. split; [|exact Hparse].
    unfold NoteKeeper.delete. rewrite after_bind by (intros a; preserves_all).
    now rewrite fetch_requests, <- Hreq.
Qed.

(** X21.  getAll returns the property notes of the answer without looking
    at response.ok: when the body of the answer is the JSON text of
    {notes: v}, for a value v on which the model of JSON and the engine
    agree (every number a safe integer, no key written with digits only),
    getAll returns v. *)
Theorem getAll_decodes_any_status w (v : value) response s' :
  storable v ->
  text response = text_of (VObject [(str "notes", v)]) ->
  network w {| url := NoteKeeper.BASE_URL; method := GET;
               json_content_type := false; body := None |} (server w)
  = (Some response, s') ->
  fst (NoteKeeper.getAll w) = Returns v.
Proof.
  intros Hv Htext Hnet. apply storable_well_formed in Hv.
  unfold NoteKeeper.getAll, bind at 1, fetch. rewrite Hnet.
  unfold bind at 1, json, JSON_parse. rewrite Htext.
  rewrite (proj2 (stringify_well_formed _ (well_formed_member (str "notes") v Hv))).
  reflexivity.
Qed.

(** X22.  NoteKeeper.create returns the property note of the answer
    without looking at response.ok: when the body of the answer is the
    JSON text of {note: v}, for a value v on which the model of JSON and
    the engine agree (every number a safe integer, no key written with
    digits only), create returns v. *)
Theorem create_decodes_any_status w content (v : value) response s' :
  storable v ->
  text response = text_of (VObject [(str "note", v)]) ->
  network w (create_request content) (server w) = (Some response, s') ->
  fst (NoteKeeper.create (VString content) w) = Returns v.
Proof.
  intros Hv Htext Hnet. apply storable_well_formed in Hv.
  unfold NoteKeeper.create, bind at 1, fetch.
  change (NoteKeeper.request POST (VObject [(str "note", VString content)]))
    with (create_request content).
  rewrite Hnet.
  unfold bind at 1, json, JSON_parse. rewrite Htext.
  rewrite (proj2 (stringify_well_formed _ (well_formed_member (str "note") v Hv))).
  reflexivity.
Qed.
End Wire.

(** ** The statements on examples *)

Lemma setInLocalStorage_then_get_witness :
  let w := browser false (Some (notes_text [note_a])) [] in
  let v := VArray [VNumber 15 0; VString (str "a"); VNull] in
  exists w',
    app.setInLocalStorage "draft" v w = (Returns tt, w') /\
    app.getFromLocalStorage "draft" w' = (Returns v, w') /\
    (forall other, other ≠ "draft" ->
       stored_value (localStorage w') other = stored_value (localStorage w) other).
Proof.
  cbv zeta.
  apply (setInLocalStorage_then_get "draft"
           (VArray [VNumber 15 0; VString (str "a"); VNull])
           (browser false (Some (notes_text [note_a])) [])).
  simpl. repeat split. lia.
Defined.

Lemma getFromLocalStorage_write_back_witness :
  let w := browser false (Some (notes_text [note_a; note_b])) [] in
  w = w /\
  exists w',
    app.setInLocalStorage "savedNotes" (notes_value [note_a; note_b]) w = (Returns tt, w') /\
    app.getFromLocalStorage "savedNotes" w' = (Returns (notes_value [note_a; note_b]), w').
Proof.
  cbv zeta.
  apply (getFromLocalStorage_write_back "savedNotes" (notes_value [note_a; note_b])
           (browser false (Some (notes_text [note_a; note_b])) [])).
  - vm_compute. reflexivity.
  - simpl. repeat split; try lia; apply (bool_decide_unpack _); vm_compute; reflexivity.
Defined.

Lemma corrupt_storage_witness :
  let w := browser true (Some (str "{")) [Some (notes_response [note_a])] in
  app.loadNotes w = (Throws SyntaxError, w) /\
  (forall noteContent,
      app.handleCreateNote noteContent w =
      (Returns false, failed (EngineMessage SyntaxError) w)) /\
  (forall note,
      app.handleUpdateNote note w =
      (Returns tt, failed (EngineMessage SyntaxError) w)) /\
  (forall noteId noteElement,
      app.handleDeleteNote noteId noteElement w =
      (Returns tt, failed (EngineMessage SyntaxError) w)).
Proof.
  cbv zeta.
  apply (corrupt_storage (browser true (Some (str "{")) [Some (notes_response [note_a])])
           (str "{")).
  - reflexivity.
  - vm_compute. reflexivity.
Defined.

Lemma loadNotes_undefined_notes_witness :
  let w := browser true (Some (notes_text [note_a]))
                   [Some {| ok := true; text := str "{}" |}] in
  exists w',
    app.loadNotes w = (Throws TypeError, w') /\
    notes_container w' = notes_container w /\
    logs_container w' = logs_container w /\
    stored_value (localStorage w') "savedNotes" = None /\
    app.loadNotes w' = (Throws SyntaxError, w') /\
    (forall noteContent,
        app.handleCreateNote noteContent w'
        = (Returns false, failed (EngineMessage SyntaxError) w')).
Proof.
  cbv zeta.
  apply (loadNotes_undefined_notes
           (browser true (Some (notes_text [note_a]))
                    [Some {| ok := true; text := str "{}" |}])
           (notes_value [note_a])
           (snd (NoteKeeper.getAll
                   (browser true (Some (notes_text [note_a]))
                            [Some {| ok := true; text := str "{}" |}])))).
  - reflexivity.
  - vm_compute. reflexivity.
  - vm_compute. reflexivity.
Defined.

Lemma handleCreateNote_online_success_witness :
  let w := browser true (Some (notes_text [note_a; note_b]))
                   [Some (note_response note_c)] in
  exists w',
    app.handleCreateNote (str "c") w = (Returns true, w') /\
    snapshot_is w' ([note_a; note_b] ++ [note_c]) /\
    rendered w' = rendered w ++ [shown note_c] /\
    requests w' = requests w ++ [create_request (str "c")] /\
    logs_container w' =
      logs_container w ++ [{| operation := Text "Création d'une note";
                              isSuccess := true |}].
Proof.
  cbv zeta.
  apply (handleCreateNote_online_success
           (browser true (Some (notes_text [note_a; note_b]))
                    [Some (note_response note_c)])
           [note_a; note_b] (str "c") note_c
           (snd (NoteKeeper.create (VString (str "c"))
                   (browser true (Some (notes_text [note_a; note_b]))
                            [Some (note_response note_c)])))).
  - reflexivity.
  - vm_compute. reflexivity.
  - vm_compute. reflexivity.
Defined.

Lemma handleCreateNote_not_created_witness :
  let w := browser true (Some (notes_text [note_a]))
                   [Some {| ok := true; text := str "{}" |}] in
  exists w',
    app.handleCreateNote (str "c") w = (Returns false, w') /\
    localStorage w' = localStorage w /\
    notes_container w' = notes_container w.
Proof.
  cbv zeta.
  apply (handleCreateNote_not_created
           (browser true (Some (notes_text [note_a]))
                    [Some {| ok := true; text := str "{}" |}])
           (str "c") (Returns VUndefined)
           (snd (NoteKeeper.create (VString (str "c"))
                   (browser true (Some (notes_text [note_a]))
                            [Some {| ok := true; text := str "{}" |}])))).
  - reflexivity.
  - vm_compute. reflexivity.
  - reflexivity.
Defined.

Lemma handleDeleteNote_offline_witness :
  let w := browser false (Some (notes_text [note_a; note_b])) [] in
  app.handleDeleteNote (VNumber 1 0) (Some 0%nat) w =
  (Returns tt, failed (Text "Impossible de supprimer la note hors ligne.") w).
Proof.
  cbv zeta.
  apply (handleDeleteNote_offline
           (browser false (Some (notes_text [note_a; note_b])) [])
           (VNumber 1 0) (Some 0%nat)).
  - reflexivity.
  - exists (notes_value [note_a; note_b]). vm_compute. reflexivity.
Defined.

Lemma handleDeleteNote_detached_element_witness :
  let w := browser true (Some (notes_text [note_a; note_b])) [] in
  exists w',
    app.handleDeleteNote (VNumber 1 0) (Some 7%nat) w = (Returns tt, w') /\
    snapshot_is w' (remove_note 1 [note_a; note_b]) /\
    notes_container w' = notes_container w /\
    logs_container w' =
      logs_container w ++ [{| operation := EngineMessage NotFoundError;
                              isSuccess := false |}].
Proof.
  cbv zeta.
  apply (handleDeleteNote_detached_element
           (browser true (Some (notes_text [note_a; note_b])) [])
           [note_a; note_b] 1 7%nat).
  - reflexivity.
  - vm_compute. reflexivity.
  - simpl. constructor.
Defined.

Lemma handleDeleteNote_twice_witness :
  let w := browser true (Some (notes_text [note_a; note_b; note_c])) [] in
  exists w1 w2 w3 w4 l',
    app.handleDeleteNote (VNumber 1 0) None w = (Returns tt, w1) /\
    app.handleDeleteNote (VNumber 3 0) None w1 = (Returns tt, w2) /\
    app.handleDeleteNote (VNumber 3 0) None w = (Returns tt, w3) /\
    app.handleDeleteNote (VNumber 1 0) None w3 = (Returns tt, w4) /\
    snapshot_is w2 l' /\ snapshot_is w4 l' /\
    (forall x, In x l' <-> In x [note_a; note_b; note_c] /\ id x <> 1%Z /\ id x <> 3%Z) /\
    (1%Z = 3%Z -> snapshot_is w1 l').
Proof.
  cbv zeta.
  apply (handleDeleteNote_twice
           (browser true (Some (notes_text [note_a; note_b; note_c])) [])
           [note_a; note_b; note_c] 1 3 None None).
  - reflexivity.
  - vm_compute. reflexivity.
Defined.

Lemma handleUpdateNote_keeps_ids_witness :
  let l := [note_a; {| id := 1; note := str "x" |}; note_b] in
  let n := {| id := 1; note := str "A" |} in
  let w := browser true (Some (notes_text l)) [Some {| ok := true; text := [] |}] in
  exists w' l',
    app.handleUpdateNote (note_value n) w = (Returns tt, w') /\
    snapshot_is w' l' /\
    List.map id l' = List.map id l /\
    (forall i old, l !! i = Some old ->
                   l' !! i = Some (if (id old =? id n)%Z then n else old)) /\
    (~ In (id n) (List.map id l) -> l' = l).
Proof.
  cbv zeta.
  apply (handleUpdateNote_keeps_ids
           (browser true
              (Some (notes_text [note_a; {| id := 1; note := str "x" |}; note_b]))
              [Some {| ok := true; text := [] |}])
           [note_a; {| id := 1; note := str "x" |}; note_b]
           {| id := 1; note := str "A" |}
           {| ok := true; text := [] |} []).
  - reflexivity.
  - vm_compute. reflexivity.
  - reflexivity.
  - reflexivity.
Defined.

Lemma loadNotes_offline_renders_snapshot_witness :
  let w := browser false (Some (notes_text [note_a; note_b])) [] in
  exists w',
    app.loadNotes w = (Returns tt, w') /\
    localStorage w' = localStorage w /\
    requests w' = requests w /\
    rendered w' = rendered w ++ List.map shown [note_a; note_b] /\
    logs_container w' =
      logs_container w ++ [{| operation := Text "Chargement des notes";
                              isSuccess := true |}].
Proof.
  cbv zeta.
  apply (loadNotes_offline_renders_snapshot
           (browser false (Some (notes_text [note_a; note_b])) [])
           [note_a; note_b]).
  - reflexivity.
  - vm_compute. reflexivity.
Defined.

Lemma loadNotes_replaces_snapshot_witness :
  let w := browser true (Some (notes_text [note_a]))
                   [Some (notes_response [note_b; note_c])] in
  exists r w',
    app.loadNotes w = (r, w') /\
    snapshot_is w' [note_b; note_c] /\
    ([note_b; note_c] <> [] ->
     r = Returns tt /\ rendered w' = rendered w ++ List.map shown [note_b; note_c]).
Proof.
  cbv zeta.
  apply (loadNotes_replaces_snapshot
           (browser true (Some (notes_text [note_a]))
                    [Some (notes_response [note_b; note_c])])
           (notes_value [note_a]) [note_b; note_c]
           (snd (NoteKeeper.getAll
                   (browser true (Some (notes_text [note_a]))
                            [Some (notes_response [note_b; note_c])])))).
  - reflexivity.
  - vm_compute. reflexivity.
  - vm_compute. reflexivity.
Defined.

Lemma note_submit_replaces_witness :
  let w := browser true (Some (notes_text [note_a; note_b]))
                   [Some {| ok := true; text := [] |}] in
  exists w',
    note_submit (note_element 0 note_b) (str "  B ") w = (Returns tt, w') /\
    snapshot_is w' (replace_note {| id := id note_b; note := trim (str "  B ") |}
                                 [note_a; note_b]) /\
    notes_container w' = notes_container w.
Proof.
  cbv zeta.
  apply (note_submit_replaces
           (browser true (Some (notes_text [note_a; note_b]))
                    [Some {| ok := true; text := [] |}])
           [note_a; note_b] note_b 0%nat (str "  B ")
           {| ok := true; text := [] |} []).
  - vm_compute. discriminate.
  - reflexivity.
  - vm_compute. reflexivity.
  - reflexivity.
  - reflexivity.
Defined.

Lemma note_submit_blank_witness :
  let w := browser true (Some (notes_text [note_a])) [] in
  note_submit (note_element 0 note_a) (str "  ") w = (Returns tt, w).
Proof.
  cbv zeta.
  apply (note_submit_blank (note_element 0 note_a) (str "  ")
           (browser true (Some (notes_text [note_a])) [])).
  simpl. repeat constructor.
Defined.

Lemma create_then_delete_click_witness :
  let w := browser true (Some (notes_text [note_a; note_b]))
                   [Some (note_response note_c)] in
  exists w1 w2,
    app.handleCreateNote (str "c") w = (Returns true, w1) /\
    last (notes_container w1) = Some (note_element (elements_created w) note_c) /\
    note_delete_click (note_element (elements_created w) note_c) w1 = (Returns tt, w2) /\
    snapshot_is w2 [note_a; note_b] /\
    notes_container w2 = notes_container w /\
    requests w2 = requests w1.
Proof.
  cbv zeta.
  apply (create_then_delete_click
           (browser true (Some (notes_text [note_a; note_b]))
                    [Some (note_response note_c)])
           [note_a; note_b] (str "c") note_c
           (snd (NoteKeeper.create (VString (str "c"))
                   (browser true (Some (notes_text [note_a; note_b]))
                            [Some (note_response note_c)])))).
  - reflexivity.
  - vm_compute. reflexivity.
  - vm_compute. reflexivity.
  - simpl. lia.
  - simpl. constructor.
Defined.

Lemma installed_assets_served_offline_witness :
  let net := fun _ : string => Some {| ok := true; text := str "ok" |} in
  exists caches',
    ServiceWorker.install net ∅ = (ServiceWorker.Fulfilled, caches') /\
    forall later u, In u ServiceWorker.urlsToCache ->
      fetch_listener later u (ServiceWorker.activate caches') = net u.
Proof.
  cbv zeta.
  apply (installed_assets_served_offline
           (fun _ : string => Some {| ok := true; text := str "ok" |}) ∅).
  intros u _. exists {| ok := true; text := str "ok" |}. split; reflexivity.
Defined.

Lemma getAll_decodes_any_status_witness :
  let response := {| ok := false;
                     text := text_of (VObject [(str "notes", notes_value [note_a])]) |} in
  fst (NoteKeeper.getAll (browser true None [Some response]))
  = Returns (notes_value [note_a]).
Proof.
  cbv zeta.
  apply (getAll_decodes_any_status
           (browser true None
              [Some {| ok := false;
                       text := text_of (VObject [(str "notes", notes_value [note_a])]) |}])
           (notes_value [note_a])
           {| ok := false;
              text := text_of (VObject [(str "notes", notes_value [note_a])]) |}
           []).
  - simpl. repeat split; try lia; apply (bool_decide_unpack _); vm_compute; reflexivity.
  - reflexivity.
  - reflexivity.
Defined.

Lemma create_decodes_any_status_witness :
  let response := {| ok := false;
                     text := text_of (VObject [(str "note", note_value note_c)]) |} in
  fst (NoteKeeper.create (VString (str "c")) (browser true None [Some response]))
  = Returns (note_value note_c).
Proof.
  cbv zeta.
  apply (create_decodes_any_status
           (browser true None
              [Some {| ok := false;
                       text := text_of (VObject [(str "note", note_value note_c)]) |}])
           (str "c") (note_value note_c)
           {| ok := false;
              text := text_of (VObject [(str "note", note_value note_c)]) |}
           []).
  - simpl. repeat split; try lia; apply (bool_decide_unpack _); vm_compute; reflexivity.
  - reflexivity.
  - reflexivity.
Defined.

Lemma init_offline_start_witness :
  let w := browser false (Some (notes_text [note_a; note_b])) [] in
  exists w',
    init w = (Returns tt, w') /\
    localStorage w' = localStorage w /\
    requests w' = requests w /\
    rendered w' = rendered w ++ List.map shown [note_a; note_b] /\
    logs_container w' =
      logs_container w ++
        [{| operation := Text "Initialisation de l'application."; isSuccess := true |};
         {| operation := Text "Chargement des notes"; isSuccess := true |}].
Proof.
  cbv zeta.
  apply (init_offline_start
           (browser false (Some (notes_text [note_a; note_b])) [])
           [note_a; note_b]).
  - reflexivity.
  - vm_compute. reflexivity.
Defined.

Lemma init_unreadable_storage_witness :
  let w := browser true (Some (str "undefined")) [Some (notes_response [note_a])] in
  init w =
  (Returns tt,
   set_logs_container
     (logs_container w ++
        [{| operation := Text "Initialisation de l'application.";
            isSuccess := true |}]) w).
Proof.
  cbv zeta.
  apply (init_unreadable_storage
           (browser true (Some (str "undefined")) [Some (notes_response [note_a])])
           (str "undefined")).
  - reflexivity.
  - vm_compute. reflexivity.
Defined.
